(** * A dynamic reverse proxy: circuit breaker, health monitor, registry,
      LRU+TTL response cache, router and GET handler

    Shallow embedding of the Go sources
      - internal/app/circuitbreaker.go   CircuitBreakerManager
      - package app                      HealthMonitor
      - package registry                 Registry (in memory), and
                                         ServersForPath of PostgreSQLRegistry
      - internal/app/cache.go            ResponseCache
      - package app                      ResilientRouter, and the former
                                         findMatchingRoute, determineBackendURL
      - internal/app/handlers.go         reverseProxyHandler, HandleGetRequest,
                                         HandlePostRequest, performRequest

    Conventions of the embedding.
      - A Go [int] is a [Z] in the 64-bit two's complement range; every
        [+], [-], [++], [--] of the source is followed by [wrap_int].
      - A [time.Time] is a [Z] (nanoseconds on the monotonic clock); every
        function that reads the clock takes the reading as an argument
        [now].  [time.Since t] is [now - t], [t.After u] is [u < t],
        [t.Add d] is [t + d].
      - A Go string is a [string] (a sequence of bytes), [len] is
        [String.length]; a [[]byte] is a [list byte].
      - A Go map is a [gmap]; a [range] loop over a map visits every
        entry once in an order the language leaves unspecified, so the
        functions that range over a map take the order of each loop as an
        argument.
      - The mutexes are not modelled: every method holds its lock from
        entry to exit, so each call is one atomic state transformer.
      - Logging is omitted. *)

From Stdlib Require Import ZArith Lia Bool.
From Stdlib.Strings Require Import Byte.
From stdpp Require Import gmap strings list fin_maps.

Local Open Scope Z_scope.

(** ** Machine integers and time *)

Definition min_int : Z := - 2 ^ 63.
Definition max_int : Z := 2 ^ 63 - 1.

(** Two's complement wrap-around of a 64-bit Go [int]. *)
Definition wrap_int (x : Z) : Z := (x + 2 ^ 63) mod 2 ^ 64 - 2 ^ 63.

Definition Time := Z.
Definition Duration := Z.

Definition Second : Duration := 1000000000.

(** [time.Since(t)] when the clock reads [now]. *)
Definition Since (now t : Time) : Duration := now - t.

(** [t.After(u)]. *)
Definition After (t u : Time) : bool := u <? t.

(** ** circuitbreaker.go *)

Module CB.

Inductive BreakerState := Closed | Open | HalfOpen.

#[export] Instance BreakerState_eq_dec : EqDecision BreakerState.
Proof. solve_decision. Defined.

Definition FailuresToOpen : Z := 5.
Definition OpenCooldown : Duration := 30 * Second.

Record Breaker := mkBreaker {
  State : BreakerState;
  Failures : Z;
  LastOpenTime : Time;
  InFlight : Z
}.

Definition set_State (s : BreakerState) (b : Breaker) : Breaker :=
  mkBreaker s (Failures b) (LastOpenTime b) (InFlight b).
Definition set_Failures (f : Z) (b : Breaker) : Breaker :=
  mkBreaker (State b) f (LastOpenTime b) (InFlight b).
Definition set_LastOpenTime (t : Time) (b : Breaker) : Breaker :=
  mkBreaker (State b) (Failures b) t (InFlight b).
Definition set_InFlight (n : Z) (b : Breaker) : Breaker :=
  mkBreaker (State b) (Failures b) (LastOpenTime b) n.

(** The table [map[string]*Breaker]: every pointer is held by the table
    alone, so a write through the pointer is a write to the table. *)
Record CircuitBreakerManager := mkCBM { breakers : gmap string Breaker }.

Definition NewCircuitBreakerManager : CircuitBreakerManager := mkCBM ∅.

(** [&Breaker{State: Closed, Failures: 0}]: the other fields are zero. *)
Definition newBreaker : Breaker := mkBreaker Closed 0 0 0.

Definition write (serverName : string) (b : Breaker)
    (cbm : CircuitBreakerManager) : CircuitBreakerManager :=
  mkCBM (<[serverName := b]> (breakers cbm)).

(** Lines 70-78 and 153-160: look the breaker up, create it when absent. *)
Definition lookupOrCreate (serverName : string) (cbm : CircuitBreakerManager)
    : Breaker * CircuitBreakerManager :=
  match breakers cbm !! serverName with
  | Some breaker => (breaker, cbm)
  | None => (newBreaker, write serverName newBreaker cbm)
  end.

Definition AllowRequest (serverName : string) (now : Time)
    (cbm : CircuitBreakerManager) : bool * CircuitBreakerManager :=
  let '(breaker, cbm) := lookupOrCreate serverName cbm in
  match State breaker with
  | Closed => (true, cbm)
  | Open =>
      if OpenCooldown <=? Since now (LastOpenTime breaker) then
        (true, write serverName (set_InFlight 0 (set_State HalfOpen breaker)) cbm)
      else (false, cbm)
  | HalfOpen =>
      if InFlight breaker =? 0 then
        (true, write serverName
                 (set_InFlight (wrap_int (InFlight breaker + 1)) breaker) cbm)
      else (false, cbm)
  end.

Definition OnSuccess (serverName : string) (cbm : CircuitBreakerManager)
    : CircuitBreakerManager :=
  match breakers cbm !! serverName with
  | None => cbm
  | Some breaker =>
      let breaker := set_Failures 0 breaker in
      match State breaker with
      | HalfOpen => write serverName (set_InFlight 0 (set_State Closed breaker)) cbm
      | Open => write serverName breaker cbm
      | Closed => write serverName breaker cbm
      end
  end.

Definition OnFailure (serverName : string) (now : Time)
    (cbm : CircuitBreakerManager) : CircuitBreakerManager :=
  let '(breaker, cbm) := lookupOrCreate serverName cbm in
  let breaker := set_Failures (wrap_int (Failures breaker + 1)) breaker in
  match State breaker with
  | HalfOpen =>
      write serverName
        (set_InFlight 0 (set_LastOpenTime now (set_State Open breaker))) cbm
  | Closed =>
      if FailuresToOpen <=? Failures breaker then
        write serverName (set_LastOpenTime now (set_State Open breaker)) cbm
      else write serverName breaker cbm
  | Open => write serverName breaker cbm
  end.

Definition OnRequestComplete (serverName : string)
    (cbm : CircuitBreakerManager) : CircuitBreakerManager :=
  match breakers cbm !! serverName with
  | None => cbm
  | Some breaker =>
      if bool_decide (State breaker = HalfOpen) && (0 <? InFlight breaker) then
        write serverName (set_InFlight (wrap_int (InFlight breaker - 1)) breaker) cbm
      else cbm
  end.

Definition GetBreakerState (serverName : string)
    (cbm : CircuitBreakerManager) : BreakerState :=
  match breakers cbm !! serverName with
  | None => Closed
  | Some breaker => State breaker
  end.

Definition GetBreakerInfo (serverName : string)
    (cbm : CircuitBreakerManager) : option Breaker :=
  breakers cbm !! serverName.

Definition RemoveBreaker (serverName : string)
    (cbm : CircuitBreakerManager) : CircuitBreakerManager :=
  mkCBM (delete serverName (breakers cbm)).

Definition ResetBreaker (serverName : string)
    (cbm : CircuitBreakerManager) : CircuitBreakerManager :=
  match breakers cbm !! serverName with
  | None => cbm
  | Some breaker =>
      write serverName
        (set_InFlight 0 (set_Failures 0 (set_State Closed breaker))) cbm
  end.

(** [n] consecutive [OnFailure] calls, at the clock readings [ts]. *)
(** The breaker of [serverName] is Closed with [n] failures counted; a
    backend without breaker counts as Closed with none. *)
Definition closed_with (serverName : string) (n : Z)
    (cbm : CircuitBreakerManager) : Prop :=
  match breakers cbm !! serverName with
  | None => n = 0
  | Some breaker => State breaker = Closed /\ Failures breaker = n
  end.

Definition failures (serverName : string) (ts : list Time)
    (cbm : CircuitBreakerManager) : CircuitBreakerManager :=
  foldl (fun c t => OnFailure serverName t c) cbm ts.

(** A sequence of calls on the breaker table, and what each returns. *)
Inductive Call :=
  | CallAllowRequest (serverName : string) (now : Time)
  | CallOnSuccess (serverName : string)
  | CallOnFailure (serverName : string) (now : Time)
  | CallOnRequestComplete (serverName : string).

Definition target (c : Call) : string :=
  match c with
  | CallAllowRequest s _ | CallOnSuccess s | CallOnFailure s _
  | CallOnRequestComplete s => s
  end.

Definition is_AllowRequest (c : Call) : bool :=
  match c with CallAllowRequest _ _ => true | _ => false end.

(** The result of a call: [Some b] for [AllowRequest], [None] for the
    others. *)
Definition call (c : Call) (cbm : CircuitBreakerManager)
    : option bool * CircuitBreakerManager :=
  match c with
  | CallAllowRequest s now =>
      let '(b, cbm) := AllowRequest s now cbm in (Some b, cbm)
  | CallOnSuccess s => (None, OnSuccess s cbm)
  | CallOnFailure s now => (None, OnFailure s now cbm)
  | CallOnRequestComplete s => (None, OnRequestComplete s cbm)
  end.

Fixpoint calls (cs : list Call) (cbm : CircuitBreakerManager)
    : list (option bool) * CircuitBreakerManager :=
  match cs with
  | [] => ([], cbm)
  | c :: cs =>
      let '(r, cbm) := call c cbm in
      let '(rs, cbm) := calls cs cbm in
      (r :: rs, cbm)
  end.

(** [String()] of a state; the [default] branch of the source is for
    integers that are no state. *)
Definition String (s : BreakerState) : string :=
  match s with
  | Closed => "Closed"
  | Open => "Open"
  | HalfOpen => "HalfOpen"
  end.

(** [GetAllBreakers()]: a copy of the table. *)
Definition GetAllBreakers (cbm : CircuitBreakerManager) : gmap string Breaker :=
  breakers cbm.

(** Any method of the manager that changes the table. *)
Inductive Method :=
  | DoAllowRequest (serverName : string) (now : Time)
  | DoOnSuccess (serverName : string)
  | DoOnFailure (serverName : string) (now : Time)
  | DoOnRequestComplete (serverName : string)
  | DoResetBreaker (serverName : string)
  | DoRemoveBreaker (serverName : string).

Definition receiver (m : Method) : string :=
  match m with
  | DoAllowRequest s _ | DoOnSuccess s | DoOnFailure s _
  | DoOnRequestComplete s | DoResetBreaker s | DoRemoveBreaker s => s
  end.

Definition invoke (cbm : CircuitBreakerManager) (m : Method)
    : CircuitBreakerManager :=
  match m with
  | DoAllowRequest s now => (AllowRequest s now cbm).2
  | DoOnSuccess s => OnSuccess s cbm
  | DoOnFailure s now => OnFailure s now cbm
  | DoOnRequestComplete s => OnRequestComplete s cbm
  | DoResetBreaker s => ResetBreaker s cbm
  | DoRemoveBreaker s => RemoveBreaker s cbm
  end.

Definition history (ms : list Method) (cbm : CircuitBreakerManager)
    : CircuitBreakerManager :=
  foldl invoke cbm ms.


(** The in-flight counter of a breaker is 0, or 1 in HalfOpen. *)
Definition probe_counted (b : Breaker) : Prop :=
  InFlight b = 0 \/ (InFlight b = 1 /\ State b = HalfOpen).

(** A report about a request: what the handlers call after forwarding. *)
Definition is_report (m : Method) : bool :=
  match m with
  | DoOnSuccess _ | DoOnFailure _ _ | DoOnRequestComplete _ => true
  | _ => false
  end.

End CB.

(** ** The health monitor (package app) *)

Module Health.

Definition UnhealthyThreshold : Z := 3.

Record HealthStatus := mkHealthStatus {
  hs_IsHealthy : bool;
  hs_LastChecked : Time;
  hs_ConsecutiveFailures : Z;
  hs_LastResponseTime : Duration
}.

Record HealthMonitor := mkHM { healthMap : gmap string HealthStatus }.

Definition NewHealthMonitor : HealthMonitor := mkHM ∅.

(** [updateHealthStatus(serverName, isHealthy, responseTime)] when the
    clock reads [now]. *)
Definition updateHealthStatus (serverName : string) (isHealthy : bool)
    (responseTime : Duration) (now : Time) (hm : HealthMonitor) : HealthMonitor :=
  let status :=
    match healthMap hm !! serverName with
    | Some status => status
    | None => mkHealthStatus false 0 0 0
    end in
  let status :=
    mkHealthStatus (hs_IsHealthy status) now (hs_ConsecutiveFailures status)
      responseTime in
  let status :=
    if isHealthy then
      mkHealthStatus true (hs_LastChecked status) 0 (hs_LastResponseTime status)
    else
      let failures := wrap_int (hs_ConsecutiveFailures status + 1) in
      mkHealthStatus
        (if UnhealthyThreshold <=? failures then false else hs_IsHealthy status)
        (hs_LastChecked status) failures (hs_LastResponseTime status) in
  mkHM (<[serverName := status]> (healthMap hm)).

Definition IsHealthy (serverName : string) (hm : HealthMonitor) : bool :=
  match healthMap hm !! serverName with
  | None => false
  | Some status => hs_IsHealthy status
  end.

Definition GetHealthStatus (serverName : string) (hm : HealthMonitor)
    : option HealthStatus :=
  healthMap hm !! serverName.

Definition RemoveServer (serverName : string) (hm : HealthMonitor)
    : HealthMonitor :=
  mkHM (delete serverName (healthMap hm)).

(** What one probe of [checkServerHealth] observes: a transport error
    (or a request that could not be built), or a response status. *)
Inductive ProbeResult := ProbeError | ProbeStatus (code : Z).

Definition probeHealthy (p : ProbeResult) : bool :=
  match p with
  | ProbeError => false
  | ProbeStatus code => (200 <=? code) && (code <? 300)
  end.

Definition checkServerHealth (serverName : string) (p : ProbeResult)
    (responseTime : Duration) (now : Time) (hm : HealthMonitor) : HealthMonitor :=
  updateHealthStatus serverName (probeHealthy p) responseTime now hm.

(** One recorded probe: backend name, outcome, response time, clock. *)
Record Probe := mkProbe {
  p_name : string; p_ok : bool; p_rt : Duration; p_now : Time
}.

Definition record (hm : HealthMonitor) (p : Probe) : HealthMonitor :=
  updateHealthStatus (p_name p) (p_ok p) (p_rt p) (p_now p) hm.

Definition run (ps : list Probe) (hm : HealthMonitor) : HealthMonitor :=
  foldl record hm ps.

(** The last [k] probes of [s] in [ps] all failed. *)
Definition failed_streak (s : string) (ps : list Probe) (k : nat) : Prop :=
  exists front fs,
    filter (fun q => p_name q = s) ps = front ++ fs /\
    length fs = k /\ Forall (fun q => p_ok q = false) fs.

(** [GetAllHealthStatuses()]: a copy of the table. *)
Definition GetAllHealthStatuses (hm : HealthMonitor) : gmap string HealthStatus :=
  healthMap hm.

(** One health check of [checkServerHealth]: the backend, what the
    probe observed, the response time and the clock. *)
Record Check := mkCheck {
  c_name : string; c_result : ProbeResult; c_rt : Duration; c_now : Time
}.

Definition check (hm : HealthMonitor) (c : Check) : HealthMonitor :=
  checkServerHealth (c_name c) (c_result c) (c_rt c) (c_now c) hm.

Definition checks (cs : list Check) (hm : HealthMonitor) : HealthMonitor :=
  foldl check hm cs.

(** The probe was answered with a status in the 2xx range. *)
Definition answered_2xx (r : ProbeResult) : Prop :=
  exists code, r = ProbeStatus code /\ 200 <= code < 300.

(** [checkAllServers]: nothing when no server is listed; otherwise one
    goroutine per listed server runs [checkServerHealth], and
    [wg.Wait()] waits for all.  The goroutines share the table only,
    which each updates once, under the mutex: [schedule] lists the
    checks of the round in the order in which the updates take the
    lock. *)
Definition checkAllServers (schedule : list Check) (hm : HealthMonitor)
    : HealthMonitor :=
  match schedule with
  | [] => hm
  | _ => checks schedule hm
  end.

(** What a check records. *)
Definition probe_of (c : Check) : Probe :=
  mkProbe (c_name c) (probeHealthy (c_result c)) (c_rt c) (c_now c).

(** The part of a record that routing depends on: the flag and the
    failure counter. *)
Definition verdict (s : string) (hm : HealthMonitor) : option (bool * Z) :=
  (fun st => (hs_IsHealthy st, hs_ConsecutiveFailures st)) <$> healthMap hm !! s.


End Health.

(** ** The registry (package registry) *)

Module Reg.

Record Server := mkServer {
  Name : string;
  BaseURL : string;
  Prefixes : list string;
  RegisteredAt : Time
}.

#[export] Instance Server_eq_dec : EqDecision Server.
Proof. solve_decision. Defined.

Record Registry := mkRegistry { servers : gmap string Server }.

Definition NewRegistry : Registry := mkRegistry ∅.

Inductive RegistryError :=
  | AlreadyRegistered (name : string)
  | DoesNotExist (name : string)
  | NotFound (name : string).

Definition Register (s : Server) (r : Registry) : RegistryError + Registry :=
  match servers r !! Name s with
  | Some _ => inl (AlreadyRegistered (Name s))
  | None => inr (mkRegistry (<[Name s := s]> (servers r)))
  end.

Definition Deregister (name : string) (r : Registry) : RegistryError + Registry :=
  match servers r !! name with
  | None => inl (DoesNotExist name)
  | Some _ => inr (mkRegistry (delete name (servers r)))
  end.

Definition GetServer (name : string) (r : Registry) : RegistryError + Server :=
  match servers r !! name with
  | Some server => inr server
  | None => inl (NotFound name)
  end.

(** [order] is an order in which one [range r.servers] loop may visit
    the table: every entry exactly once. *)
Definition ranges (r : Registry) (order : list Server) : Prop :=
  order ≡ₚ (map_to_list (servers r)).*2.

Definition len (s : string) : Z := Z.of_nat (String.length s).

(** [strings.HasPrefix(s, prefix)]. *)
Definition HasPrefix (s prefix : string) : bool := String.prefix prefix s.

(** The body of the first pass, for one server. *)
Definition scanPrefixes (requestPath : string) (longestPrefix : string)
    (prefixes : list string) : string :=
  foldl (fun longestPrefix prefix =>
           if HasPrefix requestPath prefix && (len longestPrefix <? len prefix)
           then prefix else longestPrefix)
        longestPrefix prefixes.

(** The inner loop of the second pass, with its [break]. *)
Fixpoint collectServer (longestPrefix : string) (server : Server)
    (prefixes : list string) (matchingServers : list Server) : list Server :=
  match prefixes with
  | [] => matchingServers
  | prefix :: rest =>
      if String.eqb prefix longestPrefix then matchingServers ++ [server]
      else collectServer longestPrefix server rest matchingServers
  end.

(** [ServersForPath(requestPath)]; [order1] and [order2] are the orders
    of the two [range r.servers] loops. *)
Definition ServersForPath (order1 order2 : list Server) (requestPath : string)
    : string * list Server * bool :=
  let longestPrefix :=
    foldl (fun longestPrefix server =>
             scanPrefixes requestPath longestPrefix (Prefixes server))
          EmptyString order1 in
  let matchingServers :=
    if String.eqb longestPrefix EmptyString then []
    else foldl (fun matchingServers server =>
                  collectServer longestPrefix server (Prefixes server)
                    matchingServers)
               [] order2 in
  (longestPrefix, matchingServers, (0 <? Z.of_nat (length matchingServers))).


(** [p] is one of the prefixes of a server of the table. *)
Definition registered (r : Registry) (p : string) : Prop :=
  exists name server, servers r !! name = Some server /\ p ∈ Prefixes server.

(** [p] is an initial segment of [s]. *)
Definition is_prefix_of (p s : string) : Prop := exists rest, s = p +:+ rest.

(** [p] is a non-empty registered prefix that starts [requestPath]. *)
Definition routes (r : Registry) (requestPath p : string) : Prop :=
  registered r p /\ is_prefix_of p requestPath /\ p ≠ EmptyString.

(** [ListRegistered()]; [order] is the order of its [range r.servers]
    loop. *)
Definition ListRegistered (order : list Server) : list Server :=
  foldl (fun servers server => servers ++ [server]) [] order.

(** [GetServers()]: [ListRegistered()] with a nil error. *)
Definition GetServers (order : list Server) : list Server :=
  ListRegistered order.

(** The two calls that change the table.  A call that returns an error
    returned before it wrote. *)
Inductive Request :=
  | DoRegister (s : Server)
  | DoDeregister (name : string).

Definition serve (r : Registry) (q : Request) : Registry :=
  match q with
  | DoRegister s => match Register s r with inr r' => r' | inl _ => r end
  | DoDeregister name => match Deregister name r with inr r' => r' | inl _ => r end
  end.

Definition session (qs : list Request) (r : Registry) : Registry :=
  foldl serve r qs.

(** Every server of the table is stored under its own name. *)
Definition keyed (r : Registry) : Prop :=
  forall name server, servers r !! name = Some server -> Name server = name.

(** *** postgres_registry.go *)

(** A row of the table [services] as [GetAllServices] returns it;
    [svc_CreatedAt] is the [sql.NullTime]: [None] when not valid. *)
Record Service := mkService {
  svc_Name : string;
  svc_BaseUrl : string;
  svc_Prefixes : list string;
  svc_CreatedAt : option Time
}.

(** The [Server] built from a row; [fallback] is the reading of the
    clock when the row has no valid creation time. *)
Definition toServer (fallback : string -> Time) (service : Service) : Server :=
  mkServer (svc_Name service) (svc_BaseUrl service) (svc_Prefixes service)
    (default (fallback (svc_Name service)) (svc_CreatedAt service)).

(** The inner loop of the second pass of the PostgreSQL registry, with
    its [break]. *)
Fixpoint pgCollect (fallback : string -> Time) (longestPrefix : string)
    (service : Service) (prefixes : list string)
    (matchingServers : list Server) : list Server :=
  match prefixes with
  | [] => matchingServers
  | prefix :: rest =>
      if String.eqb prefix longestPrefix then
        let registeredAt :=
          match svc_CreatedAt service with
          | Some t => t
          | None => fallback (svc_Name service)
          end in
        matchingServers
          ++ [mkServer (svc_Name service) (svc_BaseUrl service)
                (svc_Prefixes service) registeredAt]
      else pgCollect fallback longestPrefix service rest matchingServers
  end.

(** [ServersForPath(requestPath)] of [PostgreSQLRegistry]; [services] is
    what the query [GetAllServices] returns, [None] when it fails.  Both
    passes go through the rows of that one result. *)
Definition PgServersForPath (services : option (list Service))
    (fallback : string -> Time) (requestPath : string)
    : string * list Server * bool :=
  match services with
  | None => (EmptyString, [], false)
  | Some services =>
      let longestPrefix :=
        foldl (fun longestPrefix service =>
                 foldl (fun longestPrefix prefix =>
                          if HasPrefix requestPath prefix
                             && (len longestPrefix <? len prefix)
                          then prefix else longestPrefix)
                       longestPrefix (svc_Prefixes service))
              EmptyString services in
      let matchingServers :=
        if String.eqb longestPrefix EmptyString then []
        else foldl (fun matchingServers service =>
                      pgCollect fallback longestPrefix service
                        (svc_Prefixes service) matchingServers)
                   [] services in
      (longestPrefix, matchingServers,
       (0 <? Z.of_nat (length matchingServers)))
  end.


(** The registry of the longest-prefix example: one server under
    [/s1], one under [/s1/a]. *)
Definition server_s1 : Server := mkServer "one" "http://localhost:4200" ["/s1"] 0.
Definition server_s1a : Server := mkServer "two" "http://localhost:2200" ["/s1/a"] 0.
Definition registry_s1 : Registry :=
  mkRegistry (<["one" := server_s1]> (<["two" := server_s1a]> ∅)).

(** A registry whose only server registered the empty prefix. *)
Definition server_root : Server := mkServer "root" "http://localhost:4200" [""] 0.
Definition registry_root : Registry := mkRegistry (<["root" := server_root]> ∅).

End Reg.

(** ** cache.go *)

Module Cache.

(** A [*Node]: [None] is [nil], [Some l] the address of an allocated
    node.  The nodes live in the store [nodes] of the cache; a node that
    is no longer referenced stays there as garbage. *)
Definition loc := positive.

Record Node := mkNode {
  key : string;
  value : list byte;
  sizeBytes : Z;
  expiresAt : Time;
  prev : option loc;
  next : option loc
}.

Definition set_value (v : list byte) (n : Node) : Node :=
  mkNode (key n) v (sizeBytes n) (expiresAt n) (prev n) (next n).
Definition set_sizeBytes (s : Z) (n : Node) : Node :=
  mkNode (key n) (value n) s (expiresAt n) (prev n) (next n).
Definition set_expiresAt (t : Time) (n : Node) : Node :=
  mkNode (key n) (value n) (sizeBytes n) t (prev n) (next n).
Definition set_prev (p : option loc) (n : Node) : Node :=
  mkNode (key n) (value n) (sizeBytes n) (expiresAt n) p (next n).
Definition set_next (p : option loc) (n : Node) : Node :=
  mkNode (key n) (value n) (sizeBytes n) (expiresAt n) (prev n) p.

Record ResponseCache := mkRC {
  items : gmap string loc;
  head : option loc;
  tail : option loc;
  maxBytes : Z;
  usedBytes : Z;
  ttl : Duration;
  nodes : gmap loc Node
}.

Definition set_items (m : gmap string loc) (rc : ResponseCache) : ResponseCache :=
  mkRC m (head rc) (tail rc) (maxBytes rc) (usedBytes rc) (ttl rc) (nodes rc).
Definition set_head (p : option loc) (rc : ResponseCache) : ResponseCache :=
  mkRC (items rc) p (tail rc) (maxBytes rc) (usedBytes rc) (ttl rc) (nodes rc).
Definition set_tail (p : option loc) (rc : ResponseCache) : ResponseCache :=
  mkRC (items rc) (head rc) p (maxBytes rc) (usedBytes rc) (ttl rc) (nodes rc).
Definition set_usedBytes (u : Z) (rc : ResponseCache) : ResponseCache :=
  mkRC (items rc) (head rc) (tail rc) (maxBytes rc) u (ttl rc) (nodes rc).
Definition set_nodes (h : gmap loc Node) (rc : ResponseCache) : ResponseCache :=
  mkRC (items rc) (head rc) (tail rc) (maxBytes rc) (usedBytes rc) (ttl rc) h.

Definition NewResponseCache (ttl : Duration) (maxBytes : Z) : ResponseCache :=
  mkRC ∅ None None maxBytes 0 ttl ∅.

(** A method either returns, or panics with a nil pointer dereference
    (or, for the eviction loop of the embedding, runs out of fuel):
    [None]. *)

(** Reading a field of [*p]. *)
Definition deref (p : loc) (rc : ResponseCache) : option Node := nodes rc !! p.

(** Writing a field of [*p]. *)
Definition assign (p : loc) (f : Node -> Node) (rc : ResponseCache)
    : option ResponseCache :=
  n ← nodes rc !! p; Some (set_nodes (<[p := f n]> (nodes rc)) rc).

Definition len_string (s : string) : Z := Z.of_nat (String.length s).
Definition len_bytes (b : list byte) : Z := Z.of_nat (length b).

Definition nodeOverhead : Z := 64.

Definition approximateSize (key : string) (value : list byte) : Z :=
  wrap_int (wrap_int (len_string key + len_bytes value) + nodeOverhead).

Definition detachNode (node : loc) (rc : ResponseCache) : option ResponseCache :=
  n ← deref node rc;
  rc ← match prev n with
       | Some p => assign p (set_next (next n)) rc
       | None => Some (set_head (next n) rc)
       end;
  n ← deref node rc;
  match next n with
  | Some q => assign q (set_prev (prev n)) rc
  | None => Some (set_tail (prev n) rc)
  end.

Definition insertAtHead (node : loc) (rc : ResponseCache) : option ResponseCache :=
  rc ← assign node (set_prev None) rc;
  rc ← assign node (set_next (head rc)) rc;
  rc ← match head rc with
       | Some h => assign h (set_prev (Some node)) rc
       | None => Some rc
       end;
  let rc := set_head (Some node) rc in
  Some (match tail rc with
        | None => set_tail (Some node) rc
        | Some _ => rc
        end).

Definition moveToHead (node : loc) (rc : ResponseCache) : option ResponseCache :=
  if bool_decide (Some node = head rc) then Some rc
  else rc ← detachNode node rc; insertAtHead node rc.

(** The loop of [evictToCapacity]; one unit of fuel per iteration. *)
Fixpoint evictLoop (fuel : nat) (rc : ResponseCache) : option ResponseCache :=
  if (maxBytes rc <? usedBytes rc) && bool_decide (tail rc ≠ None) then
    match fuel with
    | O => None
    | S fuel =>
        evictNode ← tail rc;
        rc ← detachNode evictNode rc;
        n ← deref evictNode rc;
        let rc := set_items (delete (key n) (items rc)) rc in
        n ← deref evictNode rc;
        let rc := set_usedBytes (wrap_int (usedBytes rc - sizeBytes n)) rc in
        evictLoop fuel rc
    end
  else Some rc.

(** Every iteration deletes one entry of [items], so [size items]
    iterations are enough (lemma [evictToCapacity_returns] below). *)
Definition evictToCapacity (rc : ResponseCache) : option ResponseCache :=
  evictLoop (size (items rc)) rc.

(** [Get(key)] when the clock reads [now]; [Some v] is [(v, true)] and
    [None] is [(nil, false)]. *)
Definition Get (k : string) (now : Time) (rc : ResponseCache)
    : option (option (list byte) * ResponseCache) :=
  match items rc !! k with
  | None => Some (None, rc)
  | Some node =>
      n ← deref node rc;
      if After now (expiresAt n) then
        rc ← detachNode node rc;
        let rc := set_items (delete k (items rc)) rc in
        n ← deref node rc;
        let rc := set_usedBytes (wrap_int (usedBytes rc - sizeBytes n)) rc in
        Some (None, rc)
      else
        rc ← moveToHead node rc;
        n ← deref node rc;
        Some (Some (value n), rc)
  end.

(** [Store(key, value)] when the clock reads [now]. *)
Definition Store (k : string) (v : list byte) (now : Time) (rc : ResponseCache)
    : option ResponseCache :=
  let size := approximateSize k v in
  rc ← match items rc !! k with
       | Some existingNode =>
           n ← deref existingNode rc;
           let rc := set_usedBytes (wrap_int (usedBytes rc - sizeBytes n)) rc in
           rc ← assign existingNode (set_value v) rc;
           rc ← assign existingNode (set_sizeBytes size) rc;
           rc ← assign existingNode (set_expiresAt (now + ttl rc)) rc;
           rc ← moveToHead existingNode rc;
           Some (set_usedBytes (wrap_int (usedBytes rc + size)) rc)
       | None =>
           let newNode := fresh (dom (nodes rc)) in
           let rc :=
             set_nodes
               (<[newNode := mkNode k v size (now + ttl rc) None None]> (nodes rc))
               rc in
           let rc := set_items (<[k := newNode]> (items rc)) rc in
           rc ← insertAtHead newNode rc;
           Some (set_usedBytes (wrap_int (usedBytes rc + size)) rc)
       end;
  evictToCapacity rc.

(** The loop of [cleanupExpired], from [current] towards the head; one
    unit of fuel per iteration.  [prev] is read before the node is
    detached. *)
Fixpoint cleanupLoop (fuel : nat) (now : Time) (current : option loc)
    (rc : ResponseCache) : option ResponseCache :=
  match current with
  | None => Some rc
  | Some current =>
      match fuel with
      | O => None
      | S fuel =>
          n ← deref current rc;
          let prev := prev n in
          rc ← (if After now (expiresAt n) then
                  rc ← detachNode current rc;
                  n ← deref current rc;
                  let rc := set_items (delete (key n) (items rc)) rc in
                  n ← deref current rc;
                  Some (set_usedBytes (wrap_int (usedBytes rc - sizeBytes n)) rc)
                else Some rc);
          cleanupLoop fuel now prev rc
      end
  end.

(** [cleanupExpired()] when the clock reads [now].  The loop visits
    every node of the list once, so [size items] iterations are enough
    (lemma [cleanupExpired_refines] below). *)
Definition cleanupExpired (now : Time) (rc : ResponseCache)
    : option ResponseCache :=
  cleanupLoop (size (items rc)) now (tail rc) rc.

(** The keys of the recency list, read from [head] along the [next]
    pointers; [fuel] bounds the number of nodes visited. *)
Fixpoint walk (fuel : nat) (p : option loc) (rc : ResponseCache)
    : option (list string) :=
  match p with
  | None => Some []
  | Some l =>
      match fuel with
      | O => None
      | S fuel => n ← deref l rc; ks ← walk fuel (next n) rc; Some (key n :: ks)
      end
  end.

Definition recency (rc : ResponseCache) : option (list string) :=
  walk (size (items rc)) (head rc) rc.

(** A Store or a Get, with the clock reading of the call. *)
Inductive Op :=
  | OpStore (k : string) (v : list byte) (now : Time)
  | OpGet (k : string) (now : Time).

Definition step (rc : ResponseCache) (o : Op) : option ResponseCache :=
  match o with
  | OpStore k v now => Store k v now rc
  | OpGet k now => snd <$> Get k now rc
  end.

Fixpoint run (ops : list Op) (rc : ResponseCache) : option ResponseCache :=
  match ops with
  | [] => Some rc
  | o :: ops => rc ← step rc o; run ops rc
  end.

(** The same with the periodic [cleanupExpired] of [Cleanup]: at each
    tick it runs under the mutex, between two other calls. *)
Inductive Action :=
  | ActStore (k : string) (v : list byte) (now : Time)
  | ActGet (k : string) (now : Time)
  | ActCleanup (now : Time).

Definition act (rc : ResponseCache) (a : Action) : option ResponseCache :=
  match a with
  | ActStore k v now => Store k v now rc
  | ActGet k now => snd <$> Get k now rc
  | ActCleanup now => cleanupExpired now rc
  end.

Fixpoint acts (l : list Action) (rc : ResponseCache) : option ResponseCache :=
  match l with
  | [] => Some rc
  | a :: l => rc ← act rc a; acts l rc
  end.

End Cache.

(** ** The application state (app.go) *)

Record Application := mkApp {
  Cache : Cache.ResponseCache;
  Registry : Reg.Registry;
  HealthMonitor : Health.HealthMonitor;
  CircuitBreaker : CB.CircuitBreakerManager;
  (** [Router.roundRobinIndex], the per-prefix round-robin counter *)
  roundRobinIndex : gmap string Z
}.

Definition set_Cache (c : Cache.ResponseCache) (app : Application) : Application :=
  mkApp c (Registry app) (HealthMonitor app) (CircuitBreaker app)
    (roundRobinIndex app).
Definition set_HealthMonitor (h : Health.HealthMonitor) (app : Application)
    : Application :=
  mkApp (Cache app) (Registry app) h (CircuitBreaker app) (roundRobinIndex app).
Definition set_CircuitBreaker (c : CB.CircuitBreakerManager) (app : Application)
    : Application :=
  mkApp (Cache app) (Registry app) (HealthMonitor app) c (roundRobinIndex app).
Definition set_roundRobinIndex (m : gmap string Z) (app : Application)
    : Application :=
  mkApp (Cache app) (Registry app) (HealthMonitor app) (CircuitBreaker app) m.

(** ** The router (package app) *)

Module Router.

Record BackendInfo := mkBackendInfo {
  Server : Reg.Server;
  TargetURL : string;
  Prefix : string
}.

Inductive ResolveResult :=
  | Resolved (b : BackendInfo)
  | no_route
  | no_healthy_backends
  (** [healthyServers[index]] with a negative [index]: a run-time panic *)
  | index_out_of_range.

(** [strings.TrimPrefix(s, prefix)]. *)
Definition TrimPrefix (s prefix : string) : string :=
  if Reg.HasPrefix s prefix then
    String.substring (String.length prefix) (String.length s - String.length prefix) s
  else s.

(** Step 2: the loop over the candidates.  [AllowRequest] is called for
    every candidate, healthy or not. *)
Definition eligible (now : Time) (hm : Health.HealthMonitor)
    (candidates : list Reg.Server) (cbm : CB.CircuitBreakerManager)
    : list Reg.Server * CB.CircuitBreakerManager :=
  foldl (fun '(healthyServers, cbm) server =>
           let isHealthy := Health.IsHealthy (Reg.Name server) hm in
           let '(allowedByBreaker, cbm) :=
             CB.AllowRequest (Reg.Name server) now cbm in
           (if isHealthy && allowedByBreaker then healthyServers ++ [server]
            else healthyServers, cbm))
        ([], cbm) candidates.

(** [ResolveBackend(requestPath)] when the clock reads [now]; [order1]
    and [order2] are the orders of the two loops of [ServersForPath]
    over the registry table. *)
Definition ResolveBackend (order1 order2 : list Reg.Server) (now : Time)
    (requestPath : string) (app : Application) : ResolveResult * Application :=
  let '(prefix, candidates, found) :=
    Reg.ServersForPath order1 order2 requestPath in
  if String.eqb prefix EmptyString || negb found
     || (Z.of_nat (length candidates) =? 0)
  then (no_route, app)
  else
    let '(healthyServers, cbm) :=
      eligible now (HealthMonitor app) candidates (CircuitBreaker app) in
    let app := set_CircuitBreaker cbm app in
    if Z.of_nat (length healthyServers) =? 0 then (no_healthy_backends, app)
    else
      let counter := default 0 (roundRobinIndex app !! prefix) in
      let index := Z.rem counter (Z.of_nat (length healthyServers)) in
      let app :=
        set_roundRobinIndex
          (<[prefix := wrap_int (counter + 1)]> (roundRobinIndex app)) app in
      if index <? 0 then (index_out_of_range, app)
      else
        match healthyServers !! Z.to_nat index with
        | None => (index_out_of_range, app)
        | Some chosen =>
            let trimmedPath := TrimPrefix requestPath prefix in
            (Resolved (mkBackendInfo chosen
                         (Reg.BaseURL chosen +:+ trimmedPath) prefix), app)
        end.

(** The router before the resilient one: [findMatchingRoute(path)];
    [order] is the order of the loop of [ListRegistered]. *)
Definition findMatchingRoute (order : list Reg.Server) (path : string)
    : string * string * bool :=
  let '(longestPrefix, matchedURL) :=
    foldl (fun acc server =>
             foldl (fun '(longestPrefix, matchedURL) prefix =>
                      if Reg.HasPrefix path prefix
                         && (Reg.len longestPrefix <? Reg.len prefix)
                      then (prefix, Reg.BaseURL server)
                      else (longestPrefix, matchedURL))
                   acc (Reg.Prefixes server))
          (EmptyString, EmptyString) (Reg.ListRegistered order) in
  if negb (String.eqb longestPrefix EmptyString)
  then (longestPrefix, matchedURL, true)
  else (EmptyString, EmptyString, false).

(** [determineBackendURL(requestPath)]; [None] is the error. *)
Definition determineBackendURL (order : list Reg.Server) (requestPath : string)
    : option string :=
  let '(prefix, baseURL, ok) := findMatchingRoute order requestPath in
  if negb ok then None
  else Some (baseURL +:+ TrimPrefix requestPath prefix).

(** Successive resolutions of one path, at the clock readings [nows];
    the loops over the registry table take the same orders each time. *)
Fixpoint resolutions (order1 order2 : list Reg.Server) (nows : list Time)
    (requestPath : string) (app : Application)
    : list ResolveResult * Application :=
  match nows with
  | [] => ([], app)
  | now :: nows =>
      let '(result, app) := ResolveBackend order1 order2 now requestPath app in
      let '(results, app) := resolutions order1 order2 nows requestPath app in
      (result :: results, app)
  end.

(** Every round-robin counter is non-negative. *)
Definition counters_nonneg (app : Application) : Prop :=
  map_Forall (fun _ n => 0 <= n) (roundRobinIndex app).


End Router.

(** ** handlers.go *)

Module Handlers.

(** A response of a backend as the handler uses it: the status, the
    headers, and what [io.ReadAll(resp.Body)] gives ([None]: an error). *)
Record Response := mkResponse {
  StatusCode : Z;
  Header : gmap string (list string);
  Body : option (list byte)
}.

(** What [app.Client.Do] returns at one attempt. *)
Inductive DoResult := DoError | DoResponse (resp : Response).

(** The outside world of one [performRequest]: whether
    [http.NewRequest] accepts the method and URL, and the outcome of
    [app.Client.Do] at each attempt. *)
Record Transport := mkTransport {
  NewRequest_ok : bool;
  Do : Z -> DoResult
}.

Definition maxRetries : Z := 3.

(** The loop of [performRequest] from [attempt] on, with [remaining]
    iterations left before [attempt <= maxRetries] fails; [last] is the
    current [(resp, err)].  The back-off sleeps do not change the state.
    [None] is a returned error. *)
Fixpoint attempts (tr : Transport) (remaining : nat) (attempt : Z)
    (last : option Response) : option Response :=
  match remaining with
  | O => last
  | S remaining =>
      if negb (NewRequest_ok tr) then None
      else
        match Do tr attempt with
        | DoError =>
            if attempt <? maxRetries
            then attempts tr remaining (wrap_int (attempt + 1)) None
            else None
        | DoResponse resp =>
            if (500 <=? StatusCode resp) && (StatusCode resp <=? 504)
               && (attempt <? maxRetries)
            then attempts tr remaining (wrap_int (attempt + 1)) (Some resp)
            else Some resp
        end
  end.

Definition performRequest (tr : Transport) : option Response :=
  attempts tr (Z.to_nat maxRetries) 1 None.

Definition StatusOK : Z := 200.
Definition StatusServiceUnavailable : Z := 503.
Definition StatusInternalServerError : Z := 500.

(** What the handler wrote to the [http.ResponseWriter]. *)
Inductive Reply :=
  | ReplyError (msg : string) (code : Z)
  | ReplyBody (code : Z) (header : gmap string (list string)) (body : list byte).

(** The outside world of one [HandleGetRequest]: the clock readings of
    the calls that read the clock, the orders of the two loops over the
    registry table, and the network. *)
Record Env := mkEnv {
  now_Get : Time;
  now_Resolve : Time;
  now_OnFailure : Time;
  now_Store : Time;
  order1 : list Reg.Server;
  order2 : list Reg.Server;
  transport : Transport
}.

(** [HandleGetRequest(w, r)] with [r.URL.Path = path]; [None] when a
    cache method panics. *)
Definition HandleGetRequest (env : Env) (path : string) (app : Application)
    : option (Reply * Application) :=
  '(cached, rc) ← Cache.Get path (now_Get env) (Cache app);
  let app := set_Cache rc app in
  match cached with
  | Some cachedResp => Some (ReplyBody StatusOK ∅ cachedResp, app)
  | None =>
      let '(res, app) :=
        Router.ResolveBackend (order1 env) (order2 env) (now_Resolve env) path app in
      match res with
      | Router.index_out_of_range => None
      | Router.no_route | Router.no_healthy_backends =>
          Some (ReplyError "Service Unavailable" StatusServiceUnavailable, app)
      | Router.Resolved backend =>
          let name := Reg.Name (Router.Server backend) in
          match performRequest (transport env) with
          | None =>
              let app :=
                set_CircuitBreaker
                  (CB.OnFailure name (now_OnFailure env) (CircuitBreaker app)) app in
              Some (ReplyError "Service Unavailable" StatusServiceUnavailable, app)
          | Some resp =>
              let cbm :=
                if (500 <=? StatusCode resp) && (StatusCode resp <=? 599)
                then CB.OnFailure name (now_OnFailure env) (CircuitBreaker app)
                else CB.OnSuccess name (CircuitBreaker app) in
              let cbm := CB.OnRequestComplete name cbm in
              let app := set_CircuitBreaker cbm app in
              match Body resp with
              | None =>
                  Some (ReplyError "Failed to read response"
                          StatusInternalServerError, app)
              | Some bodyBytes =>
                  let reply := ReplyBody (StatusCode resp) (Header resp) bodyBytes in
                  if StatusCode resp =? StatusOK then
                    rc ← Cache.Store path bodyBytes (now_Store env) (Cache app);
                    Some (reply, set_Cache rc app)
                  else Some (reply, app)
              end
          end
      end
  end.

Definition StatusBadRequest : Z := 400.
Definition StatusMethodNotAllowed : Z := 405.

(** [HandlePostRequest(w, r)] with [r.URL.Path = path]; [None] when the
    router panics.  [requestBody] is what [io.ReadAll(r.Body)] gives
    ([None]: an error).  [io.Copy(w, resp.Body)] writes the whole body
    of the response, or, when reading it fails, the bytes [copied] that
    it had written before the error, which is only logged. *)
Definition HandlePostRequest (env : Env) (path : string)
    (requestBody : option (list byte)) (copied : list byte)
    (app : Application) : option (Reply * Application) :=
  let '(res, app) :=
    Router.ResolveBackend (order1 env) (order2 env) (now_Resolve env) path app in
  match res with
  | Router.index_out_of_range => None
  | Router.no_route | Router.no_healthy_backends =>
      Some (ReplyError "Service Unavailable" StatusServiceUnavailable, app)
  | Router.Resolved backend =>
      let name := Reg.Name (Router.Server backend) in
      match requestBody with
      | None => Some (ReplyError "invalid request body" StatusBadRequest, app)
      | Some _ =>
          match performRequest (transport env) with
          | None =>
              let app :=
                set_CircuitBreaker
                  (CB.OnFailure name (now_OnFailure env) (CircuitBreaker app)) app in
              Some (ReplyError "Service Unavailable" StatusServiceUnavailable, app)
          | Some resp =>
              let cbm :=
                if (500 <=? StatusCode resp) && (StatusCode resp <=? 599)
                then CB.OnFailure name (now_OnFailure env) (CircuitBreaker app)
                else CB.OnSuccess name (CircuitBreaker app) in
              let cbm := CB.OnRequestComplete name cbm in
              let app := set_CircuitBreaker cbm app in
              Some (ReplyBody (StatusCode resp) (Header resp)
                      (default copied (Body resp)), app)
          end
      end
  end.

(** [r.Method], as [reverseProxyHandler] distinguishes it. *)
Inductive Method := MethodGet | MethodPost | MethodOther (name : string).

Definition reverseProxyHandler (method : Method) (env : Env) (path : string)
    (requestBody : option (list byte)) (copied : list byte)
    (app : Application) : option (Reply * Application) :=
  match method with
  | MethodGet => HandleGetRequest env path app
  | MethodPost => HandlePostRequest env path requestBody copied app
  | MethodOther _ =>
      Some (ReplyError "unsupported http method" StatusMethodNotAllowed, app)
  end.

(** An attempt that [performRequest] repeats when it is not the last:
    a transport error, or a status from 500 to 504. *)
Definition retried (r : DoResult) : bool :=
  match r with
  | DoError => true
  | DoResponse resp => (500 <=? StatusCode resp) && (StatusCode resp <=? 504)
  end.

(** What an attempt gives when it is the one returned. *)
Definition outcome (r : DoResult) : option Response :=
  match r with
  | DoError => None
  | DoResponse resp => Some resp
  end.

(** Successive POST requests for one path, each with its own outside
    world. *)
Fixpoint posts (envs : list Env) (path : string)
    (requestBody : option (list byte)) (copied : list byte)
    (app : Application) : option (list Reply * Application) :=
  match envs with
  | [] => Some ([], app)
  | env :: envs =>
      '(reply, app) ← HandlePostRequest env path requestBody copied app;
      '(replies, app) ← posts envs path requestBody copied app;
      Some (reply :: replies, app)
  end.

(** In the world [env] the registry routes [path] to the single
    candidate [s]. *)
Definition single_candidate (path : string) (s : Reg.Server) (env : Env) : Prop :=
  let res := Reg.ServersForPath (order1 env) (order2 env) path in
  res.1.1 ≠ EmptyString /\ res.1.2 = [s].

(** The backend fails: the request gives an error, or a response with
    a status from 500 to 599. *)
Definition backend_fails (tr : Transport) : Prop :=
  match performRequest tr with
  | None => True
  | Some resp => 500 <= StatusCode resp <= 599
  end.

(** The reply tells the client of a failure: 503 from the proxy, or the
    5xx response of the backend. *)
Definition failure_reply (reply : Reply) : Prop :=
  match reply with
  | ReplyError _ code => code = StatusServiceUnavailable
  | ReplyBody code _ _ => 500 <= code <= 599
  end.

End Handlers.

(** ** The recency list behind the pointers of cache.go

    The store of nodes, [head], [tail] and [items] of a well-formed
    cache describe one list of entries, most recently used first.
    [Rep rc es] says that [rc] describes [es]; the functions [AGet] and
    [AStore] are what [Get] and [Store] do to that list
    ([Get_refines], [Store_refines] below). *)

Module CacheModel.
Import Cache.

Record Entry := mkEntry {
  e_key : string;
  e_value : list byte;
  e_size : Z;
  e_expires : Time
}.

(** The cost of an entry, without wrap-around. *)
Definition cost (k : string) (v : list byte) : Z :=
  len_string k + len_bytes v + nodeOverhead.

Definition total (es : list Entry) : Z := foldr (fun e acc => e_size e + acc) 0 es.

Definition keys (es : list Entry) : list string := e_key <$> es.

Definition find_key (k : string) (es : list Entry) : option Entry :=
  find (fun e => String.eqb (e_key e) k) es.

Definition remove_key (k : string) (es : list Entry) : list Entry :=
  filter (fun e => e_key e ≠ k) es.

(** The eviction loop on the list: drop the last entry while the total
    is over the budget. *)
Fixpoint aevict_loop (fuel : nat) (maxBytes : Z) (es : list Entry) : list Entry :=
  match fuel with
  | O => es
  | S fuel =>
      if (maxBytes <? total es) && bool_decide (es ≠ [])
      then aevict_loop fuel maxBytes (removelast es)
      else es
  end.

Definition aevict (maxBytes : Z) (es : list Entry) : list Entry :=
  aevict_loop (length es) maxBytes es.

Definition AGet (k : string) (now : Time) (es : list Entry)
    : option (list byte) * list Entry :=
  match find_key k es with
  | None => (None, es)
  | Some e =>
      if After now (e_expires e) then (None, remove_key k es)
      else (Some (e_value e), e :: remove_key k es)
  end.

(** The entry made by a Store at [now]. *)
Definition stored (k : string) (v : list byte) (now : Time) (ttl : Duration)
    : Entry :=
  mkEntry k v (cost k v) (now + ttl).

Definition AStore (k : string) (v : list byte) (now : Time) (ttl : Duration)
    (maxBytes : Z) (es : list Entry) : list Entry :=
  aevict maxBytes (stored k v now ttl :: remove_key k es).

(** A node of the store holding entry [e] between the neighbours [p]
    and [n]. *)
Definition node_of (e : Entry) (p n : option loc) : Node :=
  mkNode (e_key e) (e_value e) (e_size e) (e_expires e) p n.

(** The entry held by a node. *)
Definition entry_of (n : Node) : Entry :=
  mkEntry (key n) (value n) (sizeBytes n) (expiresAt n).

(** A cell: an entry and the address of its node. *)
Definition first_loc (cs : list (loc * Entry)) (dflt : option loc) : option loc :=
  match cs with
  | [] => dflt
  | c :: _ => Some c.1
  end.

Definition last_loc (cs : list (loc * Entry)) (dflt : option loc) : option loc :=
  match last cs with
  | None => dflt
  | Some c => Some c.1
  end.

(** The cells [cs] are chained in the store [h], in this order, between
    the pointers [p] (the [prev] of the first) and [nx] (the [next] of
    the last). *)
Fixpoint linked (h : gmap loc Node) (p : option loc) (cs : list (loc * Entry))
    (nx : option loc) : Prop :=
  match cs with
  | [] => True
  | c :: cs' =>
      h !! c.1 = Some (node_of c.2 p (first_loc cs' nx)) /\
      linked h (Some c.1) cs' nx
  end.

(** The doubly linked list of [rc] is [cs], from [head] to [tail]. *)
Definition List (rc : ResponseCache) (cs : list (loc * Entry)) : Prop :=
  linked (nodes rc) None cs None /\
  head rc = first_loc cs None /\
  tail rc = last_loc cs None /\
  NoDup cs.*1.

(** The hash index of the cells. *)
Definition index (cs : list (loc * Entry)) : list (string * loc) :=
  (fun c => (e_key c.2, c.1)) <$> cs.

(** The size recorded in an entry is its cost. *)
Definition sized (e : Entry) : Prop := e_size e = cost (e_key e) (e_value e).

Definition Rep (rc : ResponseCache) (es : list Entry) : Prop :=
  exists cs,
    cs.*2 = es /\
    List rc cs /\
    items rc = list_to_map (index cs) /\
    NoDup (keys es) /\
    usedBytes rc = total es /\
    Forall sized es /\
    total es <= max_int.

(** [Rep] with the cells named: [Rep rc es] is [Cells rc cs] for some
    [cs] with entries [es]. *)
Definition Cells (rc : ResponseCache) (cs : list (loc * Entry)) : Prop :=
  List rc cs /\
  items rc = list_to_map (index cs) /\
  NoDup (keys cs.*2) /\
  usedBytes rc = total cs.*2 /\
  Forall sized cs.*2 /\
  total cs.*2 <= max_int.

(** The entries that have not expired when the clock reads [now]. *)
Definition ACleanup (now : Time) (es : list Entry) : list Entry :=
  filter (fun e => After now (e_expires e) = false) es.

(** A cache of two entries: [B], read last, at the head, and [A] at the
    tail; [A] expires at 10 and [B] at 15. *)
Definition entry_A : Entry := mkEntry "A" (replicate 35 Byte.x00) 100 10.
Definition entry_B : Entry := mkEntry "B" (replicate 35 Byte.x00) 100 15.
Definition cache_BA : ResponseCache :=
  mkRC (<["B" := 2%positive]> (<["A" := 1%positive]> ∅))
    (Some 2%positive) (Some 1%positive) 1000 200 10
    (<[1%positive := node_of entry_A (Some 2%positive) None]>
       (<[2%positive := node_of entry_B None (Some 1%positive)]> ∅)).

(** [rc'] differs from [rc] in the pointers only. *)
Definition same_frame (rc rc' : ResponseCache) : Prop :=
  items rc' = items rc /\ usedBytes rc' = usedBytes rc /\
  maxBytes rc' = maxBytes rc /\ ttl rc' = ttl rc /\
  dom (nodes rc') = dom (nodes rc).

(** The sum of the costs of the entries of the hash index. *)
Definition entryCost (rc : ResponseCache) (kl : string * loc) : Z :=
  match nodes rc !! kl.2 with
  | Some n => len_string (key n) + len_bytes (value n) + nodeOverhead
  | None => 0
  end.

Definition liveCost (rc : ResponseCache) : Z :=
  foldr (fun kl acc => entryCost rc kl + acc) 0 (map_to_list (items rc)).

(** The same for a sequence with cleanups. *)
Definition fitting (maxBytes : Z) (a : Action) : Prop :=
  match a with
  | ActStore k v _ => maxBytes + cost k v <= max_int
  | _ => True
  end.

(** Every Store of the sequence has a cost that fits above the budget
    in an [int]. *)
Definition fits (maxBytes : Z) (o : Op) : Prop :=
  match o with
  | OpStore k v _ => maxBytes + cost k v <= max_int
  | OpGet _ _ => True
  end.

End CacheModel.

(** ** Two backends under one prefix (the round-robin scenario) *)

Module Scenario.

Definition backend_a : Reg.Server :=
  Reg.mkServer "a" "http://localhost:4200" ["/api"] 0.
Definition backend_b : Reg.Server :=
  Reg.mkServer "b" "http://localhost:2200" ["/api"] 0.

Definition registry_ab : Reg.Registry :=
  Reg.mkRegistry (<["a" := backend_a]> (<["b" := backend_b]> ∅)).

(** Both backends have answered one probe. *)
Definition health_ab : Health.HealthMonitor :=
  Health.run [Health.mkProbe "a" true 1 0; Health.mkProbe "b" true 1 0]
    Health.NewHealthMonitor.

(** Then three probes of [b] fail. *)
Definition health_a_only : Health.HealthMonitor :=
  Health.run [Health.mkProbe "b" false 1 5; Health.mkProbe "b" false 1 10;
              Health.mkProbe "b" false 1 15] health_ab.

Definition app_ab : Application :=
  mkApp (Cache.NewResponseCache (30 * Second) (10 * 1024 * 1024)) registry_ab
    health_ab CB.NewCircuitBreakerManager ∅.

(** The backend chosen by a resolution, if any. *)
Definition chosen (r : Router.ResolveResult * Application) : option string :=
  match r.1 with
  | Router.Resolved b => Some (Reg.Name (Router.Server b))
  | _ => None
  end.

(** One server under [/s1]; it has answered one probe. *)
Definition backend_one : Reg.Server :=
  Reg.mkServer "one" "http://localhost:4200" ["/s1"] 0.

Definition app_one : Application :=
  mkApp (Cache.NewResponseCache (30 * Second) (10 * 1024 * 1024))
    (Reg.mkRegistry (<["one" := backend_one]> ∅))
    (Health.run [Health.mkProbe "one" true 1 0] Health.NewHealthMonitor)
    CB.NewCircuitBreakerManager ∅.

(** A network on which every attempt is answered with [status] and
    [body]. *)
Definition answers (status : Z) (body : list byte) : Handlers.Transport :=
  Handlers.mkTransport true
    (fun _ => Handlers.DoResponse (Handlers.mkResponse status ∅ (Some body))).

Definition env_at (t : Time) (status : Z) (body : list byte) : Handlers.Env :=
  Handlers.mkEnv t t t t [backend_one] [backend_one] (answers status body).

End Scenario.

(** * Properties *)

(** ** Machine integers *)

Lemma wrap_int_id (x : Z) : min_int <= x <= max_int -> wrap_int x = x.
Proof.
  unfold wrap_int, min_int, max_int. intros H.
  rewrite Z.mod_small by lia. lia.
Qed.

Lemma wrap_int_range (x : Z) : min_int <= wrap_int x <= max_int.
Proof.
  unfold wrap_int, min_int, max_int.
  pose proof (Z.mod_pos_bound (x + 2 ^ 63) (2 ^ 64)). lia.
Qed.

(** ** The circuit breaker *)

Module CBFacts.
Import CB.

Local Arguments write : simpl never.

Lemma lookup_write s b cbm : breakers (write s b cbm) !! s = Some b.
Proof. unfold write; simpl. apply lookup_insert_eq. Qed.

Lemma write_write s b b' cbm : write s b (write s b' cbm) = write s b cbm.
Proof. unfold write; simpl. by rewrite insert_insert_eq. Qed.

Lemma lookupOrCreate_Some s b cbm :
  breakers cbm !! s = Some b -> lookupOrCreate s cbm = (b, cbm).
Proof. intros H. unfold lookupOrCreate. by rewrite H. Qed.

Lemma lookupOrCreate_None s cbm :
  breakers cbm !! s = None ->
  lookupOrCreate s cbm = (newBreaker, write s newBreaker cbm).
Proof. intros H. unfold lookupOrCreate. by rewrite H. Qed.

(** Every method leaves the breakers of the other backends alone. *)
Local Ltac other_breaker :=
  unfold write; simpl; rewrite ?lookup_insert_ne by done; done.

Lemma call_other c cbm s :
  target c ≠ s -> breakers (call c cbm).2 !! s = breakers cbm !! s.
Proof.
  intros Hne. destruct c as [s' now|s'|s' now|s']; simpl in *.
  - unfold AllowRequest, lookupOrCreate.
    destruct (breakers cbm !! s') as [b|] eqn:E; [|other_breaker].
    destruct (State b); [done| |].
    + destruct (_ <=? _); other_breaker.
    + destruct (_ =? _); other_breaker.
  - unfold OnSuccess. destruct (breakers cbm !! s') as [b|] eqn:E; [|done].
    simpl. destruct (State b); other_breaker.
  - unfold OnFailure, lookupOrCreate.
    destruct (breakers cbm !! s') as [b|] eqn:E.
    + simpl. destruct (State b); simpl; [|other_breaker..].
      destruct (_ <=? _); other_breaker.
    + other_breaker.
  - unfold OnRequestComplete.
    destruct (breakers cbm !! s') as [b|] eqn:E; [|done].
    destruct (_ && _); other_breaker.
Qed.

(** One failure on a Closed breaker. *)
Lemma OnFailure_Closed s now cbm b :
  breakers cbm !! s = Some b -> State b = Closed ->
  OnFailure s now cbm =
    write s (if FailuresToOpen <=? wrap_int (Failures b + 1)
             then mkBreaker Open (wrap_int (Failures b + 1)) now (InFlight b)
             else mkBreaker Closed (wrap_int (Failures b + 1))
                    (LastOpenTime b) (InFlight b)) cbm.
Proof.
  intros Hb Hs. unfold OnFailure. rewrite (lookupOrCreate_Some _ _ _ Hb).
  destruct b as [st f t i]; simpl in *; subst st. simpl.
  by destruct (_ <=? _).
Qed.

(** A failure recorded for a backend without a breaker is a failure
    recorded on a just-created one. *)
Lemma OnFailure_absent s now cbm :
  breakers cbm !! s = None ->
  OnFailure s now cbm = OnFailure s now (write s newBreaker cbm).
Proof.
  intros Hn. unfold OnFailure.
  rewrite (lookupOrCreate_None _ _ Hn).
  by rewrite (lookupOrCreate_Some _ _ _ (lookup_write s newBreaker cbm)).
Qed.

(** Five consecutive failures on a Closed breaker with no failure
    counted open it at the fifth. *)
Lemma five_failures_Closed s t1 t2 t3 t4 t5 cbm b :
  breakers cbm !! s = Some b -> State b = Closed -> Failures b = 0 ->
  failures s [t1; t2; t3; t4; t5] cbm
    = write s (mkBreaker Open 5 t5 (InFlight b)) cbm.
Proof.
  intros Hb Hst Hf. unfold failures; simpl.
  destruct b as [st f t i]; simpl in *; subst st f.
  rewrite (OnFailure_Closed s t1 cbm _ Hb eq_refl).
  cbn [Failures InFlight LastOpenTime State];
    change (wrap_int (0 + 1)) with 1; change (FailuresToOpen <=? 1) with false; cbv iota.
  rewrite (OnFailure_Closed s t2 _ (mkBreaker Closed 1 t i)
             (lookup_write _ _ _) eq_refl).
  cbn [Failures InFlight LastOpenTime State];
    change (wrap_int (1 + 1)) with 2; change (FailuresToOpen <=? 2) with false; cbv iota.
  rewrite (OnFailure_Closed s t3 _ (mkBreaker Closed 2 t i)
             (lookup_write _ _ _) eq_refl).
  cbn [Failures InFlight LastOpenTime State];
    change (wrap_int (2 + 1)) with 3; change (FailuresToOpen <=? 3) with false; cbv iota.
  rewrite (OnFailure_Closed s t4 _ (mkBreaker Closed 3 t i)
             (lookup_write _ _ _) eq_refl).
  cbn [Failures InFlight LastOpenTime State];
    change (wrap_int (3 + 1)) with 4; change (FailuresToOpen <=? 4) with false; cbv iota.
  rewrite (OnFailure_Closed s t5 _ (mkBreaker Closed 4 t i)
             (lookup_write _ _ _) eq_refl).
  cbn [Failures InFlight LastOpenTime State];
    change (wrap_int (4 + 1)) with 5; change (FailuresToOpen <=? 5) with true; cbv iota.
  by rewrite !write_write.
Qed.

Lemma five_failures s t1 t2 t3 t4 t5 cbm :
  (breakers cbm !! s = None \/
   exists b, breakers cbm !! s = Some b /\ State b = Closed /\ Failures b = 0) ->
  exists i,
    failures s [t1; t2; t3; t4; t5] cbm = write s (mkBreaker Open 5 t5 i) cbm.
Proof.
  intros [Hn|(b & Hb & Hst & Hf)].
  - exists 0.
    assert (failures s [t1; t2; t3; t4; t5] cbm
            = failures s [t1; t2; t3; t4; t5] (write s newBreaker cbm)) as ->.
    { unfold failures; simpl. by rewrite (OnFailure_absent s t1 cbm Hn). }
    rewrite (five_failures_Closed s t1 t2 t3 t4 t5 _ newBreaker
               (lookup_write _ _ _) eq_refl eq_refl).
    apply write_write.
  - exists (InFlight b). by apply five_failures_Closed.
Qed.

(** [AllowRequest] on a HalfOpen breaker with a probe in flight. *)
Lemma AllowRequest_probe_in_flight s now cbm b :
  breakers cbm !! s = Some b -> State b = HalfOpen -> InFlight b ≠ 0 ->
  AllowRequest s now cbm = (false, cbm).
Proof.
  intros Hb Hst Hi. unfold AllowRequest.
  rewrite (lookupOrCreate_Some _ _ _ Hb), Hst.
  destruct (Z.eqb_spec (InFlight b) 0); [done|done].
Qed.

(** [AllowRequest] on a HalfOpen breaker with no probe in flight. *)
Lemma AllowRequest_probe_free s now cbm b :
  breakers cbm !! s = Some b -> State b = HalfOpen -> InFlight b = 0 ->
  AllowRequest s now cbm = (true, write s (set_InFlight 1 b) cbm).
Proof.
  intros Hb Hst Hi. unfold AllowRequest.
  rewrite (lookupOrCreate_Some _ _ _ Hb), Hst, Hi. done.
Qed.

(** C1 (as the code behaves).  Starting from a breaker that is absent or
    Closed with failure count 0, five consecutive OnFailure calls open
    it; while Open, an AllowRequest before the 30 s cooldown has elapsed
    returns false and changes nothing; the first AllowRequest once the
    cooldown has elapsed returns true and moves the breaker to HalfOpen,
    but leaves the in-flight counter at 0 (not 1): the admitted call is
    not counted, and a second AllowRequest is admitted as well. *)
Theorem C1_open_cooldown_half_open
    (cbm : CircuitBreakerManager) (s : string) (t1 t2 t3 t4 t5 : Time) :
  (breakers cbm !! s = None \/
   exists b, breakers cbm !! s = Some b /\ State b = Closed /\ Failures b = 0) ->
  let opened := failures s [t1; t2; t3; t4; t5] cbm in
  GetBreakerState s opened = Open /\
  (forall now, Since now t5 < OpenCooldown ->
     AllowRequest s now opened = (false, opened)) /\
  (forall now, OpenCooldown <= Since now t5 ->
     exists probing b,
       AllowRequest s now opened = (true, probing) /\
       breakers probing !! s = Some b /\
       State b = HalfOpen /\ InFlight b = 0 /\
       forall now', (AllowRequest s now' probing).1 = true).
Proof.
  intros H opened. subst opened.
  destruct (five_failures s t1 t2 t3 t4 t5 cbm H) as [i ->].
  pose proof (lookup_write s (mkBreaker Open 5 t5 i) cbm) as Hb.
  split_and!.
  - unfold GetBreakerState. by rewrite Hb.
  - intros now Hnow. unfold AllowRequest.
    rewrite (lookupOrCreate_Some _ _ _ Hb). simpl.
    destruct (Z.leb_spec OpenCooldown (Since now t5)); [lia|done].
  - intros now Hnow.
    exists (write s (mkBreaker HalfOpen 5 t5 0) cbm), (mkBreaker HalfOpen 5 t5 0).
    split_and!; try done.
    + unfold AllowRequest. rewrite (lookupOrCreate_Some _ _ _ Hb). simpl.
      destruct (Z.leb_spec OpenCooldown (Since now t5)); [|lia].
      unfold set_InFlight, set_State; simpl. by rewrite write_write.
    + apply lookup_write.
    + intros now'.
      by rewrite (AllowRequest_probe_free s now' _ (mkBreaker HalfOpen 5 t5 0)
                    (lookup_write _ _ _) eq_refl eq_refl).
Qed.

Lemma C1_open_cooldown_half_open_witness :
  let s := "s1" in
  let opened := failures s [1; 2; 3; 4; 5] NewCircuitBreakerManager in
  GetBreakerState s opened = Open /\
  AllowRequest s (5 + 29 * Second) opened = (false, opened) /\
  exists probing b,
    AllowRequest s (5 + 30 * Second) opened = (true, probing) /\
    breakers probing !! s = Some b /\ State b = HalfOpen /\ InFlight b = 0 /\
    (AllowRequest s (5 + 30 * Second) probing).1 = true.
Proof.
  destruct (C1_open_cooldown_half_open NewCircuitBreakerManager "s1" 1 2 3 4 5)
    as (H1 & H2 & H3).
  { left. reflexivity. }
  split; [exact H1|]. split.
  - apply H2. vm_compute. reflexivity.
  - destruct (H3 (5 + 30 * Second)) as (p & b & Ha & Hb & Hs & Hi & Hn).
    { vm_compute. discriminate. }
    exists p, b. repeat split; try assumption. apply Hn.
Defined.

(** C4.  While a breaker is HalfOpen with one probe in flight, every
    AllowRequest for that backend returns false and changes nothing,
    whatever is called for other backends in between (a call sequence
    in which the backend itself only receives AllowRequest: OnSuccess
    and OnFailure leave HalfOpen); after OnRequestComplete the in-flight
    counter is 0 and the next AllowRequest is admitted.
    OnRequestComplete decrements a positive in-flight counter of a
    HalfOpen breaker by one and changes no other counter, so it never
    drives the counter below 0. *)
Theorem C4_half_open_one_probe
    (cbm : CircuitBreakerManager) (s : string) (b : Breaker) :
  breakers cbm !! s = Some b -> State b = HalfOpen -> InFlight b = 1 ->
  (forall cs,
     Forall (fun c => target c = s -> is_AllowRequest c = true) cs ->
     breakers (calls cs cbm).2 !! s = Some b /\
     Forall2 (fun c r => target c = s -> r = Some false) cs (calls cs cbm).1) /\
  (exists b',
     breakers (OnRequestComplete s cbm) !! s = Some b' /\
     State b' = HalfOpen /\ InFlight b' = 0 /\
     forall now, (AllowRequest s now (OnRequestComplete s cbm)).1 = true) /\
  (forall cbm0 s0 b0,
     breakers cbm0 !! s0 = Some b0 -> 0 <= InFlight b0 <= max_int ->
     exists b1,
       breakers (OnRequestComplete s0 cbm0) !! s0 = Some b1 /\
       0 <= InFlight b1 /\
       InFlight b1 =
         if bool_decide (State b0 = HalfOpen) && (0 <? InFlight b0)
         then InFlight b0 - 1 else InFlight b0).
Proof.
  intros Hb Hst Hi. split_and!.
  - intros cs. revert cbm Hb.
    induction cs as [|c cs IH]; intros cbm Hb Hcs; [by split|].
    apply Forall_cons in Hcs as [Hc Hcs]. simpl.
    destruct (decide (target c = s)) as [Heq|Hne].
    + specialize (Hc Heq). destruct c as [s' now| | |]; try discriminate.
      simpl in Heq; subst s'. simpl.
      rewrite (AllowRequest_probe_in_flight s now cbm b Hb Hst) by lia.
      destruct (IH cbm Hb Hcs) as [IH1 IH2].
      destruct (calls cs cbm) as [rs cbm']; simpl in *.
      split; [done|]. by constructor.
    + pose proof (call_other c cbm s Hne) as Ho.
      destruct (call c cbm) as [r cbm1]; simpl in *.
      rewrite <- Ho in Hb. destruct (IH cbm1 Hb Hcs) as [IH1 IH2].
      destruct (calls cs cbm1) as [rs cbm']; simpl in *.
      split; [done|]. by constructor.
  - exists (set_InFlight 0 b).
    assert (OnRequestComplete s cbm = write s (set_InFlight 0 b) cbm) as ->.
    { unfold OnRequestComplete. rewrite Hb, Hst, Hi. done. }
    split_and!; try done.
    + apply lookup_write.
    + intros now.
      by rewrite (AllowRequest_probe_free s now _ (set_InFlight 0 b)
                    (lookup_write _ _ _) Hst eq_refl).
  - intros cbm0 s0 b0 Hb0 Hr. unfold OnRequestComplete. rewrite Hb0.
    destruct (bool_decide (State b0 = HalfOpen) && (0 <? InFlight b0)) eqn:E.
    + apply andb_true_iff in E as [_ E]. apply Z.ltb_lt in E.
      eexists. split; [apply lookup_write|]. simpl.
      rewrite wrap_int_id by (unfold min_int, max_int in *; lia). lia.
    + exists b0. split; [done|]. lia.
Qed.

Lemma C4_half_open_one_probe_witness :
  let b := mkBreaker HalfOpen 5 0 1 in
  let cbm := write "s1" b NewCircuitBreakerManager in
  let cs := [CallAllowRequest "s1" 7; CallOnFailure "s2" 8;
             CallAllowRequest "s1" 9] in
  breakers (calls cs cbm).2 !! "s1" = Some b /\
  Forall2 (fun c r => target c = "s1" -> r = Some false) cs (calls cs cbm).1 /\
  (AllowRequest "s1" 10 (OnRequestComplete "s1" cbm)).1 = true.
Proof.
  destruct (C4_half_open_one_probe
              (write "s1" (mkBreaker HalfOpen 5 0 1) NewCircuitBreakerManager)
              "s1" (mkBreaker HalfOpen 5 0 1))
    as (H1 & (b' & _ & _ & _ & H2) & _); [reflexivity..|].
  destruct (H1 [CallAllowRequest "s1" 7; CallOnFailure "s2" 8;
                CallAllowRequest "s1" 9]) as [Ha Hb].
  { repeat constructor; simpl; intros; try reflexivity; discriminate. }
  split; [exact Ha|]. split; [exact Hb|apply H2].
Defined.

(** *** Further properties of the breaker table *)

Lemma history_snoc ms m cbm : history (ms ++ [m]) cbm = invoke (history ms cbm) m.
Proof. unfold history. by rewrite foldl_app. Qed.

(** What one method does to the breaker of its receiver, as a function
    of the breaker found ([None]: no breaker) and of the result. *)
Lemma invoke_other m cbm s :
  receiver m ≠ s -> breakers (invoke cbm m) !! s = breakers cbm !! s.
Proof.
  intros Hne. destruct m as [s' now|s'|s' now|s'|s'|s']; simpl in *.
  - pose proof (call_other (CallAllowRequest s' now) cbm s Hne) as H.
    simpl in H. by destruct (AllowRequest s' now cbm).
  - apply (call_other (CallOnSuccess s') cbm s Hne).
  - apply (call_other (CallOnFailure s' now) cbm s Hne).
  - apply (call_other (CallOnRequestComplete s') cbm s Hne).
  - unfold ResetBreaker. destruct (breakers cbm !! s'); [|done].
    unfold write; simpl. by rewrite lookup_insert_ne.
  - unfold RemoveBreaker; simpl. by rewrite lookup_delete_ne.
Qed.


Local Ltac looked H :=
  first [rewrite lookup_write in H | rewrite lookup_insert_eq in H].

Lemma invoke_probe_counted m cbm :
  (forall s b, breakers cbm !! s = Some b -> probe_counted b) ->
  forall s b, breakers (invoke cbm m) !! s = Some b -> probe_counted b.
Proof.
  intros Hinv s b Hb.
  destruct (decide (receiver m = s)) as [Heq|Hne].
  2:{ rewrite invoke_other in Hb by done. eauto. }
  unfold probe_counted in *.
  destruct m as [s' now|s'|s' now|s'|s'|s']; simpl in Heq; subst s'; simpl in Hb.
  - unfold AllowRequest, lookupOrCreate in Hb.
    destruct (breakers cbm !! s) as [b0|] eqn:E.
    + specialize (Hinv s b0 E). destruct b0 as [st f t i]; simpl in *.
      destruct st; simpl in Hb.
      * rewrite E in Hb. injection Hb as <-. done.
      * destruct (_ <=? _); simpl in Hb.
        -- looked Hb. injection Hb as <-. by left.
        -- rewrite E in Hb. injection Hb as <-. done.
      * destruct (Z.eqb_spec i 0) as [->|]; simpl in Hb.
        -- looked Hb. injection Hb as <-. right. done.
        -- rewrite E in Hb. injection Hb as <-. done.
    + simpl in Hb. looked Hb. injection Hb as <-. by left.
  - unfold OnSuccess in Hb. destruct (breakers cbm !! s) as [b0|] eqn:E.
    + specialize (Hinv s b0 E). destruct b0 as [st f t i]; simpl in *.
      destruct st; simpl in Hb; looked Hb;
        injection Hb as <-; simpl; [|naive_solver|by left].
      destruct Hinv as [->|[_ ?]]; [by left|done].
    + rewrite E in Hb. done.
  - unfold OnFailure, lookupOrCreate in Hb.
    destruct (breakers cbm !! s) as [b0|] eqn:E.
    + specialize (Hinv s b0 E). destruct b0 as [st f t i]; simpl in *.
      destruct st; simpl in Hb.
      * destruct (_ <=? _); looked Hb; injection Hb as <-;
          simpl; (destruct Hinv as [->|[_ ?]]; [by left|done]).
      * looked Hb. injection Hb as <-. simpl.
        destruct Hinv as [->|[_ ?]]; [by left|done].
      * looked Hb. injection Hb as <-. by left.
    + simpl in Hb. change (FailuresToOpen <=? wrap_int (0 + 1)) with false in Hb.
      looked Hb. injection Hb as <-. by left.
  - unfold OnRequestComplete in Hb.
    destruct (breakers cbm !! s) as [b0|] eqn:E; [|by rewrite E in Hb].
    specialize (Hinv s b0 E).
    destruct (bool_decide (State b0 = HalfOpen) && (0 <? InFlight b0)) eqn:Hc.
    + looked Hb. injection Hb as <-. simpl.
      apply andb_true_iff in Hc as [_ Hc]. apply Z.ltb_lt in Hc.
      destruct Hinv as [Hi|[Hi _]]; [lia|]. rewrite Hi. by left.
    + rewrite E in Hb. injection Hb as <-. done.
  - unfold ResetBreaker in Hb.
    destruct (breakers cbm !! s) as [b0|] eqn:E; [|by rewrite E in Hb].
    looked Hb. injection Hb as <-. by left.
  - unfold RemoveBreaker in Hb. simpl in Hb. by rewrite lookup_delete_eq in Hb.
Qed.

(** X1.  Whatever methods were called on a new manager, in whatever
    order and for whatever backends, the in-flight counter of every
    breaker is 0 or 1, and it is 1 only while the breaker is HalfOpen. *)
Theorem X1_in_flight_only_in_half_open (ms : list Method) (s : string)
    (b : Breaker) :
  breakers (history ms NewCircuitBreakerManager) !! s = Some b ->
  (InFlight b = 0 \/ InFlight b = 1) /\
  (State b ≠ HalfOpen -> InFlight b = 0).
Proof.
  intros Hb.
  assert (probe_counted b) as [H|[H1 H2]].
  { revert s b Hb. induction ms as [|m ms IH] using rev_ind; intros s b Hb.
    - done.
    - rewrite history_snoc in Hb. by apply (invoke_probe_counted m _ IH s b). }
  - split; [by left|done].
  - split; [by right|done].
Qed.

Lemma X1_in_flight_only_in_half_open_witness :
  let ms := [DoOnFailure "s1" 1; DoOnFailure "s1" 2; DoOnFailure "s1" 3;
             DoOnFailure "s1" 4; DoOnFailure "s1" 5;
             DoAllowRequest "s1" (5 + 30 * Second);
             DoAllowRequest "s1" (6 + 30 * Second)] in
  let b := mkBreaker HalfOpen 5 5 1 in
  breakers (history ms NewCircuitBreakerManager) !! "s1" = Some b /\
  (InFlight b = 0 \/ InFlight b = 1) /\ (State b ≠ HalfOpen -> InFlight b = 0).
Proof.
  assert (H : breakers
                (history
                   [DoOnFailure "s1" 1; DoOnFailure "s1" 2; DoOnFailure "s1" 3;
                    DoOnFailure "s1" 4; DoOnFailure "s1" 5;
                    DoAllowRequest "s1" (5 + 30 * Second);
                    DoAllowRequest "s1" (6 + 30 * Second)]
                   NewCircuitBreakerManager) !! "s1"
              = Some (mkBreaker HalfOpen 5 5 1)) by (vm_compute; reflexivity).
  split; [exact H|]. exact (X1_in_flight_only_in_half_open _ _ _ H).
Defined.

(** Fewer failures than the threshold keep a Closed breaker Closed. *)
Lemma failures_below_threshold s ts cbm b :
  breakers cbm !! s = Some b -> State b = Closed ->
  0 <= Failures b -> Failures b + Z.of_nat (length ts) < FailuresToOpen ->
  exists t,
    breakers (failures s ts cbm) !! s
      = Some (mkBreaker Closed (Failures b + Z.of_nat (length ts)) t (InFlight b)).
Proof.
  revert cbm b. induction ts as [|t0 ts IH]; intros cbm b Hb Hst H0 Hlt.
  - exists (LastOpenTime b). simpl. rewrite Hb. destruct b; simpl in *.
    subst. do 2 f_equal. lia.
  - unfold failures in *. simpl foldl.
    rewrite (OnFailure_Closed s t0 cbm b Hb Hst).
    simpl length in Hlt. unfold FailuresToOpen in *.
    rewrite wrap_int_id by (unfold min_int, max_int; lia).
    destruct (Z.leb_spec 5 (Failures b + 1)); [lia|].
    destruct (IH (write s (mkBreaker Closed (Failures b + 1) (LastOpenTime b)
                             (InFlight b)) cbm)
                 (mkBreaker Closed (Failures b + 1) (LastOpenTime b) (InFlight b)))
      as [t Ht]; simpl; [apply lookup_write|done|lia|lia|].
    exists t. rewrite Ht. simpl. do 2 f_equal. lia.
Qed.

Lemma AllowRequest_Closed s now cbm b :
  breakers cbm !! s = Some b -> State b = Closed ->
  AllowRequest s now cbm = (true, cbm).
Proof.
  intros Hb Hst. unfold AllowRequest.
  by rewrite (lookupOrCreate_Some _ _ _ Hb), Hst.
Qed.

(** X2.  Only consecutive failures open a Closed breaker: after an
    OnSuccess, whatever the count was, up to four further failures
    leave the breaker Closed and every AllowRequest admitted. *)
Theorem X2_success_resets_failure_count (cbm : CircuitBreakerManager)
    (s : string) (b : Breaker) (ts : list Time) :
  breakers cbm !! s = Some b -> State b = Closed -> (length ts < 5)%nat ->
  let cbm' := failures s ts (OnSuccess s cbm) in
  GetBreakerState s cbm' = Closed /\
  forall now, AllowRequest s now cbm' = (true, cbm').
Proof.
  intros Hb Hst Hlen cbm'. subst cbm'.
  assert (OnSuccess s cbm = write s (set_Failures 0 b) cbm) as ->.
  { unfold OnSuccess. rewrite Hb. simpl. by rewrite Hst. }
  destruct (failures_below_threshold s ts (write s (set_Failures 0 b) cbm)
              (set_Failures 0 b)) as [t Ht];
    [apply lookup_write|done|simpl; lia|simpl; unfold FailuresToOpen; lia|].
  split.
  - unfold GetBreakerState. by rewrite Ht.
  - intros now. by apply (AllowRequest_Closed s now _ _ Ht).
Qed.

Lemma X2_success_resets_failure_count_witness :
  let cbm := write "s1" (mkBreaker Closed 4 0 0) NewCircuitBreakerManager in
  let cbm' := failures "s1" [1; 2; 3; 4] (OnSuccess "s1" cbm) in
  GetBreakerState "s1" (failures "s1" [1] cbm) = Open /\
  GetBreakerState "s1" cbm' = Closed /\
  forall now, AllowRequest "s1" now cbm' = (true, cbm').
Proof.
  split; [reflexivity|].
  apply (X2_success_resets_failure_count
           (write "s1" (mkBreaker Closed 4 0 0) NewCircuitBreakerManager)
           "s1" (mkBreaker Closed 4 0 0) [1; 2; 3; 4]).
  - reflexivity.
  - reflexivity.
  - simpl. lia.
Defined.

(** X3.  A successful probe closes the breaker: OnSuccess on a HalfOpen
    breaker makes it Closed with failure count and in-flight counter 0;
    requests are admitted again, and it takes five fresh failures to
    open it: four leave it Closed, the fifth opens it. *)
Theorem X3_probe_success_closes (cbm : CircuitBreakerManager) (s : string)
    (b : Breaker) :
  breakers cbm !! s = Some b -> State b = HalfOpen ->
  let closed := OnSuccess s cbm in
  breakers closed !! s = Some (mkBreaker Closed 0 (LastOpenTime b) 0) /\
  (forall now, AllowRequest s now closed = (true, closed)) /\
  (forall t1 t2 t3 t4 t5,
     GetBreakerState s (failures s [t1; t2; t3; t4] closed) = Closed /\
     breakers (failures s [t1; t2; t3; t4; t5] closed) !! s
       = Some (mkBreaker Open 5 t5 0)).
Proof.
  intros Hb Hst closed. subst closed.
  assert (OnSuccess s cbm
          = write s (mkBreaker Closed 0 (LastOpenTime b) 0) cbm) as ->.
  { unfold OnSuccess. rewrite Hb. simpl. by rewrite Hst. }
  pose proof (lookup_write s (mkBreaker Closed 0 (LastOpenTime b) 0) cbm) as Hc.
  split_and!.
  - done.
  - intros now. by apply (AllowRequest_Closed s now _ _ Hc).
  - intros t1 t2 t3 t4 t5. split.
    + destruct (failures_below_threshold s [t1; t2; t3; t4] _ _ Hc)
        as [t Ht]; [done|simpl; lia|simpl; unfold FailuresToOpen; lia|].
      unfold GetBreakerState. by rewrite Ht.
    + rewrite (five_failures_Closed s t1 t2 t3 t4 t5 _ _ Hc) by done.
      apply lookup_write.
Qed.

Lemma X3_probe_success_closes_witness :
  let cbm := write "s1" (mkBreaker HalfOpen 5 7 1) NewCircuitBreakerManager in
  breakers (OnSuccess "s1" cbm) !! "s1" = Some (mkBreaker Closed 0 7 0) /\
  (forall now, AllowRequest "s1" now (OnSuccess "s1" cbm)
               = (true, OnSuccess "s1" cbm)).
Proof.
  destruct (X3_probe_success_closes
              (write "s1" (mkBreaker HalfOpen 5 7 1) NewCircuitBreakerManager)
              "s1" (mkBreaker HalfOpen 5 7 1)) as (H1 & H2 & _);
    [reflexivity|reflexivity|].
  split; [exact H1|exact H2].
Defined.

(** X4.  A failed probe re-opens the breaker at once, whatever the
    failure count: OnFailure on a HalfOpen breaker makes it Open with
    the in-flight counter 0 and restarts the cooldown at the time of
    the failure; requests are denied until 30 s later, and the first
    one from then on is admitted. *)
Theorem X4_probe_failure_reopens (cbm : CircuitBreakerManager) (s : string)
    (b : Breaker) (now : Time) :
  breakers cbm !! s = Some b -> State b = HalfOpen ->
  let opened := OnFailure s now cbm in
  breakers opened !! s
    = Some (mkBreaker Open (wrap_int (Failures b + 1)) now 0) /\
  (forall now', Since now' now < OpenCooldown ->
     AllowRequest s now' opened = (false, opened)) /\
  (forall now', OpenCooldown <= Since now' now ->
     (AllowRequest s now' opened).1 = true).
Proof.
  intros Hb Hst opened. subst opened.
  assert (OnFailure s now cbm
          = write s (mkBreaker Open (wrap_int (Failures b + 1)) now 0) cbm) as ->.
  { unfold OnFailure. rewrite (lookupOrCreate_Some _ _ _ Hb). simpl.
    by rewrite Hst. }
  pose proof (lookup_write s (mkBreaker Open (wrap_int (Failures b + 1)) now 0)
                cbm) as Ho.
  split_and!; [done| |].
  - intros now' Hlt. unfold AllowRequest.
    rewrite (lookupOrCreate_Some _ _ _ Ho). simpl.
    destruct (Z.leb_spec OpenCooldown (Since now' now)); [lia|done].
  - intros now' Hge. unfold AllowRequest.
    rewrite (lookupOrCreate_Some _ _ _ Ho). simpl.
    destruct (Z.leb_spec OpenCooldown (Since now' now)); [done|lia].
Qed.

Lemma X4_probe_failure_reopens_witness :
  let cbm := write "s1" (mkBreaker HalfOpen 5 7 1) NewCircuitBreakerManager in
  let opened := OnFailure "s1" 100 cbm in
  breakers opened !! "s1" = Some (mkBreaker Open 6 100 0) /\
  AllowRequest "s1" (99 + 30 * Second) opened = (false, opened) /\
  (AllowRequest "s1" (100 + 30 * Second) opened).1 = true.
Proof.
  destruct (X4_probe_failure_reopens
              (write "s1" (mkBreaker HalfOpen 5 7 1) NewCircuitBreakerManager)
              "s1" (mkBreaker HalfOpen 5 7 1) 100) as (H1 & H2 & H3);
    [reflexivity|reflexivity|].
  split; [exact H1|]. split.
  - apply H2. vm_compute. reflexivity.
  - apply H3. vm_compute. intros H; discriminate H.
Defined.

(** A report leaves an Open breaker Open, with the same opening time
    and in-flight counter. *)
Lemma report_keeps_Open m cbm s b :
  receiver m = s -> is_report m = true ->
  breakers cbm !! s = Some b -> State b = Open ->
  exists f,
    breakers (invoke cbm m) !! s
      = Some (mkBreaker Open f (LastOpenTime b) (InFlight b)).
Proof.
  intros Hr Hrep Hb Hst. destruct b as [st f t i]; simpl in *; subst st.
  destruct m as [s' now|s'|s' now|s'|s'|s']; try discriminate;
    simpl in Hr; subst s'; simpl.
  - unfold OnSuccess. rewrite Hb. simpl. eexists. apply lookup_write.
  - unfold OnFailure. rewrite (lookupOrCreate_Some _ _ _ Hb). simpl.
    eexists. apply lookup_write.
  - unfold OnRequestComplete. rewrite Hb. simpl. eauto.
Qed.

(** X5.  Reports while the breaker is Open neither close it nor move
    the cooldown: after any sequence of calls in which the backend
    itself only receives OnSuccess, OnFailure and OnRequestComplete
    (other backends receive anything), the breaker is still Open with
    the opening time it had, so requests are denied until 30 s after
    that time and admitted from then on. *)
Theorem X5_reports_keep_open_and_cooldown (cbm : CircuitBreakerManager)
    (s : string) (b : Breaker) (ms : list Method) :
  breakers cbm !! s = Some b -> State b = Open ->
  Forall (fun m => receiver m = s -> is_report m = true) ms ->
  let cbm' := history ms cbm in
  GetBreakerState s cbm' = Open /\
  (forall now, Since now (LastOpenTime b) < OpenCooldown ->
     AllowRequest s now cbm' = (false, cbm')) /\
  (forall now, OpenCooldown <= Since now (LastOpenTime b) ->
     (AllowRequest s now cbm').1 = true).
Proof.
  intros Hb Hst Hms cbm'. subst cbm'.
  assert (exists f, breakers (history ms cbm) !! s
                    = Some (mkBreaker Open f (LastOpenTime b) (InFlight b)))
    as [f Hf].
  { induction ms as [|m ms IH] using rev_ind.
    - exists (Failures b). simpl. rewrite Hb. destruct b; simpl in *. by subst.
    - apply Forall_app in Hms as [Hms Hm]. apply Forall_cons in Hm as [Hm _].
      destruct (IH Hms) as [f Hf]. rewrite history_snoc.
      destruct (decide (receiver m = s)) as [Heq|Hne].
      + destruct (report_keeps_Open m _ s _ Heq (Hm Heq) Hf eq_refl) as [f' Hf'].
        by exists f'.
      + exists f. by rewrite invoke_other. }
  split_and!.
  - unfold GetBreakerState. by rewrite Hf.
  - intros now Hlt. unfold AllowRequest.
    rewrite (lookupOrCreate_Some _ _ _ Hf). simpl.
    destruct (Z.leb_spec OpenCooldown (Since now (LastOpenTime b))); [lia|done].
  - intros now Hge. unfold AllowRequest.
    rewrite (lookupOrCreate_Some _ _ _ Hf). simpl.
    destruct (Z.leb_spec OpenCooldown (Since now (LastOpenTime b))); [done|lia].
Qed.

Lemma X5_reports_keep_open_and_cooldown_witness :
  let cbm := write "s1" (mkBreaker Open 5 100 0) NewCircuitBreakerManager in
  let ms := [DoOnFailure "s1" 200; DoOnSuccess "s1"; DoAllowRequest "s2" 300;
             DoOnFailure "s1" 400] in
  GetBreakerState "s1" (history ms cbm) = Open /\
  AllowRequest "s1" (99 + 30 * Second) (history ms cbm)
    = (false, history ms cbm) /\
  (AllowRequest "s1" (100 + 30 * Second) (history ms cbm)).1 = true.
Proof.
  destruct (X5_reports_keep_open_and_cooldown
              (write "s1" (mkBreaker Open 5 100 0) NewCircuitBreakerManager)
              "s1" (mkBreaker Open 5 100 0)
              [DoOnFailure "s1" 200; DoOnSuccess "s1"; DoAllowRequest "s2" 300;
               DoOnFailure "s1" 400]) as (H1 & H2 & H3).
  - reflexivity.
  - reflexivity.
  - repeat constructor; simpl; intros; try reflexivity; discriminate.
  - split; [exact H1|]. split.
    + apply H2. vm_compute. reflexivity.
    + apply H3. vm_compute. intros H; discriminate H.
Defined.

(** X6.  Breakers are independent: calls for other backends, whatever
    they are, leave the breaker of a backend (or its absence) as it
    was. *)
Theorem X6_breakers_are_independent (cbm : CircuitBreakerManager) (s : string)
    (ms : list Method) :
  Forall (fun m => receiver m ≠ s) ms ->
  breakers (history ms cbm) !! s = breakers cbm !! s /\
  GetBreakerState s (history ms cbm) = GetBreakerState s cbm /\
  forall now,
    (AllowRequest s now (history ms cbm)).1 = (AllowRequest s now cbm).1.
Proof.
  intros Hms.
  assert (H : breakers (history ms cbm) !! s = breakers cbm !! s).
  { induction ms as [|m ms IH] using rev_ind; [done|].
    apply Forall_app in Hms as [Hms Hm]. apply Forall_cons in Hm as [Hm _].
    rewrite history_snoc, invoke_other by done. by apply IH. }
  split_and!; [done| |].
  - unfold GetBreakerState. by rewrite H.
  - intros now. unfold AllowRequest, lookupOrCreate. rewrite H.
    destruct (breakers cbm !! s) as [b|]; [|done].
    destruct (State b); [done| |].
    + by destruct (_ <=? _).
    + by destruct (_ =? _).
Qed.

Lemma X6_breakers_are_independent_witness :
  let cbm := write "s1" (mkBreaker Open 5 100 0) NewCircuitBreakerManager in
  let ms := [DoOnFailure "s2" 200; DoRemoveBreaker "s3"; DoResetBreaker "s2"] in
  breakers (history ms cbm) !! "s1" = Some (mkBreaker Open 5 100 0).
Proof.
  destruct (X6_breakers_are_independent
              (write "s1" (mkBreaker Open 5 100 0) NewCircuitBreakerManager)
              "s1"
              [DoOnFailure "s2" 200; DoRemoveBreaker "s3"; DoResetBreaker "s2"])
    as (H & _).
  - repeat constructor; simpl; discriminate.
  - exact H.
Defined.

(** Failures recorded for a backend without a breaker. *)
Lemma failures_absent s t ts cbm :
  breakers cbm !! s = None ->
  failures s (t :: ts) cbm = failures s (t :: ts) (write s newBreaker cbm).
Proof.
  intros Hn. unfold failures. simpl. by rewrite (OnFailure_absent s t cbm Hn).
Qed.

(** A breaker that is absent, or Closed with no failure counted, stays
    Closed and admits through fewer than five failures. *)
Lemma fresh_tolerates_four s ts cbm :
  (breakers cbm !! s = None \/
   exists b, breakers cbm !! s = Some b /\ State b = Closed /\ Failures b = 0) ->
  (length ts < 5)%nat ->
  GetBreakerState s (failures s ts cbm) = Closed /\
  forall now, (AllowRequest s now (failures s ts cbm)).1 = true.
Proof.
  intros H Hlen.
  assert (Hpresent : forall cbm0 b, breakers cbm0 !! s = Some b ->
            State b = Closed -> Failures b = 0 ->
            GetBreakerState s (failures s ts cbm0) = Closed /\
            forall now, (AllowRequest s now (failures s ts cbm0)).1 = true).
  { intros cbm0 b Hb Hst Hf.
    destruct (failures_below_threshold s ts cbm0 b Hb Hst) as [t Ht];
      [lia|unfold FailuresToOpen; lia|].
    split.
    - unfold GetBreakerState. by rewrite Ht.
    - intros now. by rewrite (AllowRequest_Closed s now _ _ Ht). }
  destruct H as [Hn|(b & Hb & Hst & Hf)]; [|by apply (Hpresent cbm b)].
  destruct ts as [|t ts].
  - simpl. split.
    + unfold GetBreakerState. by rewrite Hn.
    + intros now. unfold AllowRequest. by rewrite (lookupOrCreate_None _ _ Hn).
  - rewrite (failures_absent s t ts cbm Hn).
    apply (Hpresent _ newBreaker); [apply lookup_write|done|done].
Qed.

(** X7.  ResetBreaker and RemoveBreaker both forget the history of a
    backend, whatever its state was (Open, HalfOpen with a probe in
    flight, or no breaker at all): afterwards the backend is reported
    Closed, requests are admitted, and it tolerates four failures
    again. *)
Theorem X7_reset_and_remove_forget (cbm : CircuitBreakerManager) (s : string)
    (ts : list Time) :
  (length ts < 5)%nat ->
  (GetBreakerState s (failures s ts (ResetBreaker s cbm)) = Closed /\
   forall now, (AllowRequest s now (failures s ts (ResetBreaker s cbm))).1 = true) /\
  (GetBreakerState s (failures s ts (RemoveBreaker s cbm)) = Closed /\
   forall now, (AllowRequest s now (failures s ts (RemoveBreaker s cbm))).1 = true).
Proof.
  intros Hlen. split.
  - apply fresh_tolerates_four; [|done]. unfold ResetBreaker.
    destruct (breakers cbm !! s) as [b|] eqn:Hb; [|by left].
    right. eexists. split; [apply lookup_write|done].
  - apply fresh_tolerates_four; [|done]. left.
    unfold RemoveBreaker. simpl. apply lookup_delete_eq.
Qed.

Lemma X7_reset_and_remove_forget_witness :
  let cbm := write "s1" (mkBreaker Open 9 100 0) NewCircuitBreakerManager in
  (AllowRequest "s1" 101 cbm).1 = false /\
  (AllowRequest "s1" 101 (failures "s1" [1; 2; 3; 4] (ResetBreaker "s1" cbm))).1
    = true /\
  (AllowRequest "s1" 101 (failures "s1" [1; 2; 3; 4] (RemoveBreaker "s1" cbm))).1
    = true.
Proof.
  destruct (X7_reset_and_remove_forget
              (write "s1" (mkBreaker Open 9 100 0) NewCircuitBreakerManager)
              "s1" [1; 2; 3; 4]) as [[_ H1] [_ H2]].
  - simpl. lia.
  - split; [reflexivity|]. split; [apply H1|apply H2].
Defined.

End CBFacts.

(** ** The health monitor *)

Module HealthFacts.
Import Health.

Lemma run_snoc ps p hm : run (ps ++ [p]) hm = record (run ps hm) p.
Proof. unfold run. by rewrite foldl_app. Qed.

Lemma record_other hm p s :
  p_name p ≠ s -> healthMap (record hm p) !! s = healthMap hm !! s.
Proof.
  intros Hne. unfold record, updateHealthStatus; simpl.
  by rewrite lookup_insert_ne.
Qed.

(** The record of the probed backend after a successful probe. *)
Lemma record_success hm p :
  p_ok p = true ->
  exists st, healthMap (record hm p) !! p_name p = Some st /\
             hs_IsHealthy st = true /\ hs_ConsecutiveFailures st = 0.
Proof.
  intros Hok. unfold record, updateHealthStatus. rewrite Hok; simpl.
  eexists. split; [apply lookup_insert_eq|done].
Qed.

(** The record of the probed backend after a failed probe: the flag
    stays as it was unless the incremented counter reaches the
    threshold. *)
Lemma record_failure hm p :
  p_ok p = false ->
  let old := default (mkHealthStatus false 0 0 0) (healthMap hm !! p_name p) in
  let failures := wrap_int (hs_ConsecutiveFailures old + 1) in
  exists st, healthMap (record hm p) !! p_name p = Some st /\
             hs_ConsecutiveFailures st = failures /\
             hs_IsHealthy st =
               (if UnhealthyThreshold <=? failures then false
                else hs_IsHealthy old).
Proof.
  intros Hok. unfold record, updateHealthStatus. rewrite Hok; simpl.
  eexists. split; [apply lookup_insert_eq|].
  by destruct (healthMap hm !! p_name p).
Qed.

Lemma IsHealthy_true s hm :
  IsHealthy s hm = true <->
  exists st, healthMap hm !! s = Some st /\ hs_IsHealthy st = true.
Proof.
  unfold IsHealthy. destruct (healthMap hm !! s) as [st|]; split.
  - eauto.
  - by intros (st' & [= <-] & H).
  - done.
  - by intros (st' & [=] & _).
Qed.

(** While a backend is flagged healthy its counter is the length of the
    streak of failed probes that ends the history, and is below the
    threshold. *)
Lemma healthy_counter ps s st :
  healthMap (run ps NewHealthMonitor) !! s = Some st ->
  hs_IsHealthy st = true ->
  exists k : nat,
    hs_ConsecutiveFailures st = Z.of_nat k /\ (k < 3)%nat /\
    failed_streak s ps k.
Proof.
  revert st. induction ps as [|p ps IH] using rev_ind; intros st Hst Hh.
  { done. }
  rewrite run_snoc in Hst.
  destruct (decide (p_name p = s)) as [<-|Hne].
  - destruct (p_ok p) eqn:Hok.
    + destruct (record_success (run ps NewHealthMonitor) p Hok)
        as (st' & Hst' & _ & Hc).
      rewrite Hst in Hst'. injection Hst' as <-.
      exists 0%nat. split_and!; [done|lia|].
      exists (filter (fun q => p_name q = p_name p) (ps ++ [p])), [].
      by rewrite app_nil_r.
    + destruct (record_failure (run ps NewHealthMonitor) p Hok)
        as (st' & Hst' & Hc & Hf).
      rewrite Hst in Hst'. injection Hst' as <-.
      destruct (healthMap (run ps NewHealthMonitor) !! p_name p)
        as [old|] eqn:Hold; simpl in *.
      * rewrite Hh in Hf.
        destruct (Z.leb_spec UnhealthyThreshold
                    (wrap_int (hs_ConsecutiveFailures old + 1))) as [|Hlt];
          [done|].
        destruct (IH old eq_refl (eq_sym Hf)) as (k & Hk & Hk3 & front & fs & Hfil & Hlen & Hall).
        rewrite Hk in Hc, Hlt.
        rewrite wrap_int_id in Hc, Hlt by (unfold min_int, max_int; lia).
        unfold UnhealthyThreshold in Hlt.
        exists (S k). split_and!; [lia|lia|].
        exists front, (fs ++ [p]). split_and!.
        -- rewrite filter_app, Hfil, filter_cons_True by done.
           by rewrite <- app_assoc.
        -- rewrite length_app; simpl. lia.
        -- apply Forall_app. split; [done|]. by constructor.
      * rewrite Hh in Hf. by destruct (_ <=? _).
  - rewrite record_other in Hst by done.
    destruct (IH st Hst Hh) as (k & Hk & Hk3 & front & fs & Hfil & Hlen & Hall).
    exists k. split_and!; [done..|].
    exists front, fs. split_and!; [|done..].
    rewrite filter_app, filter_cons_False by done.
    by rewrite filter_nil, app_nil_r.
Qed.

(** C8.  (1) When a probe flips a backend from healthy to unhealthy, that
    probe failed and so did the two probes of that backend before it:
    three consecutive failures have accumulated.  (2) Three consecutive
    failed probes leave the backend unhealthy.  (3) A successful probe
    sets the flag to healthy and the consecutive-failure counter to 0,
    whatever the state before.  (4) IsHealthy of a name without a health
    record is false. *)
Theorem C8_health_hysteresis :
  (forall ps p,
     IsHealthy (p_name p) (run ps NewHealthMonitor) = true ->
     IsHealthy (p_name p) (run (ps ++ [p]) NewHealthMonitor) = false ->
     p_ok p = false /\
     exists front p1 p2,
       filter (fun q => p_name q = p_name p) ps = front ++ [p1; p2] /\
       p_ok p1 = false /\ p_ok p2 = false) /\
  (forall ps p1 p2 p3,
     p_name p2 = p_name p1 -> p_name p3 = p_name p1 ->
     p_ok p1 = false -> p_ok p2 = false -> p_ok p3 = false ->
     IsHealthy (p_name p1) (run (ps ++ [p1; p2; p3]) NewHealthMonitor) = false) /\
  (forall hm s rt now,
     IsHealthy s (updateHealthStatus s true rt now hm) = true /\
     exists st, healthMap (updateHealthStatus s true rt now hm) !! s = Some st /\
                hs_ConsecutiveFailures st = 0) /\
  (forall hm s, healthMap hm !! s = None -> IsHealthy s hm = false).
Proof.
  split_and!.
  - intros ps p Hh Hu. rewrite run_snoc in Hu.
    apply IsHealthy_true in Hh as (old & Hold & Hflag).
    destruct (p_ok p) eqn:Hok.
    { destruct (record_success (run ps NewHealthMonitor) p Hok)
        as (st & Hst & Hf & _).
      unfold IsHealthy in Hu. rewrite Hst, Hf in Hu. done. }
    split; [done|].
    destruct (record_failure (run ps NewHealthMonitor) p Hok)
      as (st & Hst & Hc & Hf).
    unfold IsHealthy in Hu. rewrite Hst in Hu. rewrite Hu in Hf.
    rewrite Hold in Hf; simpl in Hf. rewrite Hflag in Hf.
    destruct (healthy_counter ps (p_name p) old Hold Hflag)
      as (k & Hk & Hk3 & front & fs & Hfil & Hlen & Hall).
    rewrite Hk in Hf. rewrite wrap_int_id in Hf by (unfold min_int, max_int; lia).
    destruct (Z.leb_spec UnhealthyThreshold (Z.of_nat k + 1)) as [Hge|]; [|done].
    unfold UnhealthyThreshold in Hge.
    assert (k = 2%nat) as -> by lia.
    destruct fs as [|p1 [|p2 [|? ?]]]; try discriminate.
    apply Forall_cons in Hall as [H1 Hall].
    apply Forall_cons in Hall as [H2 _].
    by exists front, p1, p2.
  - intros ps p1 p2 p3 E2 E3 F1 F2 F3.
    replace (ps ++ [p1; p2; p3]) with (((ps ++ [p1]) ++ [p2]) ++ [p3])
      by (by rewrite <- !app_assoc).
    rewrite !run_snoc.
    set (hm0 := run ps NewHealthMonitor).
    destruct (IsHealthy (p_name p1) (record (record (record hm0 p1) p2) p3))
      eqn:Hfin; [exfalso|done].
    apply IsHealthy_true in Hfin as (st3 & Hst3 & Hflag3).
    destruct (record_failure (record (record hm0 p1) p2) p3 F3)
      as (st3' & Hst3' & Hc3 & Hf3).
    rewrite E3, Hst3 in Hst3'. injection Hst3' as <-. rewrite E3 in Hc3, Hf3.
    destruct (record_failure (record hm0 p1) p2 F2) as (st2 & Hst2 & Hc2 & Hf2).
    rewrite E2 in Hst2, Hc2, Hf2. rewrite Hst2 in Hc3, Hf3; simpl in Hc3, Hf3.
    destruct (record_failure hm0 p1 F1) as (st1 & Hst1 & Hc1 & Hf1).
    rewrite Hst1 in Hc2, Hf2; simpl in Hc2, Hf2.
    rewrite Hflag3 in Hf3.
    destruct (Z.leb_spec UnhealthyThreshold
                (wrap_int (hs_ConsecutiveFailures st2 + 1))) as [|L3]; [done|].
    destruct (Z.leb_spec UnhealthyThreshold
                (wrap_int (hs_ConsecutiveFailures st1 + 1))) as [|L2];
      [congruence|].
    destruct (Z.leb_spec UnhealthyThreshold
                (wrap_int (hs_ConsecutiveFailures
                   (default (mkHealthStatus false 0 0 0)
                      (healthMap hm0 !! p_name p1)) + 1))) as [|L1];
      [congruence|].
    destruct (healthMap hm0 !! p_name p1) as [st0|] eqn:Hst0; simpl in *;
      [|congruence].
    assert (hs_IsHealthy st0 = true) as Hflag0 by congruence.
    destruct (healthy_counter ps (p_name p1) st0 Hst0 Hflag0)
      as (k & Hk & Hk3 & _).
    unfold UnhealthyThreshold in *.
    rewrite Hk in *.
    rewrite (wrap_int_id (Z.of_nat k + 1)) in *
      by (unfold min_int, max_int; lia).
    rewrite Hc1 in *.
    rewrite (wrap_int_id (Z.of_nat k + 1 + 1)) in *
      by (unfold min_int, max_int; lia).
    rewrite Hc2 in *.
    rewrite (wrap_int_id (Z.of_nat k + 1 + 1 + 1)) in *
      by (unfold min_int, max_int; lia).
    lia.
  - intros hm s rt now.
    destruct (record_success hm (mkProbe s true rt now) eq_refl)
      as (st & Hst & Hf & Hc).
    change (record hm (mkProbe s true rt now))
      with (updateHealthStatus s true rt now hm) in Hst.
    change (p_name (mkProbe s true rt now)) with s in Hst.
    split; [|by exists st].
    unfold IsHealthy. by rewrite Hst.
  - intros hm s Hn. unfold IsHealthy. by rewrite Hn.
Qed.

Lemma C8_health_hysteresis_witness :
  let ok := mkProbe "s1" true 1 0 in
  let ko := mkProbe "s1" false 1 0 in
  IsHealthy "s1" (run [ok; ko; ko] NewHealthMonitor) = true /\
  IsHealthy "s1" (run ([ok; ko; ko] ++ [ko]) NewHealthMonitor) = false /\
  (exists front p1 p2,
     filter (fun q => p_name q = "s1") [ok; ko; ko] = front ++ [p1; p2] /\
     p_ok p1 = false /\ p_ok p2 = false) /\
  IsHealthy "s1"
    (updateHealthStatus "s1" true 1 9 (run [ok; ko; ko; ko] NewHealthMonitor))
    = true /\
  IsHealthy "unknown" (run [ok; ko; ko; ko] NewHealthMonitor) = false.
Proof.
  destruct C8_health_hysteresis as (Hflip & Hthree & Hrecover & Hunknown).
  split; [reflexivity|].
  split.
  { apply (Hthree [mkProbe "s1" true 1 0] (mkProbe "s1" false 1 0)
             (mkProbe "s1" false 1 0) (mkProbe "s1" false 1 0));
      reflexivity. }
  split.
  { apply (Hflip [mkProbe "s1" true 1 0; mkProbe "s1" false 1 0;
                  mkProbe "s1" false 1 0] (mkProbe "s1" false 1 0));
      reflexivity. }
  split; [apply Hrecover|].
  apply Hunknown. reflexivity.
Defined.

(** *** Further properties of the health monitor *)

Lemma probeHealthy_spec r : probeHealthy r = true <-> answered_2xx r.
Proof.
  unfold answered_2xx. destruct r as [|code]; simpl.
  - split; [done|]. by intros (code & [=] & _).
  - rewrite andb_true_iff, Z.leb_le, Z.ltb_lt. split.
    + intros H. by exists code.
    + by intros (code' & [= <-] & H).
Qed.

Lemma checks_snoc cs c hm : checks (cs ++ [c]) hm = check (checks cs hm) c.
Proof. unfold checks. by rewrite foldl_app. Qed.

Lemma check_record hm c :
  check hm c = record hm (mkProbe (c_name c) (probeHealthy (c_result c))
                            (c_rt c) (c_now c)).
Proof. done. Qed.

Lemma IsHealthy_false_failure hm p :
  p_ok p = false -> IsHealthy (p_name p) hm = false ->
  IsHealthy (p_name p) (record hm p) = false.
Proof.
  intros Hok Hu. destruct (record_failure hm p Hok) as (st & Hst & _ & Hf).
  unfold IsHealthy in *. rewrite Hst, Hf.
  destruct (_ <=? _); [done|].
  by destruct (healthMap hm !! p_name p).
Qed.

Lemma IsHealthy_success hm p :
  p_ok p = true -> IsHealthy (p_name p) (record hm p) = true.
Proof.
  intros Hok. destruct (record_success hm p Hok) as (st & Hst & Hf & _).
  unfold IsHealthy. by rewrite Hst.
Qed.

Lemma IsHealthy_other hm p s :
  p_name p ≠ s -> IsHealthy s (record hm p) = IsHealthy s hm.
Proof. intros Hne. unfold IsHealthy. by rewrite record_other. Qed.

(** X8.  Only a 2xx answer makes a backend healthy.  A backend that is
    not healthy (unknown, removed, or flagged unhealthy) stays so
    through any sequence of health checks in which none of its own
    probes is answered with a 2xx status, whatever happens to the other
    backends; and its first 2xx answer makes it healthy at once. *)
Theorem X8_only_2xx_makes_healthy (hm : HealthMonitor) (s : string)
    (cs : list Check) :
  IsHealthy s hm = false ->
  Forall (fun c => c_name c = s -> ~ answered_2xx (c_result c)) cs ->
  IsHealthy s (checks cs hm) = false /\
  forall c, c_name c = s -> answered_2xx (c_result c) ->
            IsHealthy s (checks (cs ++ [c]) hm) = true.
Proof.
  intros Hu Hcs. split.
  - induction cs as [|c cs IH] using rev_ind; [done|].
    apply Forall_app in Hcs as [Hcs Hc]. apply Forall_cons in Hc as [Hc _].
    rewrite checks_snoc, check_record.
    destruct (decide (c_name c = s)) as [Heq|Hne].
    + subst s.
      apply (IsHealthy_false_failure (checks cs hm)
               (mkProbe (c_name c) (probeHealthy (c_result c)) (c_rt c) (c_now c))).
      * simpl. destruct (probeHealthy (c_result c)) eqn:E; [|done].
        exfalso. apply (Hc eq_refl). by apply probeHealthy_spec.
      * by apply IH.
    + rewrite IsHealthy_other by done. by apply IH.
  - intros c Hn H2. rewrite checks_snoc, check_record.
    apply probeHealthy_spec in H2.
    subst s.
    by apply (IsHealthy_success (checks cs hm)
                (mkProbe (c_name c) (probeHealthy (c_result c)) (c_rt c) (c_now c))).
Qed.

Lemma X8_only_2xx_makes_healthy_witness :
  let cs := [mkCheck "s1" ProbeError 1 10; mkCheck "s1" (ProbeStatus 503) 1 20;
             mkCheck "s2" (ProbeStatus 200) 1 20;
             mkCheck "s1" (ProbeStatus 301) 1 30] in
  IsHealthy "s1" (checks cs NewHealthMonitor) = false /\
  IsHealthy "s1" (checks (cs ++ [mkCheck "s1" (ProbeStatus 204) 1 40])
                    NewHealthMonitor) = true.
Proof.
  destruct (X8_only_2xx_makes_healthy NewHealthMonitor "s1"
              [mkCheck "s1" ProbeError 1 10; mkCheck "s1" (ProbeStatus 503) 1 20;
               mkCheck "s2" (ProbeStatus 200) 1 20;
               mkCheck "s1" (ProbeStatus 301) 1 30]) as [H1 H2].
  - reflexivity.
  - repeat constructor; simpl; intros Hn; try discriminate Hn;
      intros (code & Heq & Hr); try discriminate Heq;
      injection Heq as <-; lia.
  - split; [exact H1|]. apply H2; [reflexivity|].
    exists 204. split; [reflexivity|lia].
Defined.

(** The record of a backend after a probe is a function of its record
    before and of the probe. *)
Lemma record_local hm1 hm2 p :
  healthMap hm1 !! p_name p = healthMap hm2 !! p_name p ->
  healthMap (record hm1 p) !! p_name p = healthMap (record hm2 p) !! p_name p.
Proof.
  intros H. unfold record, updateHealthStatus. simpl.
  rewrite !lookup_insert_eq. by rewrite H.
Qed.

Lemma run_own_probes ps s hm :
  healthMap (run ps hm) !! s
  = healthMap (run (filter (fun p => p_name p = s) ps) hm) !! s.
Proof.
  induction ps as [|p ps IH] using rev_ind; [done|].
  rewrite filter_app, run_snoc.
  destruct (decide (p_name p = s)) as [Heq|Hne].
  - rewrite filter_cons_True, filter_nil, run_snoc by done.
    subst s. by apply record_local.
  - rewrite filter_cons_False, filter_nil, app_nil_r by done.
    by rewrite record_other.
Qed.

(** X9.  Health records are independent: the record of a backend after
    any history of probes is the record it has after its own probes
    alone, in the same order; the probes of the other backends do not
    matter. *)
Theorem X9_health_records_are_independent (ps : list Probe) (s : string)
    (hm : HealthMonitor) :
  healthMap (run ps hm) !! s
    = healthMap (run (filter (fun p => p_name p = s) ps) hm) !! s /\
  IsHealthy s (run ps hm)
    = IsHealthy s (run (filter (fun p => p_name p = s) ps) hm).
Proof.
  pose proof (run_own_probes ps s hm) as H.
  split; [done|]. unfold IsHealthy. by rewrite H.
Qed.

(** *** A round of parallel checks *)

Lemma checks_run cs hm : checks cs hm = run (probe_of <$> cs) hm.
Proof.
  revert hm. induction cs as [|c cs IH]; intros hm; [done|].
  simpl. by rewrite IH.
Qed.

Lemma checkAllServers_checks cs hm : checkAllServers cs hm = checks cs hm.
Proof. by destruct cs. Qed.

(** Two probes of a backend with the same outcome give the same
    verdict, whatever their clock readings and response times. *)
Lemma record_verdict hm p q :
  p_name p = p_name q -> p_ok p = p_ok q ->
  verdict (p_name p) (record hm p) = verdict (p_name p) (record hm q).
Proof.
  intros Hn Hok. unfold verdict, record, updateHealthStatus. simpl.
  rewrite <- Hn, <- Hok, !lookup_insert_eq. simpl.
  by destruct (p_ok p).
Qed.

(** With one element per name, the elements of a name are at most
    one. *)
Lemma filter_name_NoDup {A} (f : A -> string) (l : list A) s :
  NoDup (f <$> l) ->
  filter (fun x => f x = s) l = [] \/
  exists x, filter (fun x => f x = s) l = [x].
Proof.
  induction l as [|a l IH]; [by left|].
  rewrite fmap_cons. intros [Hnin Hnd]%NoDup_cons.
  destruct (decide (f a = s)) as [Ha|Ha].
  - right. exists a. rewrite filter_cons_True by done. f_equal.
    destruct (filter (fun x => f x = s) l) as [|b rest] eqn:E; [done|].
    exfalso. apply Hnin.
    assert (Hb : b ∈ filter (fun x => f x = s) l)
      by (rewrite E; apply list_elem_of_here).
    apply list_elem_of_filter in Hb as [Hb1 Hb2].
    apply list_elem_of_fmap. exists b. split; [congruence|done].
  - rewrite filter_cons_False by done. by apply IH.
Qed.

(** X25.  The verdicts of a round of parallel health checks do not
    depend on the schedule.  [checkAllServers] runs one check per listed
    server in its own goroutine; whatever the order in which their
    updates take the lock, and whatever clock readings and response
    times they record, every server ends the round with the same health
    flag and the same failure counter, provided no two checks of the
    round are for the same name. *)
Theorem X25_round_is_schedule_independent (cs1 cs2 : list Check)
    (hm : HealthMonitor) :
  NoDup (c_name <$> cs1) ->
  (fun c => (c_name c, probeHealthy (c_result c))) <$> cs1
    ≡ₚ (fun c => (c_name c, probeHealthy (c_result c))) <$> cs2 ->
  forall s,
    IsHealthy s (checkAllServers cs1 hm) = IsHealthy s (checkAllServers cs2 hm) /\
    hs_ConsecutiveFailures <$> GetHealthStatus s (checkAllServers cs1 hm)
      = hs_ConsecutiveFailures <$> GetHealthStatus s (checkAllServers cs2 hm).
Proof.
  intros Hnd1 Hperm s.
  assert (Hnd2 : NoDup (c_name <$> cs2)).
  { assert (Hn : c_name <$> cs1 ≡ₚ c_name <$> cs2).
    { apply (fmap_Permutation fst) in Hperm.
      by rewrite <- !list_fmap_compose in Hperm. }
    by rewrite <- Hn. }
  assert (Hin : forall ca cb (c : Check),
            (fun c => (c_name c, probeHealthy (c_result c))) <$> ca
              ≡ₚ (fun c => (c_name c, probeHealthy (c_result c))) <$> cb ->
            c ∈ ca -> exists c', c' ∈ cb /\ c_name c' = c_name c /\
              probeHealthy (c_result c') = probeHealthy (c_result c)).
  { intros ca cb c Hp Hc.
    assert (Hpair : (c_name c, probeHealthy (c_result c))
                    ∈ (fun c => (c_name c, probeHealthy (c_result c))) <$> cb).
    { rewrite <- Hp. apply list_elem_of_fmap. by exists c. }
    apply list_elem_of_fmap in Hpair as (c' & [= Hn Hr] & Hc').
    by exists c'. }
  assert (Hv : verdict s (checkAllServers cs1 hm)
               = verdict s (checkAllServers cs2 hm)).
  { rewrite !checkAllServers_checks, !checks_run. unfold verdict.
    rewrite (run_own_probes (probe_of <$> cs1) s hm).
    rewrite (run_own_probes (probe_of <$> cs2) s hm).
    assert (Hf : forall cs : list Check,
                 filter (fun p => p_name p = s) (probe_of <$> cs)
                 = probe_of <$> filter (fun c => c_name c = s) cs).
    { intros cs. induction cs as [|c cs IH]; [done|]. rewrite fmap_cons.
      destruct (decide (c_name c = s)) as [Hc|Hc].
      - rewrite !filter_cons_True by done. by rewrite fmap_cons, IH.
      - rewrite !filter_cons_False by done. exact IH. }
    rewrite !Hf.
    destruct (filter_name_NoDup c_name cs1 s Hnd1) as [E1|[c1 E1]];
      destruct (filter_name_NoDup c_name cs2 s Hnd2) as [E2|[c2 E2]];
      rewrite E1, E2.
    - done.
    - exfalso.
      assert (H2 : c2 ∈ filter (fun c => c_name c = s) cs2)
        by (rewrite E2; apply list_elem_of_here).
      apply list_elem_of_filter in H2 as [Hn2 H2].
      destruct (Hin cs2 cs1 c2 (symmetry Hperm) H2) as (c' & Hc' & Hn' & _).
      assert (H1 : c' ∈ filter (fun c => c_name c = s) cs1)
        by (apply list_elem_of_filter; split; [congruence|done]).
      rewrite E1 in H1. by apply elem_of_nil in H1.
    - exfalso.
      assert (H1 : c1 ∈ filter (fun c => c_name c = s) cs1)
        by (rewrite E1; apply list_elem_of_here).
      apply list_elem_of_filter in H1 as [Hn1 H1].
      destruct (Hin cs1 cs2 c1 Hperm H1) as (c' & Hc' & Hn' & _).
      assert (H2 : c' ∈ filter (fun c => c_name c = s) cs2)
        by (apply list_elem_of_filter; split; [congruence|done]).
      rewrite E2 in H2. by apply elem_of_nil in H2.
    - assert (H1 : c1 ∈ filter (fun c => c_name c = s) cs1)
        by (rewrite E1; apply list_elem_of_here).
      apply list_elem_of_filter in H1 as [Hn1 H1].
      destruct (Hin cs1 cs2 c1 Hperm H1) as (c' & Hc' & Hn' & Hr').
      assert (H2 : c' ∈ filter (fun c => c_name c = s) cs2)
        by (apply list_elem_of_filter; split; [congruence|done]).
      rewrite E2 in H2. apply list_elem_of_singleton in H2 as ->.
      pose proof (record_verdict hm (probe_of c1) (probe_of c2)) as Hrv.
      simpl in Hrv. rewrite Hn1 in Hrv. unfold verdict in Hrv.
      apply Hrv; congruence. }
  unfold verdict in Hv. unfold IsHealthy, GetHealthStatus.
  destruct (healthMap (checkAllServers cs1 hm) !! s) as [st1|];
    destruct (healthMap (checkAllServers cs2 hm) !! s) as [st2|];
    simpl in Hv |- *; try done.
  injection Hv as -> ->. done.
Qed.

Lemma X25_round_is_schedule_independent_witness :
  let a := mkCheck "a" (ProbeStatus 200) 3 10 in
  let b := mkCheck "b" ProbeError 7 11 in
  let a' := mkCheck "a" (ProbeStatus 204) 5 13 in
  let b' := mkCheck "b" (ProbeStatus 500) 1 12 in
  IsHealthy "a" (checkAllServers [a; b] NewHealthMonitor)
    = IsHealthy "a" (checkAllServers [b'; a'] NewHealthMonitor) /\
  IsHealthy "b" (checkAllServers [a; b] NewHealthMonitor)
    = IsHealthy "b" (checkAllServers [b'; a'] NewHealthMonitor).
Proof.
  intros a b a' b'.
  assert (H : forall s,
            IsHealthy s (checkAllServers [a; b] NewHealthMonitor)
              = IsHealthy s (checkAllServers [b'; a'] NewHealthMonitor) /\
            hs_ConsecutiveFailures
              <$> GetHealthStatus s (checkAllServers [a; b] NewHealthMonitor)
              = hs_ConsecutiveFailures
              <$> GetHealthStatus s (checkAllServers [b'; a'] NewHealthMonitor)).
  { apply (X25_round_is_schedule_independent [a; b] [b'; a'] NewHealthMonitor).
    - apply NoDup_cons. split; [|apply NoDup_singleton].
      intros [=]%list_elem_of_singleton.
    - apply perm_swap. }
  split; [exact (proj1 (H "a"))|exact (proj1 (H "b"))].
Defined.

End HealthFacts.

(** ** The registry *)

Module RegFacts.
Import Reg.

Lemma HasPrefix_spec s p : HasPrefix s p = true <-> is_prefix_of p s.
Proof.
  unfold HasPrefix, is_prefix_of. revert s.
  induction p as [|a p IH]; intros s.
  - destruct s; (split; [by eexists|done]).
  - destruct s as [|b s]; simpl.
    + split; [done|]. by intros [rest Hr].
    + destruct (Ascii.ascii_dec a b) as [->|Hne].
      * rewrite IH. split; intros [rest Hr]; exists rest; simpl.
        -- by rewrite Hr.
        -- simpl in Hr. by injection Hr.
      * split; [done|]. intros [rest Hr]. simpl in Hr.
        injection Hr as Hab _. by destruct Hne.
Qed.

Lemma len_nonneg s : 0 <= len s.
Proof. unfold len. lia. Qed.

Lemma len_0 s : len s = 0 -> s = EmptyString.
Proof. unfold len. by destruct s. Qed.

(** Two initial segments of one string with the same length are equal. *)
Lemma is_prefix_of_inj p q s :
  is_prefix_of p s -> is_prefix_of q s -> len p = len q -> p = q.
Proof.
  unfold len. revert q s. induction p as [|a p IH]; intros q s Hp Hq Hl.
  - destruct q; [done|simpl in Hl; lia].
  - destruct q as [|b q]; [simpl in Hl; lia|].
    destruct Hp as [r1 ->]. destruct Hq as [r2 Hq]. simpl in Hq.
    injection Hq as -> Hq. f_equal.
    apply (IH q (p +:+ r1)); [by exists r1|by exists r2|simpl in Hl; lia].
Qed.

(** The first pass over one list of prefixes: the result is the
    incoming candidate or a prefix of the list that starts the path, it
    is at least as long as the incoming candidate, and no prefix of the
    list that starts the path is longer. *)
Lemma scanPrefixes_spec requestPath ps longestPrefix :
  let res := scanPrefixes requestPath longestPrefix ps in
  (res = longestPrefix \/
   (res ∈ ps /\ HasPrefix requestPath res = true /\ len longestPrefix < len res)) /\
  len longestPrefix <= len res /\
  (forall p, p ∈ ps -> HasPrefix requestPath p = true -> len p <= len res).
Proof.
  unfold scanPrefixes. revert longestPrefix.
  induction ps as [|q ps IH]; intros l; simpl.
  { split_and!; [by left|lia|]. intros p Hp. by apply elem_of_nil in Hp. }
  destruct (HasPrefix requestPath q) eqn:Hq; simpl.
  - destruct (Z.ltb_spec (len l) (len q)) as [Hlt|Hge].
    + destruct (IH q) as (H1 & H2 & H3). split_and!.
      * right. destruct H1 as [->|(Hin & Hp & Hl)].
        -- split_and!; [left|done|done].
        -- split_and!; [by right|done|lia].
      * lia.
      * intros p Hp Hpp. apply elem_of_cons in Hp as [->|Hp]; [lia|eauto].
    + destruct (IH l) as (H1 & H2 & H3). split_and!.
      * destruct H1 as [->|(Hin & Hp & Hl)]; [by left|].
        right. split_and!; [by right|done|done].
      * done.
      * intros p Hp Hpp. apply elem_of_cons in Hp as [->|Hp]; [lia|eauto].
  - destruct (IH l) as (H1 & H2 & H3). split_and!.
    + destruct H1 as [->|(Hin & Hp & Hl)]; [by left|].
      right. split_and!; [by right|done|done].
    + done.
    + intros p Hp Hpp. apply elem_of_cons in Hp as [->|Hp]; [congruence|eauto].
Qed.

(** The first pass over all servers is one pass over all their
    prefixes. *)
Lemma first_pass_concat requestPath order longestPrefix :
  foldl (fun longestPrefix server =>
           scanPrefixes requestPath longestPrefix (Prefixes server))
        longestPrefix order
  = scanPrefixes requestPath longestPrefix (concat (Prefixes <$> order)).
Proof.
  revert longestPrefix. induction order as [|server order IH]; intros l; simpl.
  - done.
  - rewrite IH. unfold scanPrefixes. by rewrite foldl_app.
Qed.

(** The inner loop of the second pass appends the server once when it
    registered the prefix, and leaves the list alone otherwise. *)
Lemma collectServer_spec longestPrefix server ps matchingServers :
  collectServer longestPrefix server ps matchingServers =
    if decide (longestPrefix ∈ ps) then matchingServers ++ [server]
    else matchingServers.
Proof.
  induction ps as [|q ps IH]; simpl.
  - destruct (decide (longestPrefix ∈ [])) as [H|]; [|done].
    by apply elem_of_nil in H.
  - destruct (String.eqb_spec q longestPrefix) as [->|Hne].
    + destruct (decide (longestPrefix ∈ longestPrefix :: ps)) as [|H]; [done|].
      exfalso. apply H. by left.
    + rewrite IH.
      destruct (decide (longestPrefix ∈ ps)) as [Hin|Hnin];
        destruct (decide (longestPrefix ∈ q :: ps)) as [Hin'|Hnin']; try done.
      * exfalso. apply Hnin'. by right.
      * apply elem_of_cons in Hin' as [->|]; done.
Qed.

Lemma second_pass_filter longestPrefix order acc :
  foldl (fun matchingServers server =>
           collectServer longestPrefix server (Prefixes server) matchingServers)
        acc order
  = acc ++ filter (fun server => longestPrefix ∈ Prefixes server) order.
Proof.
  revert acc. induction order as [|server order IH]; intros acc; simpl.
  - by rewrite filter_nil, app_nil_r.
  - rewrite IH, collectServer_spec.
    destruct (decide (longestPrefix ∈ Prefixes server)).
    + rewrite filter_cons_True by done. by rewrite <- app_assoc.
    + by rewrite filter_cons_False.
Qed.

(** A loop order visits exactly the servers of the table. *)
Lemma ranges_elem_of r order server :
  ranges r order ->
  server ∈ order <-> exists name, servers r !! name = Some server.
Proof.
  unfold ranges. intros ->. rewrite list_elem_of_fmap. split.
  - intros ([name server'] & -> & Hin). exists name.
    by apply elem_of_map_to_list in Hin.
  - intros [name Hs]. exists (name, server). split; [done|].
    by apply elem_of_map_to_list.
Qed.

Lemma elem_of_all_prefixes (order : list Server) p :
  p ∈ concat (Prefixes <$> order) <->
  exists server, server ∈ order /\ p ∈ Prefixes server.
Proof.
  induction order as [|server order IH]; simpl.
  - split; [intros H; by apply elem_of_nil in H|].
    intros (server & H & _). by apply elem_of_nil in H.
  - rewrite elem_of_app, IH. split.
    + intros [H|(server' & H1 & H2)].
      * exists server. split; [by left|done].
      * exists server'. split; [by right|done].
    + intros (server' & H1 & H2). apply elem_of_cons in H1 as [->|H1].
      * by left.
      * right. eauto.
Qed.

Lemma ranges_registered r order p :
  ranges r order ->
  p ∈ concat (Prefixes <$> order) <-> registered r p.
Proof.
  intros Hr. unfold registered. rewrite elem_of_all_prefixes. split.
  - intros (server & Hs & Hp).
    apply (ranges_elem_of r order server Hr) in Hs as [name Hs]. eauto.
  - intros (name & server & Hs & Hp). exists server. split; [|done].
    apply (ranges_elem_of r order server Hr). eauto.
Qed.

(** What [ServersForPath] returns, in the terms of the table. *)
Lemma ServersForPath_spec (r : Registry) (order1 order2 : list Server)
    (requestPath : string) :
  ranges r order1 -> ranges r order2 ->
  let res := ServersForPath order1 order2 requestPath in
  ((exists p, routes r requestPath p) ->
     routes r requestPath res.1.1 /\
     (forall p, routes r requestPath p -> p ≠ res.1.1 -> len p < len res.1.1) /\
     res.1.2 = filter (fun server => res.1.1 ∈ Prefixes server) order2 /\
     (forall server,
        server ∈ res.1.2 <->
        (exists name, servers r !! name = Some server) /\
        res.1.1 ∈ Prefixes server) /\
     res.2 = true) /\
  ((~ exists p, routes r requestPath p) -> res = (EmptyString, [], false)).
Proof.
  intros Hr1 Hr2 res. subst res. unfold ServersForPath.
  rewrite first_pass_concat, second_pass_filter. simpl.
  set (all := concat (Prefixes <$> order1)).
  destruct (scanPrefixes_spec requestPath all EmptyString) as (H1 & H2 & H3).
  set (longest := scanPrefixes requestPath EmptyString all) in *.
  assert (Hmax : forall p, routes r requestPath p -> len p <= len longest).
  { intros p (Hreg & Hpre & _). apply H3.
    - by apply (ranges_registered r order1 p Hr1).
    - by apply HasPrefix_spec. }
  split.
  - intros [p Hp].
    assert (Hne : longest ≠ EmptyString).
    { intros Heq. rewrite Heq in Hmax. specialize (Hmax p Hp).
      destruct Hp as (_ & _ & Hp). apply Hp, len_0.
      pose proof (len_nonneg p). change (len EmptyString) with 0 in Hmax. lia. }
    destruct H1 as [H1|(Hin & Hpre & Hlen)]; [done|].
    assert (Hroute : routes r requestPath longest).
    { split_and!; [|by apply HasPrefix_spec|done].
      by apply (ranges_registered r order1 longest Hr1). }
    destruct (String.eqb_spec longest EmptyString) as [|_]; [done|].
    assert (Hmem : forall server,
              server ∈ filter (fun server => longest ∈ Prefixes server) order2 <->
              (exists name, servers r !! name = Some server) /\
              longest ∈ Prefixes server).
    { intros server. rewrite list_elem_of_filter.
      rewrite (ranges_elem_of r order2 server Hr2). tauto. }
    split_and!; [done| |done|done|].
    + intros q Hq Hqne. specialize (Hmax q Hq).
      destruct (decide (len q = len longest)) as [Heq|]; [|lia].
      destruct Hqne. destruct Hq as (_ & Hq & _). destruct Hroute as (_ & Hl & _).
      by apply (is_prefix_of_inj q longest requestPath).
    + destruct Hroute as ((name & server & Hs & Hp') & _ & _).
      assert (server ∈ filter (fun server => longest ∈ Prefixes server) order2)
        as Hs' by (apply Hmem; eauto).
      destruct (filter _ order2); [by apply elem_of_nil in Hs'|done].
  - intros Hno.
    destruct H1 as [H1|(Hin & Hpre & Hlen)].
    + rewrite H1. done.
    + destruct Hno. exists longest. split_and!.
      * by apply (ranges_registered r order1 longest Hr1).
      * by apply HasPrefix_spec.
      * intros Heq. rewrite Heq in Hlen. change (len EmptyString) with 0 in Hlen. lia.
Qed.

(** The two orders in which a loop can visit [registry_s1]. *)
Lemma ranges_registry_s1 order :
  ranges registry_s1 order ->
  order = [server_s1; server_s1a] \/ order = [server_s1a; server_s1].
Proof.
  unfold ranges.
  assert ((map_to_list (servers registry_s1)).*2 ≡ₚ [server_s1; server_s1a])
    as -> by (vm_compute; (reflexivity || apply perm_swap)).
  intros H. symmetry in H. by apply Permutation_length_2_inv in H.
Qed.

(** C6 (amended).  For every request path, ServersForPath returns the
    longest registered non-empty prefix that is a string-prefix of the
    path (every other such prefix is strictly shorter), together with
    exactly the servers of the table that registered that exact prefix,
    each once, and found = true; when no non-empty registered prefix
    starts the path the result is the empty prefix, no server, and
    found = false.  In particular, with /s1 and /s1/a registered, the path
    /s1/a/x resolves to /s1/a and its server. *)
Theorem C6_longest_prefix_match :
  (forall (r : Registry) (order1 order2 : list Server) (requestPath : string),
     ranges r order1 -> ranges r order2 ->
     let res := ServersForPath order1 order2 requestPath in
     ((exists p, routes r requestPath p) ->
        routes r requestPath res.1.1 /\
        (forall p, routes r requestPath p -> p ≠ res.1.1 ->
                   len p < len res.1.1) /\
        res.1.2 = filter (fun server => res.1.1 ∈ Prefixes server) order2 /\
        (forall server,
           server ∈ res.1.2 <->
           (exists name, servers r !! name = Some server) /\
           res.1.1 ∈ Prefixes server) /\
        res.2 = true) /\
     ((~ exists p, routes r requestPath p) -> res = (EmptyString, [], false))) /\
  (forall order1 order2,
     ranges registry_s1 order1 -> ranges registry_s1 order2 ->
     ServersForPath order1 order2 "/s1/a/x" = ("/s1/a", [server_s1a], true)).
Proof.
  split; [apply ServersForPath_spec|].
  intros order1 order2 H1 H2.
  destruct (ranges_registry_s1 order1 H1) as [->| ->];
    destruct (ranges_registry_s1 order2 H2) as [->| ->];
    vm_compute; reflexivity.
Qed.

(** C6 as stated fails on the empty prefix: the registry's only server
    registered the prefix [""], which is a string-prefix of [/x] and the
    longest registered one, yet no server is returned. *)
Lemma C6_counterexample_empty_prefix :
  ranges registry_root [server_root] /\
  registered registry_root EmptyString /\
  is_prefix_of EmptyString "/x" /\
  (forall p, registered registry_root p -> p = EmptyString) /\
  filter (fun server => EmptyString ∈ Prefixes server) [server_root]
    = [server_root] /\
  ServersForPath [server_root] [server_root] "/x" = (EmptyString, [], false).
Proof.
  split_and!.
  - unfold ranges. vm_compute. reflexivity.
  - exists "root", server_root. split; [reflexivity|]. simpl. by left.
  - by exists "/x".
  - intros p (name & server & Hs & Hp).
    unfold registry_root in Hs; simpl in Hs.
    destruct (decide (name = "root")) as [->|Hne].
    + rewrite lookup_insert_eq in Hs. injection Hs as <-. simpl in Hp.
      by apply list_elem_of_singleton in Hp.
    + by rewrite lookup_insert_ne, lookup_empty in Hs.
  - reflexivity.
  - reflexivity.
Qed.

Lemma C6_longest_prefix_match_witness :
  let o1 := [server_s1; server_s1a] in
  let o2 := [server_s1a; server_s1] in
  ranges registry_s1 o1 /\ ranges registry_s1 o2 /\
  routes registry_s1 "/s1/a/x" "/s1/a" /\
  ServersForPath o1 o2 "/s1/a/x" = ("/s1/a", [server_s1a], true) /\
  routes registry_s1 "/s1/a/x" (ServersForPath o1 o2 "/s1/a/x").1.1.
Proof.
  assert (H1 : ranges registry_s1 [server_s1; server_s1a])
    by (unfold ranges; vm_compute; (reflexivity || apply perm_swap)).
  assert (H2 : ranges registry_s1 [server_s1a; server_s1])
    by (unfold ranges; vm_compute; (reflexivity || apply perm_swap)).
  assert (H3 : routes registry_s1 "/s1/a/x" "/s1/a").
  { split_and!.
    - exists "two", server_s1a. split; [reflexivity|]. simpl. by left.
    - by exists "/x".
    - discriminate. }
  destruct C6_longest_prefix_match as [Hgen Hex].
  split; [exact H1|]. split; [exact H2|]. split; [exact H3|].
  split; [exact (Hex _ _ H1 H2)|].
  destruct (Hgen registry_s1 _ _ "/s1/a/x" H1 H2) as [Hyes _].
  destruct Hyes as (Hr & _); [by exists "/s1/a"|exact Hr].
Defined.

(** *** Registration *)

Lemma ListRegistered_id order : ListRegistered order = order.
Proof.
  unfold ListRegistered.
  assert (forall acc, foldl (fun servers server => servers ++ [server]) acc order
                      = acc ++ order) as ->; [|done].
  induction order as [|s order IH]; intros acc; simpl.
  - by rewrite app_nil_r.
  - by rewrite IH, <- app_assoc.
Qed.

Lemma session_snoc qs q r : session (qs ++ [q]) r = serve (session qs r) q.
Proof. unfold session. by rewrite foldl_app. Qed.

Lemma serve_keyed r q : keyed r -> keyed (serve r q).
Proof.
  intros Hk name server. destruct q as [s|n]; simpl.
  - unfold Register. destruct (servers r !! Name s) eqn:E; [apply Hk|]. simpl.
    destruct (decide (Name s = name)) as [<-|Hne].
    + rewrite lookup_insert_eq. by intros [= <-].
    + rewrite lookup_insert_ne by done. apply Hk.
  - unfold Deregister. destruct (servers r !! n) eqn:E; [|apply Hk]. simpl.
    intros [_ H]%lookup_delete_Some. by apply Hk.
Qed.

Lemma session_keyed qs : keyed (session qs NewRegistry).
Proof.
  induction qs as [|q qs IH] using rev_ind.
  - intros name server. simpl. by rewrite lookup_empty.
  - rewrite session_snoc. by apply serve_keyed.
Qed.

(** In a table keyed by name, a visiting order lists every name once. *)
Lemma keyed_NoDup_names r order :
  keyed r -> ranges r order -> NoDup (Name <$> order).
Proof.
  intros Hk Hr. unfold ranges in Hr. rewrite Hr. clear Hr.
  assert (Name <$> (map_to_list (servers r)).*2 = (map_to_list (servers r)).*1)
    as ->; [|apply NoDup_fst_map_to_list].
  assert (Forall (fun kv => Name kv.2 = kv.1) (map_to_list (servers r))) as HF.
  { apply Forall_forall. intros [n s] Hin. simpl.
    apply Hk. by apply elem_of_map_to_list. }
  induction HF as [|[n s] l Hx _ IH]; [done|].
  rewrite !fmap_cons. f_equal; [exact Hx|exact IH].
Qed.

(** X10.  In every registry built from an empty one by any sequence of
    [Register] and [Deregister] calls, failed ones included, each server
    is stored under its own name.  So a listing has as many servers as
    the table has entries and no name twice; and the candidates of
    [ServersForPath] have no name twice, even when a server registered a
    prefix more than once, and [GetServer] finds each candidate under
    its name. *)
Theorem X10_one_server_per_name (qs : list Request)
    (order order1 order2 : list Server) (requestPath : string) :
  let r := session qs NewRegistry in
  ranges r order -> ranges r order1 -> ranges r order2 ->
  keyed r /\
  length (GetServers order) = size (servers r) /\
  NoDup (Name <$> GetServers order) /\
  (forall server, server ∈ ListRegistered order <->
                  GetServer (Name server) r = inr server) /\
  let candidates := (ServersForPath order1 order2 requestPath).1.2 in
  NoDup (Name <$> candidates) /\
  (forall server, server ∈ candidates ->
                  GetServer (Name server) r = inr server).
Proof.
  intros r Ho Ho1 Ho2.
  assert (Hk : keyed r) by apply session_keyed.
  assert (Hget : forall server,
            (exists name, servers r !! name = Some server) <->
            GetServer (Name server) r = inr server).
  { intros server. unfold GetServer. split.
    - intros [name Hs]. rewrite (Hk _ _ Hs). by rewrite Hs.
    - destruct (servers r !! Name server) eqn:E; [|done].
      intros [= <-]. by exists (Name s). }
  assert (Hsub : (ServersForPath order1 order2 requestPath).1.2
                 `sublist_of` order2).
  { unfold ServersForPath. simpl.
    destruct (String.eqb _ _); [apply sublist_nil_l|].
    rewrite second_pass_filter. simpl. apply sublist_filter. }
  split; [done|]. unfold GetServers. rewrite ListRegistered_id.
  split_and!.
  - unfold ranges in Ho. rewrite Ho, length_fmap. apply length_map_to_list.
  - by apply keyed_NoDup_names with r.
  - intros server. rewrite <- Hget. by apply ranges_elem_of.
  - apply (sublist_NoDup _ (Name <$> order2)).
    + by apply keyed_NoDup_names with r.
    + by apply fmap_sublist.
  - intros server Hin. apply Hget.
    apply (ranges_elem_of r order2); [done|].
    by apply (elem_of_sublist _ _ _ Hin Hsub).
Qed.

Lemma X10_one_server_per_name_witness :
  let qs := [DoRegister server_s1a; DoRegister server_s1;
             DoRegister (mkServer "one" "http://localhost:9" ["/other"] 5);
             DoDeregister "three"] in
  let o1 := [server_s1; server_s1a] in
  let o2 := [server_s1a; server_s1] in
  session qs NewRegistry = registry_s1 /\
  NoDup (Name <$> GetServers o1) /\
  NoDup (Name <$> (ServersForPath o1 o2 "/s1/a/x").1.2).
Proof.
  intros qs o1 o2.
  assert (Hs : session qs NewRegistry = registry_s1) by reflexivity.
  assert (H1 : ranges (session qs NewRegistry) o1).
  { rewrite Hs. unfold ranges. vm_compute. reflexivity || apply perm_swap. }
  assert (H2 : ranges (session qs NewRegistry) o2).
  { rewrite Hs. unfold ranges. vm_compute. reflexivity || apply perm_swap. }
  destruct (X10_one_server_per_name qs o1 o1 o2 "/s1/a/x" H1 H1 H2)
    as (_ & _ & Hn & _ & Hc & _).
  split; [exact Hs|]. split; [exact Hn|exact Hc].
Defined.

Lemma Register_inr s r r' :
  Register s r = inr r' ->
  servers r !! Name s = None /\ r' = mkRegistry (<[Name s := s]> (servers r)).
Proof.
  unfold Register. destruct (servers r !! Name s); [done|]. by intros [= <-].
Qed.

Lemma Deregister_inr name r r' :
  Deregister name r = inr r' ->
  (exists server, servers r !! name = Some server) /\
  r' = mkRegistry (delete name (servers r)).
Proof.
  unfold Deregister. destruct (servers r !! name) as [server|]; [|done].
  intros [= <-]. split; [by exists server|done].
Qed.

(** X11.  A successful [Register] makes the server retrievable and
    routable, and never overwrites: [GetServer] returns it under its
    name and answers for the other names as before; registering any
    server under the same name again fails; [Deregister] of the name
    gives the old registry back.  Every path that starts with one of
    its non-empty prefixes is routed ([found] is true) to a prefix at
    least as long, and the server is among the candidates whenever its
    prefix is the one selected. *)
Theorem X11_register_makes_routable (s : Server) (r r' : Registry) :
  Register s r = inr r' ->
  GetServer (Name s) r' = inr s /\
  (forall name, name ≠ Name s -> GetServer name r' = GetServer name r) /\
  (forall s2, Name s2 = Name s ->
              Register s2 r' = inl (AlreadyRegistered (Name s))) /\
  Deregister (Name s) r' = inr r /\
  forall p rest order1 order2,
    p ∈ Prefixes s -> p ≠ EmptyString ->
    ranges r' order1 -> ranges r' order2 ->
    let res := ServersForPath order1 order2 (p +:+ rest) in
    res.2 = true /\ len p <= len res.1.1 /\ (res.1.1 = p -> s ∈ res.1.2).
Proof.
  intros [Hnone ->]%Register_inr. split_and!.
  - unfold GetServer. simpl. by rewrite lookup_insert_eq.
  - intros name Hne. unfold GetServer. simpl. by rewrite lookup_insert_ne.
  - intros s2 Hn. unfold Register. simpl. by rewrite Hn, lookup_insert_eq.
  - unfold Deregister. simpl. rewrite lookup_insert_eq.
    rewrite delete_insert_id by done. by destruct r.
  - intros p rest order1 order2 Hp Hne Ho1 Ho2 res.
    assert (Hroute : routes (mkRegistry (<[Name s:=s]> (servers r))) (p +:+ rest) p).
    { split_and!; [|by exists rest|done].
      exists (Name s), s. simpl. by rewrite lookup_insert_eq. }
    destruct (ServersForPath_spec _ order1 order2 (p +:+ rest) Ho1 Ho2)
      as [Hyes _].
    destruct Hyes as (Hr & Hmax & _ & Hin & Hfound); [by exists p|].
    fold res in Hr, Hmax, Hin, Hfound. split_and!; [done| |].
    + destruct (decide (p = res.1.1)) as [<-|Hd]; [lia|].
      specialize (Hmax p Hroute Hd). lia.
    + intros Heq. apply Hin. split; [|by rewrite Heq].
      exists (Name s). simpl. by rewrite lookup_insert_eq.
Qed.

Lemma X11_register_makes_routable_witness :
  let r := mkRegistry (<["two" := server_s1a]> ∅) in
  GetServer "one" registry_s1 = inr server_s1 /\
  Deregister "one" registry_s1 = inr r /\
  (ServersForPath [server_s1; server_s1a] [server_s1; server_s1a] "/s1/b").2
    = true.
Proof.
  intros r.
  destruct (X11_register_makes_routable server_s1 r registry_s1)
    as (Hg & _ & _ & Hd & Hroute); [reflexivity|].
  split; [exact Hg|]. split; [exact Hd|].
  refine (proj1 (Hroute "/s1" "/b" [server_s1; server_s1a]
                   [server_s1; server_s1a] _ _ _ _)).
  - vm_compute. apply list_elem_of_here.
  - discriminate.
  - unfold ranges. vm_compute. reflexivity || apply perm_swap.
  - unfold ranges. vm_compute. reflexivity || apply perm_swap.
Defined.

(** X12.  A successful [Deregister] takes the server out of service.  In
    a registry built by [Register] and [Deregister] calls from an empty
    one: the name is no longer found, a second [Deregister] fails, no
    listing and no candidate list of [ServersForPath], for any path,
    contains a server of that name, the other names answer as before,
    and the name can be registered again. *)
Theorem X12_deregister_takes_out_of_service (qs : list Request)
    (name : string) (r' : Registry) :
  let r := session qs NewRegistry in
  Deregister name r = inr r' ->
  GetServer name r' = inl (NotFound name) /\
  Deregister name r' = inl (DoesNotExist name) /\
  (forall other, other ≠ name -> GetServer other r' = GetServer other r) /\
  (forall order server,
     ranges r' order -> server ∈ ListRegistered order -> Name server ≠ name) /\
  (forall order1 order2 requestPath server,
     ranges r' order1 -> ranges r' order2 ->
     server ∈ (ServersForPath order1 order2 requestPath).1.2 ->
     Name server ≠ name) /\
  (forall s, Name s = name -> exists r'', Register s r' = inr r'' /\
                                          GetServer name r'' = inr s).
Proof.
  intros r Hd.
  assert (Hk' : keyed r').
  { change r' with (match @inr RegistryError _ r' with
                    | inr r0 => r0 | inl _ => r end).
    rewrite <- Hd. apply (serve_keyed r (DoDeregister name)), session_keyed. }
  apply Deregister_inr in Hd as [[old Hold] ->].
  assert (Hnot : forall order server,
            ranges (mkRegistry (delete name (servers r))) order ->
            server ∈ order -> Name server ≠ name).
  { intros order server Ho Hin Heq.
    apply (ranges_elem_of _ _ _ Ho) in Hin as [n Hn].
    pose proof (Hk' _ _ Hn) as Hname. simpl in Hn.
    rewrite <- Heq, Hname in Hn. by rewrite lookup_delete_eq in Hn. }
  split_and!.
  - unfold GetServer. simpl. by rewrite lookup_delete_eq.
  - unfold Deregister. simpl. by rewrite lookup_delete_eq.
  - intros other Hne. unfold GetServer. simpl. by rewrite lookup_delete_ne.
  - intros order server Ho. rewrite ListRegistered_id. by apply Hnot.
  - intros order1 order2 requestPath server Ho1 Ho2 Hin.
    apply (Hnot order2 server Ho2).
    revert Hin. unfold ServersForPath. simpl.
    destruct (String.eqb _ _); [by intros ?%elem_of_nil|].
    rewrite second_pass_filter. simpl.
    by intros [_ ?]%list_elem_of_filter.
  - intros s Hs. eexists. split.
    + unfold Register. simpl. by rewrite Hs, lookup_delete_eq.
    + unfold GetServer. simpl. by rewrite lookup_insert_eq.
Qed.

Lemma X12_deregister_takes_out_of_service_witness :
  let qs := [DoRegister server_s1a; DoRegister server_s1] in
  let r' := mkRegistry (<["two" := server_s1a]> ∅) in
  GetServer "one" r' = inl (NotFound "one") /\
  forall server, server ∈ (ServersForPath [server_s1a] [server_s1a] "/s1/a").1.2 ->
                 Name server ≠ "one".
Proof.
  intros qs r'.
  destruct (X12_deregister_takes_out_of_service qs "one" r')
    as (Hg & _ & _ & _ & Hc & _); [reflexivity|].
  split; [exact Hg|].
  intros server. apply (Hc [server_s1a] [server_s1a] "/s1/a" server).
  - unfold ranges. vm_compute. reflexivity.
  - unfold ranges. vm_compute. reflexivity.
Defined.

(** *** The PostgreSQL registry *)

Lemma pgCollect_collectServer fallback longestPrefix service ps acc :
  pgCollect fallback longestPrefix service ps acc
  = collectServer longestPrefix (toServer fallback service) ps acc.
Proof.
  induction ps as [|p ps IH]; [done|]. simpl.
  destruct (String.eqb p longestPrefix); [|exact IH].
  unfold toServer. by destruct (svc_CreatedAt service).
Qed.

(** X28.  The PostgreSQL registry routes as the in-memory one.  Its
    [ServersForPath] gives what the in-memory [ServersForPath] gives on
    the servers built from the rows, both loops visiting them in the
    order of the one query result.  So the prefix it returns is at least
    as long as every registered prefix that starts the path, and, when
    that prefix is not empty, the candidates are the rows that
    registered it, in the order of the rows, each once.  When the query
    fails the answer is that nothing matches. *)
Theorem X28_postgres_registry_routes_alike (services : list Service)
    (fallback : string -> Time) (requestPath : string) :
  let rows := toServer fallback <$> services in
  PgServersForPath (Some services) fallback requestPath
    = ServersForPath rows rows requestPath /\
  (PgServersForPath (Some services) fallback requestPath).1.2
    = (if String.eqb (PgServersForPath (Some services) fallback requestPath).1.1
            EmptyString
       then []
       else filter (fun server =>
                      (PgServersForPath (Some services) fallback requestPath).1.1
                      ∈ Prefixes server) rows) /\
  (forall p server, server ∈ rows -> p ∈ Prefixes server ->
     is_prefix_of p requestPath ->
     len p <= len (PgServersForPath (Some services) fallback requestPath).1.1) /\
  PgServersForPath None fallback requestPath = (EmptyString, [], false).
Proof.
  intros rows.
  assert (Heq : PgServersForPath (Some services) fallback requestPath
                = ServersForPath rows rows requestPath).
  { unfold PgServersForPath, ServersForPath. subst rows.
    assert (H1 : forall lp,
              foldl (fun longestPrefix service =>
                       foldl (fun longestPrefix prefix =>
                                if HasPrefix requestPath prefix
                                   && (len longestPrefix <? len prefix)
                                then prefix else longestPrefix)
                             longestPrefix (svc_Prefixes service)) lp services
              = foldl (fun longestPrefix server =>
                         scanPrefixes requestPath longestPrefix (Prefixes server))
                      lp (toServer fallback <$> services)).
    { induction services as [|s l IH]; intros lp; [done|].
      rewrite fmap_cons. simpl. by rewrite IH. }
    assert (H2 : forall lp acc,
              foldl (fun matchingServers service =>
                       pgCollect fallback lp service (svc_Prefixes service)
                         matchingServers) acc services
              = foldl (fun matchingServers server =>
                         collectServer lp server (Prefixes server)
                           matchingServers)
                      acc (toServer fallback <$> services)).
    { clear H1. intros lp. induction services as [|s l IH]; intros acc; [done|].
      rewrite fmap_cons. simpl. by rewrite pgCollect_collectServer, IH. }
    by rewrite H1, H2. }
  rewrite Heq. split_and!; [done| | |done].
  - unfold ServersForPath. cbn [fst snd].
    destruct (String.eqb _ EmptyString); [done|].
    by rewrite second_pass_filter.
  - intros p server Hin Hp Hpre. unfold ServersForPath. simpl.
    rewrite first_pass_concat.
    apply (scanPrefixes_spec requestPath (concat (Prefixes <$> rows))
             EmptyString).
    + apply elem_of_all_prefixes. by exists server.
    + by apply HasPrefix_spec.
Qed.

Lemma X28_postgres_registry_routes_alike_witness :
  let rows := [mkService "one" "http://localhost:4200" ["/s1"; "/s1"] None;
               mkService "two" "http://localhost:2200" ["/s1/a"] (Some 7)] in
  PgServersForPath (Some rows) (fun _ => 9) "/s1/x"
    = ("/s1", [mkServer "one" "http://localhost:4200" ["/s1"; "/s1"] 9], true) /\
  len "/s1" <= len (PgServersForPath (Some rows) (fun _ => 9) "/s1/x").1.1.
Proof.
  intros rows. split; [reflexivity|].
  apply (proj1 (proj2 (proj2 (X28_postgres_registry_routes_alike rows
                                (fun _ => 9) "/s1/x")))
           "/s1" (mkServer "one" "http://localhost:4200" ["/s1"; "/s1"] 9)).
  - apply list_elem_of_here.
  - apply list_elem_of_here.
  - by exists "/x".
Defined.

End RegFacts.

(** ** The response cache *)

Module CacheFacts.
Import Cache CacheModel.

(** *** Chains of nodes *)

Lemma first_loc_app cs1 cs2 d :
  first_loc (cs1 ++ cs2) d = first_loc cs1 (first_loc cs2 d).
Proof. by destruct cs1. Qed.

Lemma last_loc_app cs1 cs2 d :
  last_loc (cs1 ++ cs2) d = last_loc cs2 (last_loc cs1 d).
Proof.
  unfold last_loc. rewrite last_app. by destruct (last cs2).
Qed.

Lemma last_loc_cons c cs d : last_loc (c :: cs) d = last_loc cs (Some c.1).
Proof. apply (last_loc_app [c] cs d). Qed.

Lemma last_loc_snoc cs c d : last_loc (cs ++ [c]) d = Some c.1.
Proof. by rewrite last_loc_app. Qed.

(** A list is empty or ends with a last element. *)
Lemma snoc_cases {A} (l : list A) : l = [] \/ exists front x, l = front ++ [x].
Proof.
  induction l as [|x l _] using rev_ind; [by left|right; eauto].
Qed.

Lemma linked_app h p cs1 cs2 nx :
  linked h p (cs1 ++ cs2) nx <->
  linked h p cs1 (first_loc cs2 nx) /\ linked h (last_loc cs1 p) cs2 nx.
Proof.
  revert p. induction cs1 as [|c cs1 IH]; intros p; simpl.
  - tauto.
  - rewrite IH, first_loc_app, last_loc_cons. tauto.
Qed.

(** Writing a node outside a chain leaves the chain alone. *)
Lemma linked_frame h p cs nx l n :
  l ∉ cs.*1 -> linked h p cs nx -> linked (<[l := n]> h) p cs nx.
Proof.
  revert p. induction cs as [|c cs IH]; intros p Hl; simpl; [done|].
  intros [Hc Hcs]. apply not_elem_of_cons in Hl as [Hne Hl]. split.
  - by rewrite lookup_insert_ne.
  - by apply IH.
Qed.

Lemma linked_lookup h p cs nx c :
  linked h p cs nx -> c ∈ cs -> exists n, h !! c.1 = Some n /\ entry_of n = c.2.
Proof.
  revert p. induction cs as [|c' cs IH]; intros p Hl Hc.
  - by apply elem_of_nil in Hc.
  - destruct Hl as [Hc' Hl]. apply elem_of_cons in Hc as [->|Hc].
    + eexists. split; [done|]. by destruct c'.2.
    + eauto.
Qed.

(** Redirecting the [next] pointer of the last node of a chain. *)
Lemma relink_next h p cs q eq nx nx' :
  linked h p (cs ++ [(q, eq)]) nx -> NoDup (cs ++ [(q, eq)]).*1 ->
  h !! q = Some (node_of eq (last_loc cs p) nx) /\
  linked (<[q := set_next nx' (node_of eq (last_loc cs p) nx)]> h) p
    (cs ++ [(q, eq)]) nx'.
Proof.
  intros Hl Hnd. apply linked_app in Hl as [H1 [H2 _]]. simpl in *.
  split; [done|]. apply linked_app. simpl. split_and!; [|by rewrite lookup_insert_eq|done].
  apply linked_frame; [|done].
  rewrite fmap_app in Hnd. apply NoDup_app in Hnd as (_ & Hnd & _).
  intros Hq. apply (Hnd q Hq). by left.
Qed.

(** Redirecting the [prev] pointer of the first node of a chain. *)
Lemma relink_prev h p r er cs nx p' :
  linked h p ((r, er) :: cs) nx -> NoDup ((r, er) :: cs).*1 ->
  h !! r = Some (node_of er p (first_loc cs nx)) /\
  linked (<[r := set_prev p' (node_of er p (first_loc cs nx))]> h) p'
    ((r, er) :: cs) nx.
Proof.
  intros [H1 H2] Hnd. simpl in *. split; [done|].
  split; [by rewrite lookup_insert_eq|].
  apply NoDup_cons in Hnd as [Hr _]. by apply linked_frame.
Qed.

Lemma assign_Some p f rc n :
  nodes rc !! p = Some n ->
  assign p f rc = Some (set_nodes (<[p := f n]> (nodes rc)) rc).
Proof. intros H. unfold assign. by rewrite H. Qed.

Lemma same_frame_refl rc : same_frame rc rc.
Proof. done. Qed.

Lemma dom_insert_present (h : gmap loc Node) l n n' :
  h !! l = Some n -> dom (<[l := n']> h) = dom h.
Proof.
  intros H. apply set_eq. intros x. rewrite dom_insert_L, elem_of_union, elem_of_singleton.
  split; [|by right]. intros [->|]; [|done]. by apply elem_of_dom.
Qed.

(** *** detachNode *)

Lemma detachNode_spec rc cs1 l e cs2 :
  List rc (cs1 ++ (l, e) :: cs2) ->
  exists rc',
    detachNode l rc = Some rc' /\ List rc' (cs1 ++ cs2) /\
    nodes rc' !! l = nodes rc !! l /\ same_frame rc rc'.
Proof.
  intros (Hl & Hh & Ht & Hnd).
  apply linked_app in Hl as [H1 [Hx H2]]. simpl in H1, Hx, H2.
  rewrite fmap_app, fmap_cons in Hnd. simpl in Hnd.
  apply NoDup_app in Hnd as (Hnd1 & Hdisj & Hnd2).
  pose proof Hnd2 as Hnd2'. apply NoDup_cons in Hnd2' as [Hl2 Hnd2'].
  assert (Hl1 : l ∉ cs1.*1) by (intros Hin; apply (Hdisj l Hin); by left).
  unfold detachNode, deref. rewrite Hx. simpl.
  destruct (snoc_cases cs1) as [->|(front & [q eq] & ->)].
  - change (last_loc [] None) with (@None loc) in *.
    simpl in *. rewrite Hx. simpl.
    destruct cs2 as [|[r er] cs2']; simpl in *.
    + eexists. split; [done|]. split; [|done]. by split_and!.
    + destruct (relink_prev (nodes rc) (Some l) r er cs2' None None H2 Hnd2')
        as [Hr Hlk].
      rewrite (assign_Some r _ (set_head (Some r) rc) _ Hr).
      eexists. split; [done|].
      apply not_elem_of_cons in Hl2 as [Hlr Hl2].
      split_and!; simpl.
      * split_and!; simpl; [done|done| |done].
        rewrite Ht. by rewrite !last_loc_cons.
      * by rewrite lookup_insert_ne.
      * split_and!; try done. simpl. by apply (dom_insert_present _ _ _ _ Hr).
  - rewrite last_loc_snoc in *. simpl.
    assert (Hql : q ≠ l).
    { intros ->. apply Hl1. rewrite fmap_app. apply elem_of_app. right. by left. }
    destruct (relink_next (nodes rc) None front q eq (Some l) (first_loc cs2 None)
                H1 Hnd1) as [Hq Hlk].
    rewrite (assign_Some _ _ _ _ Hq). simpl.
    rewrite lookup_insert_ne by done. rewrite Hx. simpl.
    destruct cs2 as [|[r er] cs2']; simpl in *.
    + eexists. split; [done|]. rewrite app_nil_r. split_and!; simpl.
      * split_and!; simpl; [done| |by rewrite last_loc_snoc|done].
        rewrite Hh. by rewrite <- !app_assoc, !first_loc_app.
      * by rewrite lookup_insert_ne.
      * split_and!; try done. simpl. by apply (dom_insert_present _ _ _ _ Hq).
    + apply not_elem_of_cons in Hl2 as [Hlr Hl2].
      assert (Hqr : q ≠ r).
      { intros ->. apply (Hdisj r).
        - rewrite fmap_app. apply elem_of_app. right. by left.
        - right. by left. }
      assert (Hr1 : r ∉ (front ++ [(q, eq)]).*1).
      { intros Hin. apply (Hdisj r Hin). right. by left. }
      assert (Hq2 : q ∉ ((r, er) :: cs2').*1).
      { intros Hin. apply (Hdisj q).
        - rewrite fmap_app. apply elem_of_app. right. by left.
        - by right. }
      destruct (relink_prev (nodes rc) (Some l) r er cs2' None (Some q) H2 Hnd2')
        as [Hr Hlk2].
      assert (Hr' : <[q := set_next (Some r)
                            (node_of eq (last_loc front None) (Some l))]>
                      (nodes rc) !! r
                    = Some (node_of er (Some l) (first_loc cs2' None)))
        by (by rewrite lookup_insert_ne).
      erewrite assign_Some by (simpl; exact Hr'). eexists. split; [done|].
      split_and!; simpl.
      * split_and!; simpl.
        -- apply linked_app. split.
           ++ apply linked_frame; [done|]. exact Hlk.
           ++ rewrite last_loc_snoc. rewrite insert_insert_ne by done.
              apply linked_frame; [done|]. exact Hlk2.
        -- rewrite Hh. by rewrite <- !app_assoc, !first_loc_app.
        -- rewrite Ht. by rewrite !last_loc_app, !last_loc_cons.
        -- rewrite fmap_app. apply NoDup_app. split_and!; [done| |done].
           intros x Hx1 Hx2. apply (Hdisj x Hx1). by right.
      * by rewrite !lookup_insert_ne.
      * split_and!; try done. simpl.
        rewrite (dom_insert_present _ _ _ _ Hr').
        by apply (dom_insert_present _ _ _ _ Hq).
Qed.

Lemma same_frame_trans rc1 rc2 rc3 :
  same_frame rc1 rc2 -> same_frame rc2 rc3 -> same_frame rc1 rc3.
Proof.
  intros (?&?&?&?&?) (?&?&?&?&?). split_and!; congruence.
Qed.

Lemma entry_of_node_of e p n : entry_of (node_of e p n) = e.
Proof. by destruct e. Qed.

(** *** insertAtHead *)

Local Arguments linked : simpl never.

Lemma insertAtHead_spec rc cs l n :
  List rc cs -> l ∉ cs.*1 -> nodes rc !! l = Some n ->
  exists rc',
    insertAtHead l rc = Some rc' /\ List rc' ((l, entry_of n) :: cs) /\
    same_frame rc rc'.
Proof.
  intros (Hl & Hh & Ht & Hnd) Hfresh Hn.
  unfold insertAtHead.
  rewrite (assign_Some _ _ _ _ Hn); simpl.
  erewrite assign_Some by (simpl; apply lookup_insert_eq). simpl.
  rewrite insert_insert_eq.
  assert (Hd : dom (<[l := set_next (head rc) (set_prev None n)]> (nodes rc))
               = dom (nodes rc)) by (by apply (dom_insert_present _ _ _ _ Hn)).
  destruct cs as [|[r er] cs']; simpl in *.
  - rewrite Hh; simpl. rewrite Ht. change (last_loc [] None) with (@None loc).
    eexists. split; [done|]. split_and!; simpl.
    + split_and!; simpl; [|done|done|].
      * split; [|done]. rewrite lookup_insert_eq. by destruct n.
      * apply NoDup_singleton.
    + split_and!; try done. simpl. by apply (dom_insert_present _ _ _ _ Hn).
  - rewrite Hh; simpl.
    apply not_elem_of_cons in Hfresh as [Hlr Hfresh].
    destruct (relink_prev (nodes rc) None r er cs' None (Some l) Hl Hnd)
      as [Hr Hlk].
    erewrite assign_Some by (simpl; rewrite lookup_insert_ne by done; exact Hr).
    assert (exists t, tail rc = Some t) as [t Htail].
    { rewrite Ht, last_loc_cons. unfold last_loc. destruct (last cs'); eauto. }
    simpl. rewrite Htail.
    eexists. split; [done|]. split_and!; simpl.
    + split_and!; simpl.
      * split.
        -- rewrite lookup_insert_ne by done. rewrite lookup_insert_eq.
           by destruct n.
        -- rewrite insert_insert_ne by done.
           apply linked_frame; [|exact Hlk].
           simpl. by apply not_elem_of_cons.
      * done.
      * rewrite Ht. by rewrite !last_loc_cons.
      * apply NoDup_cons. split; [|done]. by apply not_elem_of_cons.
    + split_and!; try done. simpl.
      erewrite dom_insert_present.
      * by apply (dom_insert_present _ _ _ _ Hn).
      * rewrite lookup_insert_ne by done. exact Hr.
Qed.

(** *** moveToHead *)

Lemma moveToHead_spec rc cs1 l e cs2 :
  List rc (cs1 ++ (l, e) :: cs2) ->
  exists rc',
    moveToHead l rc = Some rc' /\ List rc' ((l, e) :: cs1 ++ cs2) /\
    same_frame rc rc'.
Proof.
  intros HL. unfold moveToHead.
  destruct (bool_decide_reflect (Some l = head rc)) as [Hhead|Hhead].
  - exists rc. split; [done|]. split; [|apply same_frame_refl].
    destruct HL as (Hl & Hh & Ht & Hnd).
    destruct cs1 as [|[q eq] cs1']; [done|].
    simpl in Hh. rewrite Hh in Hhead. injection Hhead as ->.
    simpl in Hnd. apply NoDup_cons in Hnd as [Hnd _]. destruct Hnd.
    rewrite fmap_app. apply elem_of_app. right. by left.
  - destruct (detachNode_spec rc cs1 l e cs2 HL) as (rc1 & -> & HL1 & Hx & Hf1).
    simpl.
    destruct HL as (Hl & _ & _ & Hnd).
    apply linked_app in Hl as [_ [Hn _]]. simpl in Hn.
    rewrite Hn in Hx.
    assert (Hfresh : l ∉ (cs1 ++ cs2).*1).
    { rewrite fmap_app in *. simpl in Hnd.
      apply NoDup_app in Hnd as (_ & Hd & Hnd2).
      apply NoDup_cons in Hnd2 as [Hl2 _].
      intros Hin. apply elem_of_app in Hin as [Hin|Hin]; [|done].
      apply (Hd l Hin). by left. }
    destruct (insertAtHead_spec rc1 (cs1 ++ cs2) l _ HL1 Hfresh Hx)
      as (rc2 & -> & HL2 & Hf2).
    exists rc2. split; [done|]. rewrite entry_of_node_of in HL2.
    split; [done|]. by apply (same_frame_trans rc rc1 rc2).
Qed.

(** *** The recency list and the hash index *)

Lemma index_fst cs : (index cs).*1 = keys cs.*2.
Proof.
  unfold index, keys. rewrite <- !list_fmap_compose. done.
Qed.

Lemma keys_app es1 es2 : keys (es1 ++ es2) = keys es1 ++ keys es2.
Proof. unfold keys. by rewrite fmap_app. Qed.

Lemma total_app es1 es2 : total (es1 ++ es2) = total es1 + total es2.
Proof. induction es1 as [|e es1 IH]; simpl; lia. Qed.

Lemma cost_pos k v : 64 <= cost k v.
Proof. unfold cost, len_string, len_bytes, nodeOverhead. lia. Qed.

Lemma total_nonneg es : Forall sized es -> 0 <= total es.
Proof.
  induction 1 as [|e es He _ IH]; simpl; [lia|].
  unfold sized in He. pose proof (cost_pos (e_key e) (e_value e)). lia.
Qed.

Lemma approximateSize_cost k v :
  cost k v <= max_int -> approximateSize k v = cost k v.
Proof.
  intros H. unfold approximateSize. pose proof (cost_pos k v).
  unfold cost, nodeOverhead, len_string, len_bytes, min_int, max_int in *.
  rewrite (wrap_int_id (Z.of_nat (String.length k) + Z.of_nat (length v)))
    by (unfold min_int, max_int; lia).
  apply wrap_int_id. unfold min_int, max_int; lia.
Qed.

Lemma remove_key_id k es : k ∉ keys es -> remove_key k es = es.
Proof.
  unfold remove_key. induction es as [|e es IH]; simpl; [done|].
  intros Hk. apply not_elem_of_cons in Hk as [Hne Hk].
  rewrite filter_cons_True by done. by rewrite IH.
Qed.

Lemma find_key_None k es : k ∉ keys es -> find_key k es = None.
Proof.
  unfold find_key. induction es as [|e es IH]; simpl; [done|].
  intros Hk. apply not_elem_of_cons in Hk as [Hne Hk].
  destruct (String.eqb_spec (e_key e) k); [congruence|auto].
Qed.

(** With distinct keys, the entry of key [k] splits the list. *)
Lemma find_key_middle k es1 e es2 :
  k ∉ keys es1 -> e_key e = k -> find_key k (es1 ++ e :: es2) = Some e.
Proof.
  unfold find_key. intros Hk He.
  induction es1 as [|e1 es1 IH]; simpl.
  - destruct (String.eqb_spec (e_key e) k); [done|congruence].
  - apply not_elem_of_cons in Hk as [Hne Hk].
    destruct (String.eqb_spec (e_key e1) k); [congruence|auto].
Qed.

Lemma remove_key_middle k es1 e es2 :
  k ∉ keys es1 -> k ∉ keys es2 -> e_key e = k ->
  remove_key k (es1 ++ e :: es2) = es1 ++ es2.
Proof.
  intros H1 H2 He. unfold remove_key.
  rewrite filter_app, filter_cons_False by (intros H; by apply H).
  f_equal; by apply remove_key_id.
Qed.

(** The keys around an entry of a list with distinct keys. *)
Lemma NoDup_keys_middle es1 e es2 :
  NoDup (keys (es1 ++ e :: es2)) ->
  (e_key e ∉ keys es1) /\ (e_key e ∉ keys es2) /\ NoDup (keys (es1 ++ es2)).
Proof.
  rewrite !keys_app. simpl. intros Hnd.
  apply NoDup_app in Hnd as (Hnd1 & Hd & Hnd2).
  apply NoDup_cons in Hnd2 as [Hk2 Hnd2]. split_and!.
  - intros Hin. apply (Hd _ Hin). by left.
  - done.
  - apply NoDup_app. split_and!; [done| |done].
    intros x Hx1 Hx2. apply (Hd x Hx1). by right.
Qed.

Lemma NoDup_locs_middle (cs1 : list (loc * Entry)) c cs2 :
  NoDup (cs1 ++ c :: cs2).*1 ->
  (c.1 ∉ cs1.*1) /\ (c.1 ∉ cs2.*1) /\ NoDup (cs1 ++ cs2).*1.
Proof.
  rewrite !fmap_app. simpl. intros Hnd.
  apply NoDup_app in Hnd as (Hnd1 & Hd & Hnd2).
  apply NoDup_cons in Hnd2 as [Hk2 Hnd2]. split_and!.
  - intros Hin. apply (Hd _ Hin). by left.
  - done.
  - apply NoDup_app. split_and!; [done| |done].
    intros x Hx1 Hx2. apply (Hd x Hx1). by right.
Qed.

(** The hash index finds the cell of a key. *)
Lemma index_lookup cs k l :
  NoDup (keys cs.*2) ->
  (list_to_map (index cs) : gmap string loc) !! k = Some l ->
  exists cs1 e cs2, cs = cs1 ++ (l, e) :: cs2 /\ e_key e = k.
Proof.
  intros Hnd Hk.
  apply elem_of_list_to_map in Hk; [|by rewrite index_fst].
  apply list_elem_of_fmap in Hk as ([l' e] & [= -> ->] & Hin).
  apply list_elem_of_split in Hin as (cs1 & cs2 & ->). by exists cs1, e, cs2.
Qed.

Lemma index_lookup_None cs k :
  (list_to_map (index cs) : gmap string loc) !! k = None -> k ∉ keys cs.*2.
Proof.
  intros H. apply not_elem_of_list_to_map in H. by rewrite index_fst in H.
Qed.

(** Moving a cell to the front does not change the hash index. *)
Lemma index_move_front cs1 c cs2 :
  NoDup (keys (cs1 ++ c :: cs2).*2) ->
  (list_to_map (index (c :: cs1 ++ cs2)) : gmap string loc)
    = list_to_map (index (cs1 ++ c :: cs2)).
Proof.
  intros Hnd. symmetry. apply list_to_map_proper.
  - by rewrite index_fst.
  - unfold index. apply fmap_Permutation. symmetry. apply Permutation_middle.
Qed.

(** Deleting the key of a cell from the hash index. *)
Lemma index_delete cs1 l e cs2 :
  NoDup (keys (cs1 ++ (l, e) :: cs2).*2) ->
  delete (e_key e) (list_to_map (index (cs1 ++ (l, e) :: cs2)) : gmap string loc)
    = list_to_map (index (cs1 ++ cs2)).
Proof.
  intros Hnd. rewrite <- (index_move_front cs1 (l, e) cs2) by done.
  simpl. apply delete_insert_id. apply not_elem_of_list_to_map.
  rewrite index_fst. rewrite fmap_app in *. simpl in Hnd.
  apply NoDup_keys_middle in Hnd as (H1 & H2 & _).
  rewrite keys_app. rewrite elem_of_app. tauto.
Qed.


Lemma Forall_sized_middle es1 e es2 :
  Forall sized (es1 ++ e :: es2) ->
  sized e /\ Forall sized (es1 ++ es2) /\
  0 <= total es1 /\ 0 <= total es2 /\ 64 <= e_size e.
Proof.
  intros H. apply Forall_app in H as [H1 H2].
  apply Forall_cons in H2 as [He H2]. split_and!.
  - done.
  - by apply Forall_app.
  - by apply total_nonneg.
  - by apply total_nonneg.
  - rewrite He. apply cost_pos.
Qed.

(** *** Get *)

Lemma Get_refines rc es k now :
  Rep rc es ->
  exists rc',
    Get k now rc = Some ((AGet k now es).1, rc') /\
    Rep rc' (AGet k now es).2 /\
    maxBytes rc' = maxBytes rc /\ ttl rc' = ttl rc /\
    items rc' =
      match find_key k es with
      | Some e => if After now (e_expires e) then delete k (items rc)
                  else items rc
      | None => items rc
      end /\
    usedBytes rc' <= usedBytes rc.
Proof.
  intros (cs & <- & HL & Hitems & Hnd & Hused & Hsized & Hmax).
  unfold Get, AGet. destruct (items rc !! k) as [l|] eqn:Hk.
  - rewrite Hitems in Hk.
    destruct (index_lookup cs k l Hnd Hk) as (cs1 & e & cs2 & -> & He).
    pose proof Hnd as Hnd0.
    rewrite fmap_app in Hnd, Hsized, Hused, Hmax |- *.
    rewrite fmap_cons in Hnd, Hsized, Hused, Hmax |- *. simpl in *.
    destruct (NoDup_keys_middle _ _ _ Hnd) as (Hk1 & Hk2 & Hnd').
    rewrite He in Hk1, Hk2.
    destruct (Forall_sized_middle _ _ _ Hsized) as (Hse & Hsized' & Ht1 & Ht2 & He64).
    rewrite total_app in Hused, Hmax. simpl in Hused, Hmax.
    rewrite (find_key_middle k _ e _ Hk1 He).
    rewrite (remove_key_middle k _ e _ Hk1 Hk2 He).
    pose proof HL as (Hl & _). apply linked_app in Hl as [_ [Hx _]].
    simpl in Hx. unfold deref. rewrite Hx. simpl.
    destruct (After now (e_expires e)) eqn:Hexp; simpl.
    + destruct (detachNode_spec rc cs1 l e cs2 HL)
        as (rc1 & -> & HL1 & Hx1 & (Hi & Hu & Hm & Ht & Hd)).
      simpl. rewrite Hx1, Hx. simpl.
      eexists. split; [done|]. split_and!; simpl; [|done|done|by rewrite Hi|].
      2:{ rewrite Hu, Hused.
          rewrite wrap_int_id by (unfold min_int, max_int in *; lia). lia. }
      exists (cs1 ++ cs2). split_and!; simpl.
      * by rewrite fmap_app.
      * exact HL1.
      * rewrite Hi, Hitems, <- He. by apply index_delete.
      * done.
      * rewrite Hu, Hused, total_app.
        rewrite wrap_int_id by (unfold min_int, max_int in *; lia). lia.
      * done.
      * rewrite total_app. lia.
    + destruct (moveToHead_spec rc cs1 l e cs2 HL)
        as (rc1 & -> & HL1 & (Hi & Hu & Hm & Ht & Hd)).
      simpl. pose proof HL1 as (Hl1 & _). destruct Hl1 as [Hx1 _].
      simpl in Hx1. rewrite Hx1. simpl.
      eexists. split; [done|]. split_and!; simpl; [|done|done|done|lia].
      exists ((l, e) :: cs1 ++ cs2). split_and!; simpl.
      * by rewrite fmap_app.
      * exact HL1.
      * rewrite Hi, Hitems. symmetry. by apply (index_move_front cs1 (l, e) cs2).
      * apply NoDup_cons. split; [|done]. rewrite He, keys_app, elem_of_app. tauto.
      * rewrite Hu, Hused, total_app. lia.
      * by apply Forall_cons.
      * rewrite total_app. lia.
  - rewrite Hitems in Hk. apply index_lookup_None in Hk.
    rewrite (find_key_None k _ Hk). simpl.
    eexists. split; [done|]. split_and!; try done.
    by exists cs.
Qed.

(** *** evictToCapacity *)

Lemma evictLoop_refines fuel rc es :
  Rep rc es -> (length es <= fuel)%nat ->
  exists rc',
    evictLoop fuel rc = Some rc' /\
    Rep rc' (aevict_loop fuel (maxBytes rc) es) /\
    maxBytes rc' = maxBytes rc /\ ttl rc' = ttl rc.
Proof.
  revert rc es. induction fuel as [|fuel IH]; intros rc es HR Hlen.
  - destruct es; [|simpl in Hlen; lia].
    destruct HR as (cs & Hes & HL & Hrest). destruct cs; [|done].
    pose proof HL as (_ & _ & Ht & _). simpl.
    rewrite Ht. change (last_loc [] None) with (@None loc).
    rewrite (bool_decide_eq_false_2 (@None loc ≠ None)) by (intros H; by apply H).
    rewrite andb_false_r. exists rc. split_and!; try done. by exists [].
  - pose proof HR as (cs & <- & HL & Hitems & Hnd & Hused & Hsized & Hmax).
    pose proof HL as (_ & _ & Ht & _).
    destruct (snoc_cases cs) as [->|(csf & [t e] & ->)].
    + simpl. rewrite Ht. change (last_loc [] None) with (@None loc).
      rewrite (bool_decide_eq_false_2 (@None loc ≠ None)) by (intros H; by apply H).
      rewrite !andb_false_r. exists rc. by split_and!.
    + rewrite last_loc_snoc in Ht. simpl in Ht.
      rewrite fmap_app in HR, Hlen, Hnd, Hused, Hsized, Hmax |- *.
      simpl in HR, Hlen, Hnd, Hused, Hsized, Hmax |- *.
      rewrite Ht, Hused.
      assert (bool_decide (Some t ≠ None) = true) as -> by done.
      assert (bool_decide (csf.*2 ++ [e] ≠ []) = true) as ->.
      { apply bool_decide_eq_true. by destruct (csf.*2). }
      rewrite !andb_true_r.
      destruct (maxBytes rc <? total (csf.*2 ++ [e])) eqn:Hover.
      2:{ exists rc. by split_and!. }
      simpl.
      destruct (NoDup_keys_middle _ _ _ Hnd) as (Hk1 & _ & Hnd').
      destruct (Forall_sized_middle _ _ _ Hsized) as (Hse & Hsized' & Ht1 & _ & He64).
      rewrite total_app in Hmax. simpl in Hmax.
      destruct (detachNode_spec rc csf t e [] HL)
        as (rc1 & -> & HL1 & Hx1 & (Hi & Hu & Hm & Htt & Hd)).
      pose proof HL as (Hl & _). apply linked_app in Hl as [_ [Hx _]].
      simpl in Hx. simpl. unfold deref. rewrite Hx1, Hx. simpl.
      rewrite Hx1, Hx. simpl.
      rewrite removelast_last. rewrite app_nil_r in *.
      match goal with |- exists rc', evictLoop fuel ?r = _ /\ _ =>
        destruct (IH r (csf.*2)) as (rc' & Hev & HR' & Hm' & Ht')
      end.
      * exists csf. split_and!; simpl.
        -- done.
        -- exact HL1.
        -- rewrite Hi, Hitems. rewrite <- (app_nil_r csf) at 2.
           apply (index_delete csf t e []).
           rewrite fmap_app. simpl. exact Hnd.
        -- done.
        -- rewrite Hu, Hused, total_app. simpl.
           rewrite wrap_int_id by (unfold min_int, max_int in *; lia). lia.
        -- done.
        -- lia.
      * rewrite length_app in Hlen. simpl in Hlen. lia.
      * exists rc'. simpl in *. rewrite Hm in *.
        split_and!; [done|done|congruence|congruence].
Qed.

Lemma Rep_size_items rc es : Rep rc es -> size (items rc) = length es.
Proof.
  intros (cs & <- & HL & -> & Hnd & _).
  rewrite map_size_list_to_map by (by rewrite index_fst).
  unfold index. by rewrite !length_fmap.
Qed.

Lemma evictToCapacity_returns rc es :
  Rep rc es ->
  exists rc',
    evictToCapacity rc = Some rc' /\
    Rep rc' (aevict (maxBytes rc) es) /\
    maxBytes rc' = maxBytes rc /\ ttl rc' = ttl rc.
Proof.
  intros HR. unfold evictToCapacity, aevict.
  rewrite (Rep_size_items rc es HR). by apply evictLoop_refines.
Qed.

(** *** Store *)

Lemma linked_dom h p cs nx x : linked h p cs nx -> x ∈ cs.*1 -> x ∈ dom h.
Proof.
  intros Hl Hx. apply list_elem_of_fmap in Hx as (c & -> & Hc).
  destruct (linked_lookup h p cs nx c Hl Hc) as (n & Hn & _).
  apply elem_of_dom. eauto.
Qed.

(** Overwriting the contents of a node of the list in place. *)
Lemma List_update rc cs1 l e cs2 e' :
  List rc (cs1 ++ (l, e) :: cs2) ->
  List (set_nodes
          (<[l := node_of e' (last_loc cs1 None) (first_loc cs2 None)]> (nodes rc))
          rc)
       (cs1 ++ (l, e') :: cs2).
Proof.
  intros (Hl & Hh & Ht & Hnd).
  destruct (NoDup_locs_middle cs1 (l, e) cs2 Hnd) as (H1 & H2 & _).
  simpl in H1, H2.
  apply linked_app in Hl as [Hl1 [Hx Hl2]]. simpl in Hl1, Hl2.
  split_and!; simpl.
  - apply linked_app. split; [by apply linked_frame|].
    split; [by rewrite lookup_insert_eq|by apply linked_frame].
  - rewrite Hh. by rewrite !first_loc_app.
  - rewrite Ht. by rewrite !last_loc_app, !last_loc_cons.
  - rewrite fmap_app in *. done.
Qed.

Lemma Store_refines rc es k v now :
  Rep rc es -> total es + cost k v <= max_int ->
  exists rc',
    Store k v now rc = Some rc' /\
    Rep rc' (AStore k v now (ttl rc) (maxBytes rc) es) /\
    maxBytes rc' = maxBytes rc /\ ttl rc' = ttl rc.
Proof.
  intros (cs & <- & HL & Hitems & Hnd & Hused & Hsized & Hmax) Hfit.
  pose proof (total_nonneg _ Hsized) as Hpos.
  pose proof (cost_pos k v) as Hc64.
  unfold Store, AStore. rewrite approximateSize_cost by lia.
  set (e' := mkEntry k v (cost k v) (now + ttl rc)).
  match goal with |- exists rc', ?m ≫= _ = _ /\ _ =>
    assert (exists rc1, m = Some rc1 /\ Rep rc1 (e' :: remove_key k cs.*2) /\
                        maxBytes rc1 = maxBytes rc /\ ttl rc1 = ttl rc)
      as (rc1 & -> & HR1 & Hm1 & Ht1)
  end.
  2:{ simpl. destruct (evictToCapacity_returns rc1 _ HR1)
        as (rc' & Hev & HR' & Hm' & Ht').
      exists rc'. rewrite Hm1 in HR'. split_and!; [done|done|congruence..]. }
  destruct (items rc !! k) as [l|] eqn:Hk.
  - rewrite Hitems in Hk.
    destruct (index_lookup cs k l Hnd Hk) as (cs1 & e & cs2 & -> & He).
    pose proof Hnd as Hnd0.
    rewrite fmap_app in Hnd, Hsized, Hused, Hmax, Hfit, Hpos |- *.
    rewrite fmap_cons in Hnd, Hsized, Hused, Hmax, Hfit, Hpos |- *. simpl in *.
    destruct (NoDup_keys_middle _ _ _ Hnd) as (Hk1 & Hk2 & Hnd').
    rewrite He in Hk1, Hk2.
    destruct (Forall_sized_middle _ _ _ Hsized) as (Hse & Hsized' & Hp1 & Hp2 & He64).
    rewrite total_app in Hused, Hmax, Hfit. simpl in Hused, Hmax, Hfit.
    rewrite (remove_key_middle k _ e _ Hk1 Hk2 He).
    pose proof HL as (Hl & _). apply linked_app in Hl as [_ [Hx _]].
    simpl in Hx. unfold deref. rewrite Hx. simpl.
    erewrite assign_Some by (simpl; exact Hx). simpl.
    erewrite assign_Some by (simpl; apply lookup_insert_eq). simpl.
    erewrite assign_Some by (simpl; apply lookup_insert_eq). simpl.
    rewrite !insert_insert_eq.
    pose proof (List_update rc cs1 l e cs2 e' HL) as HLu.
    match goal with |- exists rc1, moveToHead l ?r ≫= _ = _ /\ _ =>
      destruct (moveToHead_spec r cs1 l e' cs2) as (rc2 & -> & HL2 & HF2)
    end.
    { unfold e', node_of in HLu |- *. simpl in HLu |- *. rewrite He. exact HLu. }
    destruct HF2 as (Hi & Hu & Hm & Ht & Hd). simpl in Hi, Hu, Hm, Ht.
    simpl. eexists. split; [done|]. split_and!; simpl; [|done..].
    exists ((l, e') :: cs1 ++ cs2). split_and!; simpl.
    + by rewrite fmap_app.
    + exact HL2.
    + rewrite Hi, Hitems.
      rewrite <- (index_move_front cs1 (l, e) cs2) by done.
      simpl. by rewrite He.
    + apply NoDup_cons. split; [|done]. rewrite keys_app, elem_of_app. tauto.
    + rewrite Hu, Hused, total_app.
      rewrite (wrap_int_id (_ - _)) by (unfold min_int, max_int in *; lia).
      rewrite wrap_int_id by (unfold min_int, max_int in *; lia). lia.
    + apply Forall_cons. split; [done|done].
    + rewrite total_app. lia.
  - rewrite Hitems in Hk. apply index_lookup_None in Hk.
    rewrite (remove_key_id k _ Hk).
    set (l := fresh (dom (nodes rc))).
    assert (Hl : l ∉ dom (nodes rc)) by apply is_fresh.
    assert (Hlcs : l ∉ cs.*1).
    { intros Hin. apply Hl. destruct HL as (Hlk & _).
      by apply (linked_dom _ _ _ _ _ Hlk). }
    match goal with |- exists rc1, insertAtHead l ?r ≫= _ = _ /\ _ =>
      destruct (insertAtHead_spec r cs l
                  (mkNode k v (cost k v) (now + ttl rc) None None))
        as (rc2 & -> & HL2 & HF2)
    end.
    { destruct HL as (Hlk & Hh & Ht & Hnd1). split_and!; simpl; try done.
      by apply linked_frame. }
    { done. }
    { simpl. apply lookup_insert_eq. }
    destruct HF2 as (Hi & Hu & Hm & Ht & Hd). simpl in Hi, Hu, Hm, Ht.
    simpl. eexists. split; [done|]. split_and!; simpl; [|done..].
    exists ((l, e') :: cs). split_and!; simpl.
    + done.
    + exact HL2.
    + rewrite Hi, Hitems. done.
    + apply NoDup_cons. split; [done|done].
    + rewrite Hu, Hused.
      rewrite wrap_int_id by (unfold min_int, max_int in *; lia). lia.
    + apply Forall_cons. split; [done|done].
    + lia.
Qed.

(** *** The eviction loop on the list *)

Lemma aevict_loop_within fuel m es :
  (length es <= fuel)%nat ->
  total (aevict_loop fuel m es) <= m \/ aevict_loop fuel m es = [].
Proof.
  revert es. induction fuel as [|fuel IH]; intros es Hlen; simpl.
  - right. destruct es; [done|simpl in Hlen; lia].
  - destruct (Z.ltb_spec m (total es)) as [Hover|Hfit]; simpl; [|by left].
    destruct (snoc_cases es) as [->|(front & e & ->)].
    + by right.
    + rewrite bool_decide_eq_true_2 by (by destruct front).
      rewrite removelast_last. apply IH.
      rewrite length_app in Hlen. simpl in Hlen. lia.
Qed.

(** What is kept is an initial segment of the list. *)
Lemma aevict_loop_prefix fuel m es :
  exists dropped, es = aevict_loop fuel m es ++ dropped.
Proof.
  revert es. induction fuel as [|fuel IH]; intros es; simpl.
  - exists []. by rewrite app_nil_r.
  - destruct ((m <? total es) && bool_decide (es ≠ [])) eqn:Hc.
    2:{ exists []. by rewrite app_nil_r. }
    destruct (snoc_cases es) as [->|(front & e & ->)].
    + apply andb_true_iff in Hc as [_ Hc].
      apply bool_decide_eq_true in Hc. done.
    + rewrite removelast_last. destruct (IH front) as [dropped Hd].
      exists (dropped ++ [e]). rewrite app_assoc. by rewrite <- Hd.
Qed.

Lemma aevict_keep m es : total es <= m -> aevict m es = es.
Proof.
  intros H. unfold aevict. destruct (length es); simpl; [done|].
  destruct (Z.ltb_spec m (total es)); [lia|done].
Qed.

Lemma aevict_drop_last m es e :
  m < total (es ++ [e]) -> aevict m (es ++ [e]) = aevict m es.
Proof.
  intros H. unfold aevict. rewrite length_app, Nat.add_comm. simpl.
  destruct (Z.ltb_spec m (total (es ++ [e]))); [|lia].
  rewrite bool_decide_eq_true_2 by (by destruct es). simpl.
  by rewrite removelast_last.
Qed.

(** *** What a well-formed cache shows *)

Lemma Rep_new ttl maxBytes : Rep (NewResponseCache ttl maxBytes) [].
Proof.
  exists []. split_and!; try done.
  - split_and!; try done. apply NoDup_nil_2.
  - apply NoDup_nil_2.
Qed.

Lemma Rep_lookup_None rc es k : Rep rc es -> items rc !! k = None <-> k ∉ keys es.
Proof.
  intros (cs & <- & _ & -> & Hnd & _).
  rewrite <- not_elem_of_list_to_map. by rewrite index_fst.
Qed.

Lemma Rep_lookup_Some rc es k :
  Rep rc es -> is_Some (items rc !! k) <-> k ∈ keys es.
Proof.
  intros HR. rewrite <- not_eq_None_Some, (Rep_lookup_None rc es k HR).
  destruct (decide (k ∈ keys es)); tauto.
Qed.

Lemma walk_linked fuel h rc p cs :
  nodes rc = h -> linked h p cs None -> (length cs <= fuel)%nat ->
  walk fuel (first_loc cs None) rc = Some (keys cs.*2).
Proof.
  intros <-. revert p cs. induction fuel as [|fuel IH]; intros p cs Hl Hlen.
  - destruct cs; [done|simpl in Hlen; lia].
  - destruct cs as [|[l e] cs]; [done|]. destruct Hl as [Hx Hl].
    simpl in *. unfold deref. rewrite Hx. simpl.
    rewrite (IH (Some l) cs Hl) by lia. done.
Qed.

(** The keys read from [head] along the [next] pointers are the
    recency list. *)
Lemma Rep_recency rc es : Rep rc es -> recency rc = Some (keys es).
Proof.
  intros HR. unfold recency. rewrite (Rep_size_items rc es HR).
  destruct HR as (cs & <- & (Hl & Hh & _) & _).
  rewrite Hh. apply (walk_linked _ (nodes rc) rc None cs eq_refl Hl).
  by rewrite length_fmap.
Qed.

Lemma sumZ_perm (f : string * loc -> Z) l1 l2 :
  l1 ≡ₚ l2 ->
  foldr (fun kl acc => f kl + acc) 0 l1 = foldr (fun kl acc => f kl + acc) 0 l2.
Proof. induction 1; simpl; lia. Qed.

(** The tracked counter is the sum of the costs of the entries of the
    hash index. *)
Lemma Rep_liveCost rc es : Rep rc es -> usedBytes rc = liveCost rc.
Proof.
  intros (cs & <- & (Hl & _) & Hitems & Hnd & -> & Hsized & _).
  unfold liveCost. rewrite Hitems.
  rewrite (sumZ_perm (entryCost rc) _ (index cs))
    by (apply map_to_list_to_map; by rewrite index_fst).
  revert Hl Hsized. generalize (@None loc) at 1. clear Hitems Hnd.
  induction cs as [|[l e] cs IH]; intros p Hl Hsized; simpl; [done|].
  destruct Hl as [Hx Hl]. simpl in Hx.
  apply Forall_cons in Hsized as [He Hsized].
  rewrite <- (IH (Some l) Hl Hsized).
  unfold entryCost. simpl. rewrite Hx. simpl. by rewrite He.
Qed.

(** *** Sequences of Store and Get *)

Lemma step_invariant maxB o rc es :
  Rep rc es -> maxBytes rc = maxB -> 0 <= maxB -> usedBytes rc <= maxB ->
  fits maxB o ->
  exists rc' es',
    step rc o = Some rc' /\ Rep rc' es' /\ maxBytes rc' = maxB /\
    usedBytes rc' <= maxB.
Proof.
  intros HR Hm H0 Hu Hfit. destruct o as [k v now|k now]; simpl in *.
  - pose proof HR as (cs & _ & _ & _ & _ & Hused & _).
    destruct (Store_refines rc es k v now HR) as (rc' & -> & HR' & Hm' & _);
      [lia|].
    exists rc', (AStore k v now (ttl rc) (maxBytes rc) es).
    split_and!; [done|done|congruence|].
    pose proof HR' as (cs' & _ & _ & _ & _ & -> & _).
    unfold AStore, aevict.
    match goal with |- total (aevict_loop (length ?l) _ _) <= _ =>
      destruct (aevict_loop_within (length l) (maxBytes rc) l) as [H| ->];
        [done|lia|simpl; lia]
    end.
  - destruct (Get_refines rc es k now HR) as (rc' & -> & HR' & Hm' & _ & _ & Hle).
    exists rc', (AGet k now es).2. simpl. split_and!; [done|done|congruence|lia].
Qed.

Lemma run_invariant maxB ops rc es :
  Rep rc es -> maxBytes rc = maxB -> 0 <= maxB -> usedBytes rc <= maxB ->
  Forall (fits maxB) ops ->
  exists rc' es',
    run ops rc = Some rc' /\ Rep rc' es' /\ maxBytes rc' = maxB /\
    usedBytes rc' <= maxB.
Proof.
  intros HR Hm H0 Hu Hfit. revert rc es HR Hm Hu.
  induction Hfit as [|o ops Ho _ IH]; intros rc es HR Hm Hu; simpl.
  - by exists rc, es.
  - destruct (step_invariant maxB o rc es HR Hm H0 Hu Ho)
      as (rc1 & es1 & -> & HR1 & Hm1 & Hu1).
    simpl. by apply (IH rc1 es1).
Qed.

(** C2.  Run any sequence of Store and Get on a new cache with a
    non-negative byte budget, every stored entry having a cost that
    fits above the budget in an [int].  Every call returns, and at
    every point of the sequence the tracked used-byte counter equals
    the sum of the costs len(key)+len(value)+64 of the entries of the
    hash index, and does not exceed the budget; in particular it does
    not exceed the budget immediately after any Store. *)
Theorem C2_used_bytes_invariant (ttl maxBytes : Z) (ops : list Op) :
  0 <= maxBytes -> Forall (fits maxBytes) ops ->
  forall pre post, ops = pre ++ post ->
  exists rc,
    run pre (NewResponseCache ttl maxBytes) = Some rc /\
    usedBytes rc = liveCost rc /\
    usedBytes rc <= maxBytes.
Proof.
  intros H0 Hfit pre post ->. apply Forall_app in Hfit as [Hfit _].
  destruct (run_invariant maxBytes pre (NewResponseCache ttl maxBytes) []
              (Rep_new ttl maxBytes) eq_refl H0 H0 Hfit)
    as (rc & es & Hrun & HR & _ & Hu).
  exists rc. split_and!; [done| |done]. by apply (Rep_liveCost rc es).
Qed.

Lemma C2_used_bytes_invariant_witness :
  let v := replicate 35 Byte.x00 in
  let ops := [OpStore "A" v 0; OpStore "B" v 1; OpGet "A" 2; OpStore "C" v 3] in
  0 <= 250 /\ Forall (fits 250) ops /\
  exists rc,
    run ops (NewResponseCache 1000 250) = Some rc /\
    usedBytes rc = liveCost rc /\ usedBytes rc <= 250.
Proof.
  assert (Hfit : Forall (fits 250)
            [OpStore "A" (replicate 35 Byte.x00) 0;
             OpStore "B" (replicate 35 Byte.x00) 1; OpGet "A" 2;
             OpStore "C" (replicate 35 Byte.x00) 3]).
  { repeat constructor; vm_compute; intros H; discriminate H. }
  split; [lia|]. split; [exact Hfit|].
  apply (C2_used_bytes_invariant 1000 250 _ ltac:(lia) Hfit _ []).
  by rewrite app_nil_r.
Defined.

(** *** Expiry on Get *)

Lemma keys_remove_key k es :
  keys (remove_key k es) = filter (fun x => x ≠ k) (keys es).
Proof.
  unfold keys, remove_key. induction es as [|e es IH]; [done|].
  rewrite fmap_cons, !filter_cons.
  destruct (decide (e_key e ≠ k)); [|done].
  rewrite fmap_cons. by rewrite IH.
Qed.

(** The entry that the hash index and the store give for a key is the
    entry of that key in the recency list. *)
Lemma Rep_find rc es k l n :
  Rep rc es -> items rc !! k = Some l -> nodes rc !! l = Some n ->
  find_key k es = Some (entry_of n) /\ key n = k.
Proof.
  intros (cs & <- & HL & Hitems & Hnd & _) Hk Hn.
  rewrite Hitems in Hk.
  destruct (index_lookup cs k l Hnd Hk) as (cs1 & e & cs2 & -> & He).
  destruct HL as (Hl & _). apply linked_app in Hl as [_ [Hx _]].
  simpl in Hx. rewrite Hx in Hn. injection Hn as <-.
  rewrite entry_of_node_of. simpl. split; [|done].
  rewrite fmap_app in *. simpl in *.
  destruct (NoDup_keys_middle _ _ _ Hnd) as (Hk1 & _ & _).
  rewrite He in Hk1. by apply find_key_middle.
Qed.

(** C5.  In a well-formed cache, whatever the used bytes and the
    budget, Get of a key whose entry has expired ([now] is after its
    deadline) reports a miss, deletes the key from the hash index,
    subtracts the size of the entry from the used-byte counter and
    unlinks its node: the recency list read from [head] is the old one
    without that key, and the result is again a well-formed cache. *)
Theorem C5_expired_get_removes (rc : ResponseCache) (es : list Entry)
    (k : string) (l : loc) (n : Node) (now : Time) :
  Rep rc es ->
  items rc !! k = Some l -> nodes rc !! l = Some n -> expiresAt n < now ->
  exists rc',
    Get k now rc = Some (None, rc') /\
    items rc' = delete k (items rc) /\
    usedBytes rc' = usedBytes rc - sizeBytes n /\
    recency rc' = Some (filter (fun x => x ≠ k) (keys es)) /\
    Rep rc' (remove_key k es).
Proof.
  intros HR Hk Hn Hexp.
  destruct (Rep_find rc es k l n HR Hk Hn) as [Hfind Hkey].
  destruct (Get_refines rc es k now HR) as (rc' & HG & HR' & _ & _ & Hi & _).
  unfold AGet in HG, HR'. rewrite Hfind in HG, HR', Hi. simpl in HG, HR', Hi.
  assert (After now (expiresAt n) = true) as Ha
    by (unfold After; by apply Z.ltb_lt).
  rewrite Ha in HG, HR', Hi. simpl in HG, HR'.
  exists rc'. split_and!; [done|done| | |done].
  - pose proof HR' as (_ & _ & _ & _ & _ & -> & _).
    pose proof HR as (cs & <- & _ & Hit & Hnd & -> & _).
    rewrite Hit in Hk.
    destruct (index_lookup cs k l Hnd Hk) as (cs1 & e & cs2 & -> & He).
    assert (e = entry_of n) as ->.
    { rewrite fmap_app in Hfind, Hnd. simpl in Hfind, Hnd.
      destruct (NoDup_keys_middle _ _ _ Hnd) as (Hk1 & _ & _).
      rewrite He in Hk1.
      rewrite (find_key_middle k _ e _ Hk1 He) in Hfind. congruence. }
    rewrite fmap_app in Hnd |- *. simpl in Hnd |- *.
    destruct (NoDup_keys_middle _ _ _ Hnd) as (Hk1 & Hk2 & _).
    rewrite He in Hk1, Hk2.
    rewrite (remove_key_middle k _ _ _ Hk1 Hk2 He).
    rewrite !total_app. simpl. lia.
  - rewrite (Rep_recency rc' _ HR'). by rewrite keys_remove_key.
Qed.

Lemma C5_expired_get_removes_witness :
  let v := replicate 35 Byte.x00 in
  let n := mkNode "A" v 100 10 None None in
  let rc := mkRC (<["A" := 1%positive]> ∅) (Some 1%positive) (Some 1%positive)
              1000 100 10 (<[1%positive := n]> ∅) in
  usedBytes rc <= maxBytes rc /\
  exists rc',
    Get "A" 11 rc = Some (None, rc') /\
    items rc' = delete "A" (items rc) /\
    usedBytes rc' = usedBytes rc - sizeBytes n /\
    recency rc' = Some [] /\
    Rep rc' [].
Proof.
  split; [vm_compute; intros H; discriminate H|].
  apply (C5_expired_get_removes
           (mkRC (<["A" := 1%positive]> ∅) (Some 1%positive) (Some 1%positive)
              1000 100 10
              (<[1%positive := mkNode "A" (replicate 35 Byte.x00) 100 10 None None]> ∅))
           [mkEntry "A" (replicate 35 Byte.x00) 100 10]
           "A" 1%positive
           (mkNode "A" (replicate 35 Byte.x00) 100 10 None None) 11).
  - exists [(1%positive, mkEntry "A" (replicate 35 Byte.x00) 100 10)].
    split_and!; try reflexivity.
    + split_and!; try reflexivity.
      * split; [reflexivity|exact I].
      * apply NoDup_singleton.
    + apply NoDup_singleton.
    + repeat constructor.
    + vm_compute. intros H; discriminate H.
  - reflexivity.
  - reflexivity.
  - simpl. lia.
Defined.

(** *** A Store that does not fit *)

Lemma aevict_oversized m e es :
  m < e_size e -> Forall sized es -> aevict m (e :: es) = [].
Proof.
  intros Hbig Hsized. unfold aevict.
  destruct (aevict_loop_prefix (length (e :: es)) m (e :: es)) as [dropped Hd].
  destruct (aevict_loop_within (length (e :: es)) m (e :: es)) as [Hle|Hnil];
    [done| |done].
  destruct (aevict_loop (length (e :: es)) m (e :: es)) as [|e0 kept]; [done|].
  exfalso. simpl in Hd. injection Hd as <- Hes. simpl in Hle.
  rewrite Hes in Hsized. apply Forall_app in Hsized as [Hkept _].
  pose proof (total_nonneg _ Hkept). lia.
Qed.

Lemma Forall_sized_remove_key k es :
  Forall sized es -> Forall sized (remove_key k es).
Proof.
  unfold remove_key. intros H. apply Forall_forall. intros e He.
  apply list_elem_of_filter in He as [_ He].
  by apply (proj1 (Forall_forall _ _) H).
Qed.

Lemma Rep_nil rc :
  Rep rc [] ->
  items rc = ∅ /\ head rc = None /\ tail rc = None /\ usedBytes rc = 0.
Proof.
  intros (cs & Hcs & (_ & Hh & Ht & _) & Hi & _ & Hu & _).
  destruct cs; [|done]. done.
Qed.

(** C10.  In a well-formed cache, a Store whose entry cost
    len(key)+len(value)+64 exceeds the byte budget (the counter plus the
    cost fitting in an [int]) returns with the cache empty: no key in
    the hash index, [head] and [tail] nil, zero used bytes; and an
    immediately following Get of the key reports a miss. *)
Theorem C10_oversized_store_empties (rc : ResponseCache) (es : list Entry)
    (k : string) (v : list byte) (now : Time) :
  Rep rc es ->
  maxBytes rc < cost k v -> usedBytes rc + cost k v <= max_int ->
  exists rc',
    Store k v now rc = Some rc' /\
    items rc' = ∅ /\ head rc' = None /\ tail rc' = None /\
    usedBytes rc' = 0 /\
    forall now', Get k now' rc' = Some (None, rc').
Proof.
  intros HR Hbig Hfit.
  pose proof HR as (cs & _ & _ & _ & _ & Hused & Hsized & _).
  destruct (Store_refines rc es k v now HR) as (rc' & HS & HR' & _); [lia|].
  unfold AStore in HR'. rewrite aevict_oversized in HR'.
  - destruct (Rep_nil rc' HR') as (Hi & Hh & Ht & Hu).
    exists rc'. split_and!; try done.
    intros now'. unfold Get. by rewrite Hi, lookup_empty.
  - done.
  - by apply Forall_sized_remove_key.
Qed.

Lemma C10_oversized_store_empties_witness :
  let v := replicate 35 Byte.x00 in
  let big := replicate 1000 Byte.x00 in
  let rc := mkRC (<["A" := 1%positive]> ∅) (Some 1%positive) (Some 1%positive)
              250 100 10
              (<[1%positive := mkNode "A" v 100 10 None None]> ∅) in
  maxBytes rc < cost "B" big /\
  exists rc',
    Store "B" big 5 rc = Some rc' /\
    items rc' = ∅ /\ head rc' = None /\ tail rc' = None /\
    usedBytes rc' = 0 /\
    forall now', Get "B" now' rc' = Some (None, rc').
Proof.
  split; [vm_compute; reflexivity|].
  apply (C10_oversized_store_empties
           (mkRC (<["A" := 1%positive]> ∅) (Some 1%positive) (Some 1%positive)
              250 100 10
              (<[1%positive := mkNode "A" (replicate 35 Byte.x00) 100 10 None None]> ∅))
           [mkEntry "A" (replicate 35 Byte.x00) 100 10]).
  - exists [(1%positive, mkEntry "A" (replicate 35 Byte.x00) 100 10)].
    split_and!; try reflexivity.
    + split_and!; try reflexivity.
      * split; [reflexivity|exact I].
      * apply NoDup_singleton.
    + apply NoDup_singleton.
    + repeat constructor.
    + vm_compute. intros H; discriminate H.
  - vm_compute. reflexivity.
  - vm_compute. intros H; discriminate H.
Defined.

(** *** Least recently used first *)

Lemma not_elem_of_one (x y : string) : x ≠ y -> x ∉ [y].
Proof.
  intros H. apply not_elem_of_cons. split; [done|apply not_elem_of_nil].
Qed.

Lemma not_elem_of_two (x y z : string) : x ≠ y -> x ≠ z -> x ∉ [y; z].
Proof.
  intros H1 H2. apply not_elem_of_cons. split; [done|by apply not_elem_of_one].
Qed.

Section LRU.
Variables (ttl maxBytes c : Z).
Variables (kA kB kC : string) (vA vB vC : list byte).
Variables (t1 t2 t3 t4 : Time).
Hypothesis HAB : kA ≠ kB.
Hypothesis HAC : kA ≠ kC.
Hypothesis HBC : kB ≠ kC.
Hypothesis HcA : cost kA vA = c.
Hypothesis HcB : cost kB vB = c.
Hypothesis HcC : cost kC vC = c.
Hypothesis Htwo : 2 * c <= maxBytes < 3 * c.
Hypothesis Hint : 3 * c <= max_int.

Local Abbreviation eA := (stored kA vA t1 ttl).
Local Abbreviation eB := (stored kB vB t2 ttl).
Local Abbreviation eC := (stored kC vC t4 ttl).

Local Lemma c_pos : 64 <= c.
Proof. rewrite <- HcA. apply cost_pos. Qed.

Local Lemma store_A : AStore kA vA t1 ttl maxBytes [] = [eA].
Proof.
  pose proof c_pos. unfold AStore. apply aevict_keep. simpl. lia.
Qed.

Local Lemma store_B : AStore kB vB t2 ttl maxBytes [eA] = [eB; eA].
Proof.
  pose proof c_pos. unfold AStore. rewrite remove_key_id.
  - apply aevict_keep. simpl. lia.
  - simpl. by apply not_elem_of_one.
Qed.

Local Lemma get_A :
  t3 <= t1 + ttl -> AGet kA t3 [eB; eA] = (Some vA, [eA; eB]).
Proof.
  intros Hlive. unfold AGet.
  change [eB; eA] with ([eB] ++ eA :: []).
  rewrite (find_key_middle kA [eB] eA []);
    [|simpl; by apply not_elem_of_one|done].
  rewrite (remove_key_middle kA [eB] eA []);
    [|simpl; by apply not_elem_of_one|apply not_elem_of_nil|done].
  simpl. unfold After. destruct (Z.ltb_spec (t1 + ttl) t3); [lia|done].
Qed.

(** With the list [x; y] full, storing C drops [y], the tail. *)
Local Lemma store_C (x y : Entry) :
  e_size x = c -> e_size y = c -> kC ∉ keys [x; y] ->
  AStore kC vC t4 ttl maxBytes [x; y] = [eC; x].
Proof.
  intros Hx Hy Hk. pose proof c_pos.
  unfold AStore. rewrite remove_key_id by done.
  change (eC :: [x; y]) with ([eC; x] ++ [y]).
  rewrite (aevict_drop_last maxBytes [eC; x] y) by (simpl; lia).
  apply aevict_keep. simpl. lia.
Qed.

Local Lemma run_A_B :
  exists rc, run [OpStore kA vA t1; OpStore kB vB t2]
               (NewResponseCache ttl maxBytes) = Some rc /\
             Rep rc [eB; eA] /\
             Cache.maxBytes rc = maxBytes /\ Cache.ttl rc = ttl.
Proof.
  pose proof c_pos. pose proof Hint.
  destruct (Store_refines (NewResponseCache ttl maxBytes) [] kA vA t1
              (Rep_new ttl maxBytes)) as (rc1 & H1 & R1 & M1 & T1);
    [simpl; lia|].
  simpl in R1, M1, T1. rewrite store_A in R1.
  destruct (Store_refines rc1 [eA] kB vB t2 R1) as (rc2 & H2 & R2 & M2 & T2);
    [simpl; lia|].
  rewrite M1, T1, store_B in R2.
  exists rc2. simpl. rewrite H1. simpl. rewrite H2. simpl.
  split_and!; [done|done|congruence|congruence].
Qed.

Lemma lru_with_get :
  t3 <= t1 + ttl ->
  exists rc,
    run [OpStore kA vA t1; OpStore kB vB t2; OpGet kA t3; OpStore kC vC t4]
      (NewResponseCache ttl maxBytes) = Some rc /\
    Rep rc [eC; eA].
Proof.
  intros Hlive. pose proof c_pos. pose proof Hint.
  destruct run_A_B as (rc2 & H2 & R2 & M2 & T2).
  destruct (Get_refines rc2 [eB; eA] kA t3 R2) as (rc3 & H3 & R3 & M3 & T3 & _).
  rewrite (get_A Hlive) in H3, R3. simpl in H3, R3.
  destruct (Store_refines rc3 [eA; eB] kC vC t4 R3) as (rc4 & H4 & R4 & M4 & T4);
    [simpl; lia|].
  rewrite M3, M2, T3, T2 in R4.
  rewrite store_C in R4; [|done|done|simpl; by apply not_elem_of_two].
  exists rc4. split; [|done].
  change [OpStore kA vA t1; OpStore kB vB t2; OpGet kA t3; OpStore kC vC t4]
    with ([OpStore kA vA t1; OpStore kB vB t2]
            ++ [OpGet kA t3; OpStore kC vC t4]).
  revert H2. simpl.
  destruct (Store kA vA t1 (NewResponseCache ttl maxBytes)) as [rc1|]; [|done].
  simpl. destruct (Store kB vB t2 rc1) as [rc2'|]; [|done]. simpl.
  intros [= ->]. rewrite H3. simpl. by rewrite H4.
Qed.

Lemma lru_without_get :
  exists rc,
    run [OpStore kA vA t1; OpStore kB vB t2; OpStore kC vC t4]
      (NewResponseCache ttl maxBytes) = Some rc /\
    Rep rc [eC; eB].
Proof.
  pose proof c_pos. pose proof Hint.
  destruct run_A_B as (rc2 & H2 & R2 & M2 & T2).
  destruct (Store_refines rc2 [eB; eA] kC vC t4 R2) as (rc4 & H4 & R4 & M4 & T4);
    [simpl; lia|].
  rewrite M2, T2 in R4.
  rewrite store_C in R4; [|done|done|simpl; by apply not_elem_of_two].
  exists rc4. split; [|done].
  revert H2. simpl.
  destruct (Store kA vA t1 (NewResponseCache ttl maxBytes)) as [rc1|]; [|done].
  simpl. destruct (Store kB vB t2 rc1) as [rc2'|]; [|done]. simpl.
  intros [= ->]. by rewrite H4.
Qed.

End LRU.

(** C3.  Three entries A, B, C with distinct keys and the same cost [c]
    (100 bytes of payload make c = len(key) + 100 + 64), a byte budget
    that holds exactly two of them (at least 2c, below 3c), A not yet
    expired when it is read: after Store(A), Store(B), Get(A), Store(C)
    the hash index no longer has B and still has A, and the recency
    list from [head] is C, A.  Without the Get(A) it is A, the tail,
    that is evicted: eviction takes the least recently used entry, and
    the Get made A the most recently used. *)
Theorem C3_lru_eviction_order (ttl maxBytes c : Z) (kA kB kC : string)
    (vA vB vC : list byte) (t1 t2 t3 t4 : Time) :
  kA ≠ kB -> kA ≠ kC -> kB ≠ kC ->
  cost kA vA = c -> cost kB vB = c -> cost kC vC = c ->
  2 * c <= maxBytes < 3 * c -> 3 * c <= max_int ->
  t3 <= t1 + ttl ->
  (exists rc,
     run [OpStore kA vA t1; OpStore kB vB t2; OpGet kA t3; OpStore kC vC t4]
       (NewResponseCache ttl maxBytes) = Some rc /\
     items rc !! kB = None /\ is_Some (items rc !! kA) /\
     recency rc = Some [kC; kA]) /\
  (exists rc,
     run [OpStore kA vA t1; OpStore kB vB t2; OpStore kC vC t4]
       (NewResponseCache ttl maxBytes) = Some rc /\
     items rc !! kA = None /\ is_Some (items rc !! kB) /\
     recency rc = Some [kC; kB]).
Proof.
  intros HAB HAC HBC HcA HcB HcC Htwo Hint Hlive. split.
  - destruct (lru_with_get ttl maxBytes c kA kB kC vA vB vC t1 t2 t3 t4
                HAB HAC HBC HcA HcB HcC Htwo Hint Hlive) as (rc & Hrun & HR).
    exists rc. split_and!; [done| | |].
    + apply (Rep_lookup_None rc _ kB HR). simpl.
      apply not_elem_of_two; [by apply not_eq_sym|by apply not_eq_sym].
    + apply (Rep_lookup_Some rc _ kA HR). simpl. right. by left.
    + by rewrite (Rep_recency rc _ HR).
  - destruct (lru_without_get ttl maxBytes c kA kB kC vA vB vC t1 t2 t4
                HAB HAC HBC HcA HcB HcC Htwo Hint) as (rc & Hrun & HR).
    exists rc. split_and!; [done| | |].
    + apply (Rep_lookup_None rc _ kA HR). simpl.
      by apply not_elem_of_two.
    + apply (Rep_lookup_Some rc _ kB HR). simpl. right. by left.
    + by rewrite (Rep_recency rc _ HR).
Qed.

Lemma C3_lru_eviction_order_witness :
  let v := replicate 100 Byte.x00 in
  cost "A" v = 165 /\ 2 * 165 <= 400 < 3 * 165 /\
  (exists rc,
     run [OpStore "A" v 0; OpStore "B" v 1; OpGet "A" 2; OpStore "C" v 3]
       (NewResponseCache 1000 400) = Some rc /\
     items rc !! "B" = None /\ is_Some (items rc !! "A") /\
     recency rc = Some ["C"; "A"]) /\
  (exists rc,
     run [OpStore "A" v 0; OpStore "B" v 1; OpStore "C" v 3]
       (NewResponseCache 1000 400) = Some rc /\
     items rc !! "A" = None /\ is_Some (items rc !! "B") /\
     recency rc = Some ["C"; "B"]).
Proof.
  split; [reflexivity|]. split; [lia|].
  apply (C3_lru_eviction_order 1000 400 165 "A" "B" "C"
           (replicate 100 Byte.x00) (replicate 100 Byte.x00)
           (replicate 100 Byte.x00) 0 1 2 3);
    try discriminate; try reflexivity;
    try lia; vm_compute; intros H; discriminate H.
Defined.

(** *** A stored entry that fits is found again *)

Lemma aevict_loop_keeps_head fuel m e es :
  e_size e <= m -> Forall sized es ->
  exists rest, aevict_loop fuel m (e :: es) = e :: rest.
Proof.
  intros He. revert es. induction fuel as [|fuel IH]; intros es Hs.
  - by exists es.
  - change (aevict_loop (S fuel) m (e :: es))
      with (if (m <? total (e :: es)) && bool_decide (e :: es ≠ [])
            then aevict_loop fuel m (removelast (e :: es)) else e :: es).
    destruct (Z.ltb_spec m (total (e :: es))) as [Hover|].
    2:{ by exists es. }
    rewrite bool_decide_eq_true_2 by done. cbn [andb].
    destruct (snoc_cases es) as [->|(front & x & ->)].
    + simpl in Hover. lia.
    + change (e :: front ++ [x]) with ((e :: front) ++ [x]).
      rewrite removelast_last. apply IH.
      apply Forall_app in Hs as [Hs _]. done.
Qed.

Lemma Store_then_Get rc es k v now rc' now' :
  Rep rc es -> usedBytes rc + cost k v <= max_int ->
  cost k v <= maxBytes rc ->
  Store k v now rc = Some rc' ->
  now' <= now + ttl rc ->
  exists rc'', Get k now' rc' = Some (Some v, rc'').
Proof.
  intros HR Hfit Hroom HS Hlive.
  pose proof HR as (cs & _ & _ & _ & _ & Hused & Hsized & _).
  destruct (Store_refines rc es k v now HR) as (rc1 & HS1 & HR1 & _); [lia|].
  rewrite HS in HS1. injection HS1 as <-.
  unfold AStore, aevict in HR1.
  match type of HR1 with Rep _ (aevict_loop ?f _ (?e :: ?l)) =>
    destruct (aevict_loop_keeps_head f (maxBytes rc) e l) as [rest Hrest];
      [done|by apply Forall_sized_remove_key|]
  end.
  rewrite Hrest in HR1.
  destruct (Get_refines rc' _ k now' HR1) as (rc'' & HG & _).
  exists rc''. rewrite HG. unfold AGet, find_key. simpl.
  rewrite String.eqb_refl. simpl. unfold After.
  destruct (Z.ltb_spec (now + ttl rc) now'); [lia|done].
Qed.

(** *** cleanupExpired *)

Lemma Rep_Cells rc es : Rep rc es <-> exists cs, cs.*2 = es /\ Cells rc cs.
Proof. split; intros (cs & <- & H); exists cs; (split; [done|exact H]). Qed.

(** Unlinking one cell, deleting its key and subtracting its size. *)
Lemma Cells_remove rc cs1 l e cs2 :
  Cells rc (cs1 ++ (l, e) :: cs2) ->
  nodes rc !! l = Some (node_of e (last_loc cs1 None) (first_loc cs2 None)) /\
  exists rc1,
    detachNode l rc = Some rc1 /\
    nodes rc1 !! l = nodes rc !! l /\
    maxBytes rc1 = maxBytes rc /\ ttl rc1 = ttl rc /\
    Cells (set_usedBytes (wrap_int (usedBytes rc1 - e_size e))
             (set_items (delete (e_key e) (items rc1)) rc1)) (cs1 ++ cs2).
Proof.
  intros (HL & Hitems & Hnd & Hused & Hsized & Hmax).
  pose proof Hnd as Hnd0.
  rewrite fmap_app in Hnd, Hsized, Hused, Hmax.
  rewrite fmap_cons in Hnd, Hsized, Hused, Hmax. simpl in *.
  destruct (NoDup_keys_middle _ _ _ Hnd) as (Hk1 & Hk2 & Hnd').
  destruct (Forall_sized_middle _ _ _ Hsized) as (Hse & Hsized' & Ht1 & Ht2 & He64).
  rewrite total_app in Hused, Hmax. simpl in Hused, Hmax.
  pose proof HL as (Hl & _). apply linked_app in Hl as [_ [Hx _]].
  simpl in Hx. split; [exact Hx|].
  destruct (detachNode_spec rc cs1 l e cs2 HL)
    as (rc1 & -> & HL1 & Hx1 & (Hi & Hu & Hm & Ht & Hd)).
  exists rc1. split_and!; try done.
  unfold Cells. rewrite fmap_app, total_app. split_and!; simpl.
  - exact HL1.
  - rewrite Hi, Hitems. by apply index_delete.
  - done.
  - rewrite Hu, Hused.
    rewrite wrap_int_id by (unfold min_int, max_int in *; lia). lia.
  - done.
  - lia.
Qed.

Lemma cleanupLoop_refines now fuel front back rc :
  Cells rc (front ++ back) -> (length front <= fuel)%nat ->
  exists rc',
    cleanupLoop fuel now (last_loc front None) rc = Some rc' /\
    Cells rc' (filter (fun c => After now (e_expires c.2) = false) front ++ back) /\
    maxBytes rc' = maxBytes rc /\ ttl rc' = ttl rc.
Proof.
  revert front back rc. induction fuel as [|fuel IH]; intros front back rc HC Hlen.
  - destruct front; [|simpl in Hlen; lia]. by exists rc.
  - destruct (snoc_cases front) as [->|(f & [c e] & ->)]; [by exists rc|].
    rewrite last_loc_snoc. rewrite <- app_assoc in HC. simpl in HC.
    rewrite length_app in Hlen. simpl in Hlen.
    destruct (Cells_remove rc f c e back HC)
      as (Hx & rc1 & Hd & Hx1 & Hm1 & Ht1 & HC1).
    rewrite filter_app. cbn [cleanupLoop fst]. unfold deref. rewrite Hx.
    cbn [mbind option_bind]. cbn [node_of prev expiresAt].
    destruct (After now (e_expires e)) eqn:Hexp.
    + rewrite Hd. cbn [mbind option_bind]. rewrite Hx1, Hx.
      cbn [mbind option_bind]. cbn [set_items nodes].
      rewrite Hx1, Hx. cbn [mbind option_bind node_of key sizeBytes].
      rewrite filter_cons_False by (simpl; congruence).
      rewrite filter_nil, app_nil_r.
      destruct (IH f back _ HC1) as (rc' & Hrun & HC' & Hm' & Ht'); [lia|].
      exists rc'. split; [exact Hrun|]. split; [exact HC'|].
      simpl in Hm', Ht'. split; congruence.
    + cbn [mbind option_bind].
      rewrite filter_cons_True by done. rewrite filter_nil, <- app_assoc.
      destruct (IH f ((c, e) :: back) rc HC) as (rc' & Hrun & HC' & Hm' & Ht');
        [lia|].
      by exists rc'.
Qed.

Lemma filter_cells now (cs : list (loc * Entry)) :
  (filter (fun c => After now (e_expires c.2) = false) cs).*2
  = ACleanup now cs.*2.
Proof.
  unfold ACleanup. induction cs as [|[l e] cs IH]; [done|].
  rewrite fmap_cons. simpl.
  destruct (After now (e_expires e)) eqn:E.
  - rewrite !filter_cons_False by (simpl; congruence). exact IH.
  - rewrite !filter_cons_True by done. rewrite fmap_cons. simpl. by rewrite IH.
Qed.

Lemma cleanupExpired_refines rc es now :
  Rep rc es ->
  exists rc',
    cleanupExpired now rc = Some rc' /\ Rep rc' (ACleanup now es) /\
    maxBytes rc' = maxBytes rc /\ ttl rc' = ttl rc.
Proof.
  intros HR. pose proof (Rep_size_items rc es HR) as Hsize.
  apply Rep_Cells in HR as (cs & <- & HC).
  pose proof HC as ((_ & _ & Ht & _) & _).
  unfold cleanupExpired. rewrite Ht, Hsize.
  destruct (cleanupLoop_refines now (length cs.*2) cs [] rc)
    as (rc' & Hrun & HC' & Hm & Htt).
  - by rewrite app_nil_r.
  - by rewrite length_fmap.
  - exists rc'. split_and!; try done.
    rewrite app_nil_r in HC'. apply Rep_Cells.
    eexists. split; [apply filter_cells|exact HC'].
Qed.

Lemma find_key_cons k e es :
  find_key k (e :: es) = if String.eqb (e_key e) k then Some e else find_key k es.
Proof. done. Qed.

Lemma find_key_Some k es e :
  find_key k es = Some e -> e ∈ es /\ e_key e = k.
Proof.
  induction es as [|e0 es IH]; [done|]. rewrite find_key_cons.
  destruct (String.eqb_spec (e_key e0) k) as [Hk|Hk].
  - intros [= <-]. split; [apply list_elem_of_here|done].
  - intros [Hin He]%IH. split; [by apply list_elem_of_further|done].
Qed.

Lemma find_key_None_inv k es : find_key k es = None -> k ∉ keys es.
Proof.
  induction es as [|e es IH]; [intros _; apply not_elem_of_nil|].
  rewrite find_key_cons.
  destruct (String.eqb_spec (e_key e) k) as [Hk|Hk]; [done|].
  intros H%IH. unfold keys. rewrite fmap_cons.
  apply not_elem_of_cons. by split.
Qed.

(** What a Get returns, on the list of entries. *)
Lemma AGet_fst k now es :
  (AGet k now es).1 =
    match find_key k es with
    | Some e => if After now (e_expires e) then None else Some (e_value e)
    | None => None
    end.
Proof.
  unfold AGet. destruct (find_key k es) as [e|]; [|done].
  by destruct (After now (e_expires e)).
Qed.

Lemma find_key_cleanup k now es :
  NoDup (keys es) ->
  find_key k (ACleanup now es) =
    match find_key k es with
    | Some e => if After now (e_expires e) then None else Some e
    | None => None
    end.
Proof.
  unfold ACleanup. induction es as [|e es IH]; [done|].
  intros [Hnin Hnd]%NoDup_cons. rewrite find_key_cons.
  destruct (String.eqb_spec (e_key e) k) as [Hk|Hk].
  - destruct (After now (e_expires e)) eqn:E.
    + rewrite filter_cons_False by congruence.
      apply find_key_None. rewrite <- Hk. intros Hin. apply Hnin.
      unfold keys in *. apply list_elem_of_fmap in Hin as (e' & -> & Hin).
      apply list_elem_of_fmap. exists e'. split; [done|].
      by apply list_elem_of_filter in Hin as [_ ?].
    + rewrite filter_cons_True by done. rewrite find_key_cons.
      by rewrite (proj2 (String.eqb_eq _ _) Hk).
  - destruct (After now (e_expires e)) eqn:E.
    + rewrite filter_cons_False by congruence. by apply IH.
    + rewrite filter_cons_True by done. rewrite find_key_cons.
      rewrite (proj2 (String.eqb_neq _ _) Hk). by apply IH.
Qed.

(** X17.  [cleanupExpired] removes exactly the expired entries.  On a
    well-formed cache it returns; a key of the hash index stays exactly
    when its entry has not expired, and no key is added; the recency
    list keeps the surviving keys in their order; the used-byte counter
    is the sum of the sizes of the survivors; the result is well formed;
    and every Get at that time returns what it would have returned
    without the cleanup. *)
Theorem X17_cleanup_removes_exactly_expired (rc : ResponseCache)
    (es : list Entry) (now : Time) :
  Rep rc es ->
  exists rc',
    cleanupExpired now rc = Some rc' /\
    Rep rc' (ACleanup now es) /\
    (forall k, match items rc !! k with
               | None => items rc' !! k = None
               | Some l =>
                   forall n, nodes rc !! l = Some n ->
                     (is_Some (items rc' !! k) <-> After now (expiresAt n) = false)
               end) /\
    recency rc' =
      Some (keys (filter (fun e => After now (e_expires e) = false) es)) /\
    usedBytes rc' =
      total (filter (fun e => After now (e_expires e) = false) es) /\
    maxBytes rc' = maxBytes rc /\ ttl rc' = ttl rc /\
    forall k, fst <$> Get k now rc' = fst <$> Get k now rc.
Proof.
  intros HR.
  destruct (cleanupExpired_refines rc es now HR) as (rc' & Hrun & HR' & Hm & Ht).
  assert (Hnd : NoDup (keys es)) by (by destruct HR as (cs & _ & _ & _ & ? & _)).
  exists rc'. split_and!; try done.
  - intros k. destruct (items rc !! k) as [l|] eqn:Hk.
    + intros n Hn. destruct (Rep_find rc es k l n HR Hk Hn) as [Hf _].
      rewrite (Rep_lookup_Some rc' _ k HR').
      split.
      * intros Hin. apply list_elem_of_fmap in Hin as (e & -> & Hin).
        pose proof (find_key_cleanup (e_key e) now es Hnd) as Hc.
        rewrite Hf in Hc. simpl in Hc.
        destruct (After now (expiresAt n)); [|done].
        apply find_key_None_inv in Hc. destruct Hc.
        apply list_elem_of_fmap. by exists e.
      * intros Hlive.
        pose proof (find_key_cleanup k now es Hnd) as Hc.
        rewrite Hf in Hc. simpl in Hc. rewrite Hlive in Hc.
        apply find_key_Some in Hc as [Hin Hkey].
        apply list_elem_of_fmap. by exists (entry_of n).
    + apply (Rep_lookup_None rc' _ k HR').
      apply (Rep_lookup_None rc es k HR) in Hk.
      intros Hin. apply Hk.
      apply list_elem_of_fmap in Hin as (e & -> & Hin).
      apply list_elem_of_fmap. exists e. split; [done|].
      by apply list_elem_of_filter in Hin as [_ ?].
  - by apply Rep_recency.
  - by destruct HR' as (cs & _ & _ & _ & _ & ? & _).
  - intros k.
    destruct (Get_refines rc es k now HR) as (r1 & -> & _).
    destruct (Get_refines rc' _ k now HR') as (r2 & -> & _).
    simpl. f_equal. rewrite !AGet_fst, (find_key_cleanup k now es Hnd).
    destruct (find_key k es) as [e|]; [|done].
    by destruct (After now (e_expires e)) eqn:E; [|rewrite E].
Qed.

Lemma Rep_cache_BA : Rep cache_BA [entry_B; entry_A].
Proof.
  exists [(2%positive, entry_B); (1%positive, entry_A)].
  split_and!; try reflexivity.
  - split_and!; try reflexivity.
    + split; [reflexivity|]. split; [reflexivity|exact I].
    + apply NoDup_cons. split; [|apply NoDup_singleton].
      intros [=]%list_elem_of_singleton.
  - apply NoDup_cons. split; [|apply NoDup_singleton].
    intros [=]%list_elem_of_singleton.
  - repeat constructor.
  - vm_compute. intros H; discriminate H.
Qed.

Lemma X17_cleanup_removes_exactly_expired_witness :
  exists rc',
    cleanupExpired 12 cache_BA = Some rc' /\
    recency rc' = Some ["B"] /\ usedBytes rc' = 100.
Proof.
  destruct (X17_cleanup_removes_exactly_expired cache_BA [entry_B; entry_A] 12
              Rep_cache_BA) as (rc' & H1 & _ & _ & H2 & H3 & _).
  exists rc'. split; [exact H1|]. split; [exact H2|exact H3].
Defined.

(** *** Round trip, promotion, eviction *)

Lemma total_find_remove k es e :
  NoDup (keys es) -> find_key k es = Some e ->
  total (remove_key k es) = total es - e_size e.
Proof.
  unfold remove_key. induction es as [|e0 es IH]; [done|].
  intros [Hnin Hnd]%NoDup_cons. rewrite find_key_cons.
  destruct (String.eqb_spec (e_key e0) k) as [Hk|Hk].
  - intros [= <-]. rewrite filter_cons_False by (intros H; by apply H).
    fold (remove_key k es). rewrite remove_key_id by (by rewrite <- Hk).
    simpl. lia.
  - intros Hf. rewrite filter_cons_True by done. simpl.
    rewrite (IH Hnd Hf). lia.
Qed.

(** X18.  What was stored is read back until it expires.  On a
    well-formed cache, a Store whose entry fits the byte budget returns,
    and afterwards a Get of the key returns the stored bytes at every
    time up to [now + ttl], whatever the cache held before (an older
    value of the key, expired or not, is replaced); after [now + ttl] the
    Get is a miss and removes the key. *)
Theorem X18_stored_value_is_read_back (rc : ResponseCache) (es : list Entry)
    (k : string) (v : list byte) (now : Time) :
  Rep rc es -> usedBytes rc + cost k v <= max_int -> cost k v <= maxBytes rc ->
  exists rc',
    Store k v now rc = Some rc' /\
    (forall now', now' <= now + ttl rc ->
       exists rc'', Get k now' rc' = Some (Some v, rc'')) /\
    (forall now', now + ttl rc < now' ->
       exists rc'', Get k now' rc' = Some (None, rc'') /\
                    items rc'' !! k = None).
Proof.
  intros HR Hfit Hroom.
  pose proof HR as (cs & _ & _ & _ & _ & Hused & Hsized & _).
  destruct (Store_refines rc es k v now HR) as (rc' & HS & HR' & _); [lia|].
  exists rc'. split; [exact HS|].
  unfold AStore, aevict in HR'.
  match type of HR' with Rep _ (aevict_loop ?f _ (?e :: ?l)) =>
    destruct (aevict_loop_keeps_head f (maxBytes rc) e l) as [rest Hrest];
      [done|by apply Forall_sized_remove_key|]
  end.
  rewrite Hrest in HR'.
  assert (Hfind : find_key k (stored k v now (ttl rc) :: rest)
                  = Some (stored k v now (ttl rc))).
  { rewrite find_key_cons. simpl. by rewrite String.eqb_refl. }
  split; intros now' Hnow';
    destruct (Get_refines rc' _ k now' HR') as (rc'' & HG & _ & _ & _ & Hi & _);
    exists rc''; rewrite HG; unfold AGet in *; rewrite Hfind in *; simpl in *;
    unfold After in *.
  - destruct (Z.ltb_spec (now + ttl rc) now'); [lia|done].
  - destruct (Z.ltb_spec (now + ttl rc) now'); [|lia].
    split; [done|]. rewrite Hi. apply lookup_delete_eq.
Qed.

Lemma X18_stored_value_is_read_back_witness :
  exists rc',
    Store "C" [Byte.x01] 20 cache_BA = Some rc' /\
    (exists rc'', Get "C" 30 rc' = Some (Some [Byte.x01], rc'')) /\
    (exists rc'', Get "C" 31 rc' = Some (None, rc'') /\ items rc'' !! "C" = None).
Proof.
  destruct (X18_stored_value_is_read_back cache_BA [entry_B; entry_A]
              "C" [Byte.x01] 20 Rep_cache_BA) as (rc' & H1 & H2 & H3).
  - vm_compute. intros H; discriminate H.
  - vm_compute. intros H; discriminate H.
  - exists rc'. split; [exact H1|]. split.
    + apply (H2 30). vm_compute. intros H; discriminate H.
    + apply (H3 31). reflexivity.
Defined.

(** X19.  A hit promotes the entry and changes nothing else.  On a
    well-formed cache, Get of a key whose entry has not expired returns
    the bytes of its node; the hash index and the used-byte counter are
    as before, and the recency list is the old one with the key moved
    to the front, the order of the other keys unchanged. *)
Theorem X19_hit_moves_to_front (rc : ResponseCache) (es : list Entry)
    (k : string) (l : loc) (n : Node) (now : Time) :
  Rep rc es ->
  items rc !! k = Some l -> nodes rc !! l = Some n -> now <= expiresAt n ->
  exists rc',
    Get k now rc = Some (Some (value n), rc') /\
    items rc' = items rc /\
    usedBytes rc' = usedBytes rc /\
    recency rc' = Some (k :: filter (fun x => x ≠ k) (keys es)) /\
    Rep rc' (entry_of n :: remove_key k es).
Proof.
  intros HR Hk Hn Hlive.
  destruct (Rep_find rc es k l n HR Hk Hn) as [Hfind Hkey].
  destruct (Get_refines rc es k now HR) as (rc' & HG & HR' & _ & _ & Hi & _).
  unfold AGet in HG, HR'. rewrite Hfind in HG, HR', Hi. simpl in HG, HR', Hi.
  assert (After now (expiresAt n) = false) as Ha
    by (unfold After; apply Z.ltb_ge; lia).
  rewrite Ha in HG, HR', Hi. simpl in HG, HR'.
  exists rc'. split_and!; [done|done| | |done].
  - pose proof HR' as (_ & _ & _ & _ & _ & -> & _).
    pose proof HR as (_ & _ & _ & _ & Hnd & -> & _).
    simpl. rewrite (total_find_remove k es _ Hnd Hfind). simpl. lia.
  - rewrite (Rep_recency rc' _ HR'). unfold keys at 1. rewrite fmap_cons.
    simpl. fold (keys (remove_key k es)). by rewrite Hkey, keys_remove_key.
Qed.

Lemma X19_hit_moves_to_front_witness :
  exists rc',
    Get "A" 10 cache_BA = Some (Some (replicate 35 Byte.x00), rc') /\
    recency rc' = Some ["A"; "B"] /\ usedBytes rc' = 200.
Proof.
  destruct (X19_hit_moves_to_front cache_BA [entry_B; entry_A] "A" 1%positive
              (node_of entry_A (Some 2%positive) None) 10 Rep_cache_BA)
    as (rc' & H1 & _ & H2 & H3 & _).
  - reflexivity.
  - reflexivity.
  - simpl. lia.
  - exists rc'. split; [exact H1|]. split; [exact H3|exact H2].
Defined.

Lemma aevict_loop_minimal fuel m es d rest :
  es = aevict_loop fuel m es ++ d :: rest ->
  m < total (aevict_loop fuel m es) + e_size d.
Proof.
  revert es d rest. induction fuel as [|fuel IH]; intros es d rest; simpl.
  - intros H. apply (f_equal length) in H. rewrite length_app in H.
    simpl in H. lia.
  - destruct ((m <? total es) && bool_decide (es ≠ [])) eqn:Hover.
    2:{ intros H. apply (f_equal length) in H. rewrite length_app in H.
        simpl in H. lia. }
    apply andb_true_iff in Hover as [Hover _]. apply Z.ltb_lt in Hover.
    destruct (snoc_cases es) as [->|(es0 & x & ->)].
    { intros H. by destruct (aevict_loop fuel m (removelast [])). }
    rewrite removelast_last.
    destruct (aevict_loop_prefix fuel m es0) as [dropped0 Hd0].
    intros H. rewrite Hd0 in H at 1. rewrite <- app_assoc in H.
    apply app_inv_head in H.
    destruct dropped0 as [|d0 rest0]; simpl in H.
    + injection H as <- <-. rewrite app_nil_r in Hd0. rewrite <- Hd0.
      rewrite total_app in Hover. simpl in Hover. lia.
    + injection H as <- _. by apply (IH es0 d0 rest0).
Qed.

(** X20.  A Store evicts from the least recently used end only, and no
    more than it must.  After a Store on a well-formed cache the recency
    list is an initial segment of the key followed by the old list
    without it; the entries that are kept are unchanged; the counter is
    within the budget unless nothing is left; and when something was
    dropped, keeping the most recent of the dropped entries as well
    would have exceeded the budget. *)
Theorem X20_store_evicts_lru_only (rc : ResponseCache) (es : list Entry)
    (k : string) (v : list byte) (now : Time) :
  Rep rc es -> usedBytes rc + cost k v <= max_int ->
  exists rc' kept dropped,
    Store k v now rc = Some rc' /\
    stored k v now (ttl rc) :: remove_key k es = kept ++ dropped /\
    Rep rc' kept /\
    recency rc' = Some (keys kept) /\
    k :: filter (fun x => x ≠ k) (keys es) = keys kept ++ keys dropped /\
    usedBytes rc' = total kept /\
    (usedBytes rc' <= maxBytes rc \/ kept = []) /\
    (forall d rest, dropped = d :: rest ->
                    maxBytes rc < usedBytes rc' + e_size d).
Proof.
  intros HR Hfit.
  pose proof HR as (cs & _ & _ & _ & _ & Hused & _).
  destruct (Store_refines rc es k v now HR) as (rc' & HS & HR' & _); [lia|].
  unfold AStore, aevict in HR'.
  set (all := stored k v now (ttl rc) :: remove_key k es) in *.
  destruct (aevict_loop_prefix (length all) (maxBytes rc) all) as [dropped Hd].
  pose proof HR' as (_ & _ & _ & _ & _ & Hu' & _).
  exists rc', (aevict_loop (length all) (maxBytes rc) all), dropped.
  split_and!; try done.
  - by apply Rep_recency.
  - rewrite <- keys_app, <- Hd. subst all. by rewrite <- keys_remove_key.
  - rewrite Hu'. by apply aevict_loop_within.
  - intros d rest ->. rewrite Hu'. by apply (aevict_loop_minimal _ _ _ _ rest).
Qed.

Lemma X20_store_evicts_lru_only_witness :
  let rc := mkRC (items cache_BA) (head cache_BA) (tail cache_BA) 250 200 10
              (nodes cache_BA) in
  exists rc',
    Store "C" (replicate 35 Byte.x00) 20 rc = Some rc' /\
    recency rc' = Some ["C"; "B"] /\ usedBytes rc' = 200.
Proof.
  intros rc.
  assert (HR : Rep rc [entry_B; entry_A]).
  { destruct Rep_cache_BA as (cs & H1 & (Hl & Hh & Ht & Hn) & H3 & H4 & H5 & H6).
    exists cs. split; [exact H1|]. split; [|split; [exact H3|]].
    - split; [exact Hl|]. split; [exact Hh|]. split; [exact Ht|exact Hn].
    - split; [exact H4|]. split; [exact H5|exact H6]. }
  destruct (X20_store_evicts_lru_only rc [entry_B; entry_A] "C"
              (replicate 35 Byte.x00) 20 HR)
    as (rc' & kept & dropped & H1 & _ & _ & H2 & _ & H3 & _).
  - vm_compute. intros H; discriminate H.
  - exists rc'. split; [exact H1|].
    assert (Hrc : Store "C" (replicate 35 Byte.x00) 20 rc = Some rc') by exact H1.
    vm_compute in Hrc. injection Hrc as <-. split; reflexivity.
Defined.

(** *** Any sequence of calls, cleanups included *)

Lemma total_cleanup_le now es :
  Forall sized es -> total (ACleanup now es) <= total es.
Proof.
  unfold ACleanup. induction es as [|e es IH]; [done|].
  intros [He Hs]%Forall_cons.
  pose proof (cost_pos (e_key e) (e_value e)). unfold sized in He.
  specialize (IH Hs).
  destruct (After now (e_expires e)) eqn:E.
  - rewrite filter_cons_False by congruence. simpl. lia.
  - rewrite filter_cons_True by done. simpl. lia.
Qed.

Lemma act_invariant maxB a rc es :
  Rep rc es -> maxBytes rc = maxB -> 0 <= maxB -> usedBytes rc <= maxB ->
  fitting maxB a ->
  exists rc' es',
    act rc a = Some rc' /\ Rep rc' es' /\ maxBytes rc' = maxB /\
    usedBytes rc' <= maxB.
Proof.
  intros HR Hm H0 Hu Hfit. destruct a as [k v now|k now|now].
  - apply (step_invariant maxB (OpStore k v now) rc es HR Hm H0 Hu Hfit).
  - apply (step_invariant maxB (OpGet k now) rc es HR Hm H0 Hu Hfit).
  - simpl. destruct (cleanupExpired_refines rc es now HR)
      as (rc' & -> & HR' & Hm' & _).
    exists rc', (ACleanup now es). split_and!; [done|done|congruence|].
    pose proof HR' as (_ & _ & _ & _ & _ & -> & _).
    pose proof HR as (_ & _ & _ & _ & _ & Hused & Hsized & _).
    pose proof (total_cleanup_le now es Hsized). lia.
Qed.

Lemma acts_invariant maxB l rc es :
  Rep rc es -> maxBytes rc = maxB -> 0 <= maxB -> usedBytes rc <= maxB ->
  Forall (fitting maxB) l ->
  exists rc' es',
    acts l rc = Some rc' /\ Rep rc' es' /\ maxBytes rc' = maxB /\
    usedBytes rc' <= maxB.
Proof.
  intros HR Hm H0 Hu Hfit. revert rc es HR Hm Hu.
  induction Hfit as [|a l Ha _ IH]; intros rc es HR Hm Hu; simpl.
  - by exists rc, es.
  - destruct (act_invariant maxB a rc es HR Hm H0 Hu Ha)
      as (rc1 & es1 & -> & HR1 & Hm1 & Hu1).
    simpl. by apply (IH rc1 es1).
Qed.

Lemma Rep_ends rc es :
  Rep rc es ->
  (head rc = None <-> items rc = ∅) /\ (tail rc = None <-> items rc = ∅).
Proof.
  intros HR. pose proof (Rep_size_items rc es HR) as Hsize.
  destruct HR as (cs & <- & (_ & Hh & Ht & _) & Hi & _).
  rewrite Hh, Ht. destruct (snoc_cases cs) as [->|(front & c & ->)].
  - rewrite Hi. done.
  - rewrite last_loc_snoc, first_loc_app.
    assert (items rc ≠ ∅).
    { intros He. rewrite He, map_size_empty, length_fmap, length_app in Hsize.
      simpl in Hsize. lia. }
    split; split; try done; by destruct front.
Qed.

(** X27.  The list and the index stay consistent.  Run any sequence of
    Store, Get and [cleanupExpired] on a new cache with a non-negative
    byte budget, every stored entry having a cost that fits above the
    budget in an [int].  Every call returns; the recency list read from
    [head] holds exactly the keys of the hash index, each once; [head]
    and [tail] are nil exactly when the index is empty; and the
    used-byte counter is the sum of the costs of the indexed entries,
    between 0 and the budget. *)
Theorem X27_list_and_index_agree (ttl maxBytes : Z) (l : list Action) :
  0 <= maxBytes -> Forall (fitting maxBytes) l ->
  exists rc ks,
    acts l (NewResponseCache ttl maxBytes) = Some rc /\
    recency rc = Some ks /\ NoDup ks /\
    (forall k, k ∈ ks <-> is_Some (items rc !! k)) /\
    length ks = size (items rc) /\
    (head rc = None <-> items rc = ∅) /\
    (tail rc = None <-> items rc = ∅) /\
    usedBytes rc = liveCost rc /\
    0 <= usedBytes rc <= maxBytes.
Proof.
  intros H0 Hfit.
  destruct (acts_invariant maxBytes l (NewResponseCache ttl maxBytes) []
              (Rep_new ttl maxBytes) eq_refl H0 H0 Hfit)
    as (rc & es & Hrun & HR & _ & Hu).
  destruct (Rep_ends rc es HR) as [Hh Ht].
  exists rc, (keys es). split_and!; try done.
  - by apply Rep_recency.
  - by destruct HR as (cs & _ & _ & _ & ? & _).
  - intros k. symmetry. by apply Rep_lookup_Some.
  - rewrite (Rep_size_items rc es HR). unfold keys. by rewrite length_fmap.
  - by apply (Rep_liveCost rc es).
  - destruct HR as (cs & _ & _ & _ & _ & -> & Hs & _). by apply total_nonneg.
Qed.

Lemma X27_list_and_index_agree_witness :
  let v := replicate 35 Byte.x00 in
  let l := [ActStore "A" v 0; ActStore "B" v 1; ActGet "A" 2; ActCleanup 1001;
            ActStore "C" v 1003] in
  exists rc,
    acts l (NewResponseCache 1000 250) = Some rc /\
    recency rc = Some ["C"; "B"] /\ usedBytes rc = 200.
Proof.
  intros v l.
  destruct (X27_list_and_index_agree 1000 250 l) as (rc & ks & Hrun & _).
  - lia.
  - repeat constructor; vm_compute; intros H; discriminate H.
  - exists rc. split; [exact Hrun|].
    vm_compute in Hrun. injection Hrun as <-. split; reflexivity.
Defined.

End CacheFacts.

(** ** The router *)

Module RouterFacts.
Import Router Scenario.

(** The two orders in which a loop can visit [registry_ab]. *)
Lemma ranges_registry_ab :
  Reg.ranges registry_ab [backend_a; backend_b] /\
  Reg.ranges registry_ab [backend_b; backend_a].
Proof.
  unfold Reg.ranges.
  assert ((map_to_list (Reg.servers registry_ab)).*2 ≡ₚ [backend_a; backend_b])
    as -> by (vm_compute; (reflexivity || apply perm_swap)).
  split; [reflexivity|apply perm_swap].
Qed.

(** C7 (as the code behaves).  Two backends [a] and [b] registered
    under the same prefix, both healthy, no breaker open.  When the two
    loops over the registry table visit the servers in the same order
    at both calls, two successive resolutions give [a] then [b].  But
    the order of a loop over a Go map may change from one loop to the
    next: when the second pass of the first call visits [a, b] and the
    second pass of the second call visits [b, a], both resolutions give
    [a].  Once [b] is unhealthy every resolution gives [a], in either
    order and whatever the counter. *)
Theorem C7_round_robin_follows_map_order :
  let o_ab := [backend_a; backend_b] in
  let o_ba := [backend_b; backend_a] in
  let first := ResolveBackend o_ab o_ab 20 "/api/x" app_ab in
  (Reg.ranges registry_ab o_ab /\ Reg.ranges registry_ab o_ba) /\
  (chosen first = Some "a" /\
   chosen (ResolveBackend o_ab o_ab 21 "/api/x" first.2) = Some "b") /\
  (chosen first = Some "a" /\
   chosen (ResolveBackend o_ab o_ba 21 "/api/x" first.2) = Some "a") /\
  (forall n,
     let app := set_roundRobinIndex (<["/api" := n]> ∅)
                  (set_HealthMonitor health_a_only app_ab) in
     chosen (ResolveBackend o_ab o_ab 30 "/api/x" app) = Some "a" /\
     chosen (ResolveBackend o_ab o_ba 30 "/api/x" app) = Some "a").
Proof.
  split; [apply ranges_registry_ab|].
  split; [split; vm_compute; reflexivity|].
  split; [split; vm_compute; reflexivity|].
  intros n app. subst app.
  unfold chosen, ResolveBackend.
  change (Reg.ServersForPath [backend_a; backend_b] [backend_a; backend_b] "/api/x")
    with ("/api", [backend_a; backend_b], true).
  change (Reg.ServersForPath [backend_a; backend_b] [backend_b; backend_a] "/api/x")
    with ("/api", [backend_b; backend_a], true).
  cbn [String.eqb orb negb length Z.of_nat Z.eqb].
  change (eligible 30 _ [backend_a; backend_b] _)
    with ([backend_a],
          CB.write "b" CB.newBreaker
            (CB.write "a" CB.newBreaker CB.NewCircuitBreakerManager)).
  change (eligible 30 _ [backend_b; backend_a] _)
    with ([backend_a],
          CB.write "a" CB.newBreaker
            (CB.write "b" CB.newBreaker CB.NewCircuitBreakerManager)).
  cbn -[Z.rem wrap_int].
  rewrite lookup_insert_eq. cbn -[Z.rem wrap_int].
  rewrite Z.rem_1_r. done.
Qed.

(** *** Resolution in general *)

Lemma AllowRequest_admits_not_Open s now cbm cbm' :
  CB.AllowRequest s now cbm = (true, cbm') ->
  CB.GetBreakerState s cbm' ≠ CB.Open.
Proof.
  unfold CB.AllowRequest, CB.lookupOrCreate, CB.GetBreakerState.
  destruct (CB.breakers cbm !! s) as [b|] eqn:E.
  - destruct (CB.State b) eqn:Est.
    + intros [= <-]. by rewrite E, Est.
    + destruct (_ <=? _); [|done]. intros [= <-].
      by rewrite CBFacts.lookup_write.
    + destruct (_ =? _); [|done]. intros [= <-].
      rewrite CBFacts.lookup_write. simpl. by rewrite Est.
  - simpl. intros [= <-]. by rewrite CBFacts.lookup_write.
Qed.

Lemma AllowRequest_never_opens s s' now cbm :
  CB.GetBreakerState s cbm ≠ CB.Open ->
  CB.GetBreakerState s (CB.AllowRequest s' now cbm).2 ≠ CB.Open.
Proof.
  intros Hs. destruct (decide (s' = s)) as [->|Hne].
  - destruct (CB.AllowRequest s now cbm) as [[] cbm'] eqn:E.
    + by apply AllowRequest_admits_not_Open in E.
    + simpl. revert E Hs.
      unfold CB.AllowRequest, CB.lookupOrCreate, CB.GetBreakerState.
      destruct (CB.breakers cbm !! s) as [b|] eqn:Eb; [|done].
      destruct (CB.State b) eqn:Est; [done| |].
      * by intros _ [].
      * destruct (_ =? _); [done|]. intros [= <-]. by rewrite Eb, Est.
  - pose proof (CBFacts.call_other (CB.CallAllowRequest s' now) cbm s Hne) as H.
    simpl in H. unfold CB.GetBreakerState in *.
    destruct (CB.AllowRequest s' now cbm). simpl in *. by rewrite H.
Qed.

Lemma AllowRequest_Closed_state s now cbm :
  CB.GetBreakerState s cbm = CB.Closed ->
  (CB.AllowRequest s now cbm).1 = true /\
  forall s', CB.GetBreakerState s' (CB.AllowRequest s now cbm).2
             = CB.GetBreakerState s' cbm.
Proof.
  unfold CB.AllowRequest, CB.lookupOrCreate, CB.GetBreakerState.
  destruct (CB.breakers cbm !! s) as [b|] eqn:Eb.
  - intros ->. done.
  - intros _. simpl. split; [done|]. intros s'.
    destruct (decide (s' = s)) as [->|Hne].
    + by rewrite lookup_insert_eq, Eb.
    + by rewrite lookup_insert_ne.
Qed.

Lemma eligible_snoc now hm cands c cbm :
  eligible now hm (cands ++ [c]) cbm =
    ((if Health.IsHealthy (Reg.Name c) hm
         && (CB.AllowRequest (Reg.Name c) now (eligible now hm cands cbm).2).1
      then (eligible now hm cands cbm).1 ++ [c]
      else (eligible now hm cands cbm).1),
     (CB.AllowRequest (Reg.Name c) now (eligible now hm cands cbm).2).2).
Proof.
  unfold eligible. rewrite foldl_app. simpl.
  destruct (foldl _ _ cands) as [hs cbm1]. simpl.
  by destruct (CB.AllowRequest (Reg.Name c) now cbm1).
Qed.

(** The eligible servers are candidates, in the order of the candidate
    list, healthy, and their breakers are not Open afterwards. *)
Lemma eligible_sound now hm cands cbm :
  (eligible now hm cands cbm).1 `sublist_of` cands /\
  Forall (fun c => Health.IsHealthy (Reg.Name c) hm = true /\
                   CB.GetBreakerState (Reg.Name c) (eligible now hm cands cbm).2
                     ≠ CB.Open)
         (eligible now hm cands cbm).1.
Proof.
  induction cands as [|c cands [IH1 IH2]] using rev_ind.
  - split; [done|]. apply Forall_nil_2.
  - rewrite eligible_snoc. simpl.
    assert (Hkeep : Forall (fun c0 =>
              Health.IsHealthy (Reg.Name c0) hm = true /\
              CB.GetBreakerState (Reg.Name c0)
                (CB.AllowRequest (Reg.Name c) now (eligible now hm cands cbm).2).2
                ≠ CB.Open) (eligible now hm cands cbm).1).
    { eapply Forall_impl; [exact IH2|]. intros c0 [Hh Hc]. split; [done|].
      by apply AllowRequest_never_opens. }
    destruct (Health.IsHealthy (Reg.Name c) hm) eqn:Eh; simpl.
    + destruct (CB.AllowRequest (Reg.Name c) now (eligible now hm cands cbm).2)
        as [[] cbm2] eqn:Ea; simpl in *.
      * split; [by apply sublist_app|].
        apply Forall_app. split; [done|]. apply Forall_singleton.
        split; [done|]. by apply AllowRequest_admits_not_Open in Ea.
      * split; [|done]. by apply sublist_inserts_r.
    + split; [|done]. by apply sublist_inserts_r.
Qed.

Lemma eligible_unhealthy now hm cands cbm :
  Forall (fun c => Health.IsHealthy (Reg.Name c) hm = false) cands ->
  (eligible now hm cands cbm).1 = [].
Proof.
  induction cands as [|c cands IH] using rev_ind; [done|].
  intros [H1 [Hc _]%Forall_cons]%Forall_app.
  rewrite eligible_snoc. simpl. rewrite Hc. simpl. by apply IH.
Qed.

(** When every candidate is healthy and its breaker Closed, all are
    eligible and no breaker changes state. *)
Lemma eligible_all now hm cands cbm :
  Forall (fun c => Health.IsHealthy (Reg.Name c) hm = true /\
                   CB.GetBreakerState (Reg.Name c) cbm = CB.Closed) cands ->
  (eligible now hm cands cbm).1 = cands /\
  forall s, CB.GetBreakerState s (eligible now hm cands cbm).2
            = CB.GetBreakerState s cbm.
Proof.
  induction cands as [|c cands IH] using rev_ind; [done|].
  intros [H1 [[Hh Hc] _]%Forall_cons]%Forall_app.
  destruct (IH H1) as [IH1 IH2]. rewrite eligible_snoc. simpl.
  rewrite <- IH2 in Hc.
  destruct (AllowRequest_Closed_state _ now _ Hc) as [Ha Hs].
  rewrite Hh, Ha, IH1. simpl. split; [done|].
  intros s. by rewrite Hs, IH2.
Qed.

Lemma ResolveBackend_unfold order1 order2 now requestPath app :
  ResolveBackend order1 order2 now requestPath app =
    let res := Reg.ServersForPath order1 order2 requestPath in
    if String.eqb res.1.1 EmptyString || negb res.2
       || (Z.of_nat (length res.1.2) =? 0)
    then (no_route, app)
    else
      let el := eligible now (HealthMonitor app) res.1.2 (CircuitBreaker app) in
      let app1 := set_CircuitBreaker el.2 app in
      if Z.of_nat (length el.1) =? 0 then (no_healthy_backends, app1)
      else
        let counter := default 0 (roundRobinIndex app !! res.1.1) in
        let index := Z.rem counter (Z.of_nat (length el.1)) in
        let app2 :=
          set_roundRobinIndex
            (<[res.1.1 := wrap_int (counter + 1)]> (roundRobinIndex app)) app1 in
        if index <? 0 then (index_out_of_range, app2)
        else
          match el.1 !! Z.to_nat index with
          | None => (index_out_of_range, app2)
          | Some chosen =>
              (Resolved (mkBackendInfo chosen
                           (Reg.BaseURL chosen +:+ TrimPrefix requestPath res.1.1)
                           res.1.1), app2)
          end.
Proof.
  unfold ResolveBackend.
  destruct (Reg.ServersForPath order1 order2 requestPath) as [[prefix cands] found].
  simpl. destruct (_ || _ || _); [done|].
  by destruct (eligible now (HealthMonitor app) cands (CircuitBreaker app)).
Qed.

(** The first test of [ResolveBackend] fails exactly when some
    non-empty registered prefix starts the path. *)
Lemma no_route_test r order1 order2 requestPath :
  Reg.ranges r order1 -> Reg.ranges r order2 ->
  let res := Reg.ServersForPath order1 order2 requestPath in
  (String.eqb res.1.1 EmptyString || negb res.2
   || (Z.of_nat (length res.1.2) =? 0)) = false
  <-> exists p, Reg.routes r requestPath p.
Proof.
  intros Ho1 Ho2 res.
  destruct (RegFacts.ServersForPath_spec r order1 order2 requestPath Ho1 Ho2)
    as [Hyes Hno]. fold res in Hyes, Hno.
  assert (Hlen : res.2 = (0 <? Z.of_nat (length res.1.2))) by done.
  split.
  - intros Hf. exists res.1.1.
    destruct (String.eqb_spec res.1.1 EmptyString) as [He|Hne]; [done|].
    split_and!; [| |done].
    + apply (RegFacts.ranges_registered r order1); [done|].
      pose proof (RegFacts.scanPrefixes_spec requestPath
                    (concat (Reg.Prefixes <$> order1)) EmptyString) as Hs.
      simpl in Hs. rewrite <- RegFacts.first_pass_concat in Hs.
      destruct Hs as [[Hs|(Hs & _)] _]; [by destruct Hne|done].
    + apply RegFacts.HasPrefix_spec.
      pose proof (RegFacts.scanPrefixes_spec requestPath
                    (concat (Reg.Prefixes <$> order1)) EmptyString) as Hs.
      simpl in Hs. rewrite <- RegFacts.first_pass_concat in Hs.
      destruct Hs as [[Hs|(_ & Hs & _)] _]; [by destruct Hne|done].
  - intros H. destruct (Hyes H) as ((_ & _ & Hne) & _ & _ & _ & Hfound).
    apply String.eqb_neq in Hne.
    assert (H0 : (Z.of_nat (length res.1.2) =? 0) = false).
    { rewrite Hfound in Hlen. symmetry in Hlen. apply Z.ltb_lt in Hlen.
      apply Z.eqb_neq. lia. }
    by rewrite Hne, Hfound, H0.
Qed.

Lemma substring_all s : String.substring 0 (String.length s) s = s.
Proof. induction s as [|a s IH]; simpl; [done|]. by rewrite IH. Qed.

Lemma prefix_substring p s :
  String.prefix p s = true ->
  s = p +:+ String.substring (String.length p)
              (String.length s - String.length p) s.
Proof.
  revert s. induction p as [|a p IH]; intros s; simpl.
  - intros _. rewrite Nat.sub_0_r. by rewrite substring_all.
  - destruct s as [|b s]; [done|]. simpl.
    destruct (Ascii.ascii_dec a b) as [->|]; [|done].
    intros H.
    change (String b s = String b (p +:+ String.substring (String.length p)
                                     (String.length s - String.length p) s)).
    f_equal. by apply IH.
Qed.

Lemma TrimPrefix_spec s p :
  Reg.is_prefix_of p s -> s = p +:+ TrimPrefix s p.
Proof.
  intros H. apply RegFacts.HasPrefix_spec in H. unfold TrimPrefix.
  rewrite H. by apply prefix_substring.
Qed.

(** X13.  A resolved backend is a sound choice.  Its prefix is the
    longest non-empty registered prefix that starts the path; its server
    is registered under that prefix, is healthy according to the health
    monitor, and its breaker is not Open after the resolution; the
    target URL is the server's base URL followed by the path without the
    prefix.  The resolution leaves cache, registry and health monitor as
    they were. *)
Theorem X13_resolved_backend_is_sound (order1 order2 : list Reg.Server)
    (now : Time) (requestPath : string) (app app' : Application)
    (b : BackendInfo) :
  Reg.ranges (Registry app) order1 -> Reg.ranges (Registry app) order2 ->
  ResolveBackend order1 order2 now requestPath app = (Resolved b, app') ->
  Reg.routes (Registry app) requestPath (Prefix b) /\
  (forall p, Reg.routes (Registry app) requestPath p ->
             Reg.len p <= Reg.len (Prefix b)) /\
  (exists name, Reg.servers (Registry app) !! name = Some (Server b)) /\
  Prefix b ∈ Reg.Prefixes (Server b) /\
  Health.IsHealthy (Reg.Name (Server b)) (HealthMonitor app) = true /\
  CB.GetBreakerState (Reg.Name (Server b)) (CircuitBreaker app') ≠ CB.Open /\
  (exists rest, requestPath = Prefix b +:+ rest /\
                TargetURL b = Reg.BaseURL (Server b) +:+ rest) /\
  Cache app' = Cache app /\ Registry app' = Registry app /\
  HealthMonitor app' = HealthMonitor app.
Proof.
  intros Ho1 Ho2. rewrite ResolveBackend_unfold. cbv zeta.
  set (res := Reg.ServersForPath order1 order2 requestPath).
  destruct (_ || _ || _) eqn:Et; [done|].
  apply (no_route_test (Registry app) order1 order2 requestPath Ho1 Ho2) in Et.
  destruct (RegFacts.ServersForPath_spec _ order1 order2 requestPath Ho1 Ho2)
    as [Hyes _].
  destruct (Hyes Et) as (Hr & Hmax & _ & Hin & _). fold res in Hr, Hmax, Hin.
  destruct (eligible_sound now (HealthMonitor app) res.1.2 (CircuitBreaker app))
    as [Hsub Hall].
  destruct (_ =? 0); [done|]. destruct (_ <? 0); [done|].
  destruct (_ !! _) as [chosen|] eqn:Ec; [|done].
  intros [= <- <-]. simpl.
  apply list_elem_of_lookup_2 in Ec.
  pose proof (proj1 (Forall_forall _ _) Hall _ Ec) as [Hh Hc].
  apply (fun H => elem_of_sublist _ _ _ H Hsub), Hin in Ec as [Hreg Hp].
  split_and!; try done.
  - intros p Hp'. destruct (decide (p = res.1.1)) as [->|Hd]; [reflexivity|].
    by apply Z.lt_le_incl, Hmax.
  - exists (TrimPrefix requestPath res.1.1). split; [|done].
    apply TrimPrefix_spec. by destruct Hr as (_ & ? & _).
Qed.

Lemma X13_resolved_backend_is_sound_witness :
  let o := [Scenario.backend_a; Scenario.backend_b] in
  exists b app', ResolveBackend o o 20 "/api/x" app_ab = (Resolved b, app') /\
    Reg.routes registry_ab "/api/x" (Prefix b) /\
    Health.IsHealthy (Reg.Name (Server b)) health_ab = true /\
    TargetURL b = "http://localhost:4200/x".
Proof.
  intros o.
  destruct (ResolveBackend o o 20 "/api/x" app_ab) as [res app'] eqn:E.
  destruct res as [b| | |]; try (vm_compute in E; discriminate E).
  exists b, app'. split; [reflexivity|].
  destruct (X13_resolved_backend_is_sound o o 20 "/api/x" app_ab app' b)
    as (Hr & _ & _ & _ & Hh & _ & _ & _).
  - apply ranges_registry_ab.
  - apply ranges_registry_ab.
  - exact E.
  - split; [exact Hr|]. split; [exact Hh|].
    vm_compute in E. injection E as <- _. reflexivity.
Defined.

(** X14.  The two refusals of [ResolveBackend].  It answers [no_route]
    exactly when no non-empty registered prefix starts the path, and
    then changes nothing.  When a route exists but no server of the
    table is healthy it answers [no_healthy_backends].  That answer
    never advances a round-robin counter and leaves cache, registry and
    health monitor as they were. *)
Theorem X14_resolution_refusals (order1 order2 : list Reg.Server)
    (now : Time) (requestPath : string) (app : Application) :
  Reg.ranges (Registry app) order1 -> Reg.ranges (Registry app) order2 ->
  let result := ResolveBackend order1 order2 now requestPath app in
  (result.1 = no_route <->
   ~ exists p, Reg.routes (Registry app) requestPath p) /\
  (result.1 = no_route -> result.2 = app) /\
  ((exists p, Reg.routes (Registry app) requestPath p) ->
   (forall name server, Reg.servers (Registry app) !! name = Some server ->
      Health.IsHealthy (Reg.Name server) (HealthMonitor app) = false) ->
   result.1 = no_healthy_backends) /\
  (result.1 = no_healthy_backends ->
   roundRobinIndex result.2 = roundRobinIndex app /\
   Cache result.2 = Cache app /\ Registry result.2 = Registry app /\
   HealthMonitor result.2 = HealthMonitor app).
Proof.
  intros Ho1 Ho2 result. subst result.
  rewrite ResolveBackend_unfold. cbv zeta.
  set (res := Reg.ServersForPath order1 order2 requestPath).
  pose proof (no_route_test (Registry app) order1 order2 requestPath Ho1 Ho2)
    as Ht. fold res in Ht. cbv zeta in Ht.
  destruct (_ || _ || _) eqn:Et.
  - assert (Hno : ~ exists p, Reg.routes (Registry app) requestPath p).
    { intros H. apply (proj2 Ht) in H. congruence. }
    split_and!; try done.
  - assert (Hex : exists p, Reg.routes (Registry app) requestPath p)
      by by apply Ht.
    set (el := eligible now (HealthMonitor app) res.1.2 (CircuitBreaker app)).
    assert (Hne : forall (x : Application) (y : ResolveResult * Application),
              (if Z.of_nat (length el.1) =? 0 then (no_healthy_backends, x)
               else y).1 = no_route -> y.1 = no_route).
    { intros x y. by destruct (Z.of_nat (length el.1) =? 0). }
    split_and!.
    + split; [|done]. intros H%Hne. exfalso. revert H.
      destruct (_ <? 0); [done|]. by destruct (_ !! _).
    + intros H%Hne. exfalso. revert H.
      destruct (_ <? 0); [done|]. by destruct (_ !! _).
    + intros _ Hun.
      destruct (RegFacts.ServersForPath_spec _ order1 order2 requestPath Ho1 Ho2)
        as [Hyes _].
      destruct (Hyes Hex) as (_ & _ & _ & Hin & _). fold res in Hin.
      assert (el.1 = []) as ->; [|done].
      apply eligible_unhealthy, Forall_forall. intros c Hc.
      apply Hin in Hc as [[name Hc] _]. by eapply Hun.
    + destruct (Z.of_nat (length el.1) =? 0); [done|].
      destruct (_ <? 0); [done|]. by destruct (_ !! _).
Qed.

Lemma X14_resolution_refusals_witness :
  let o := [Scenario.backend_a; Scenario.backend_b] in
  (ResolveBackend o o 20 "/nope" app_ab).1 = no_route /\
  (ResolveBackend o o 20 "/nope" app_ab).2 = app_ab.
Proof.
  intros o.
  destruct (X14_resolution_refusals o o 20 "/nope" app_ab) as (_ & H & _).
  - apply ranges_registry_ab.
  - apply ranges_registry_ab.
  - split; [reflexivity|]. apply H. reflexivity.
Defined.

Local Arguments Reg.ServersForPath : simpl never.

(** One resolution when every candidate is healthy with a Closed
    breaker and the counter is non-negative. *)
Lemma ResolveBackend_all_closed order1 order2 now requestPath app :
  let res := Reg.ServersForPath order1 order2 requestPath in
  let counter := default 0 (roundRobinIndex app !! res.1.1) in
  (String.eqb res.1.1 EmptyString || negb res.2
   || (Z.of_nat (length res.1.2) =? 0)) = false ->
  Forall (fun c => Health.IsHealthy (Reg.Name c) (HealthMonitor app) = true /\
                   CB.GetBreakerState (Reg.Name c) (CircuitBreaker app)
                     = CB.Closed) res.1.2 ->
  0 <= counter < max_int ->
  exists b app',
    ResolveBackend order1 order2 now requestPath app = (Resolved b, app') /\
    res.1.2 !! Z.to_nat (counter mod Z.of_nat (length res.1.2))
      = Some (Server b) /\
    Prefix b = res.1.1 /\
    HealthMonitor app' = HealthMonitor app /\
    (forall s, CB.GetBreakerState s (CircuitBreaker app')
               = CB.GetBreakerState s (CircuitBreaker app)) /\
    roundRobinIndex app' = <[res.1.1 := counter + 1]> (roundRobinIndex app).
Proof.
  intros res counter Ht Hall Hc.
  rewrite ResolveBackend_unfold. cbv zeta. fold res. rewrite Ht.
  destruct (eligible_all now _ _ _ Hall) as [He1 He2]. rewrite He1.
  fold counter.
  assert (Hn : 0 < Z.of_nat (length res.1.2)).
  { apply orb_false_iff in Ht as [_ Ht]. apply Z.eqb_neq in Ht. lia. }
  assert ((Z.of_nat (length res.1.2) =? 0) = false) as -> by (apply Z.eqb_neq; lia).
  rewrite Z.rem_mod_nonneg by lia.
  pose proof (Z.mod_pos_bound counter _ Hn) as Hm.
  assert ((counter mod Z.of_nat (length res.1.2) <? 0) = false) as ->
    by (apply Z.ltb_ge; lia).
  destruct (res.1.2 !! Z.to_nat (counter mod Z.of_nat (length res.1.2)))
    as [chosen|] eqn:Ec.
  - eexists _, _. split; [reflexivity|]. simpl. split_and!; try done.
    rewrite wrap_int_id; [done|]. unfold min_int, max_int in *. lia.
  - apply lookup_ge_None in Ec. lia.
Qed.

Lemma resolutions_cons order1 order2 now nows requestPath app :
  resolutions order1 order2 (now :: nows) requestPath app =
    ((ResolveBackend order1 order2 now requestPath app).1
       :: (resolutions order1 order2 nows requestPath
             (ResolveBackend order1 order2 now requestPath app).2).1,
     (resolutions order1 order2 nows requestPath
        (ResolveBackend order1 order2 now requestPath app).2).2).
Proof.
  simpl. destruct (ResolveBackend order1 order2 now requestPath app) as [r a].
  simpl. by destruct (resolutions order1 order2 nows requestPath a).
Qed.

(** X15.  Round robin under a stable visiting order.  While every
    candidate of the path is healthy with a Closed breaker, and the
    loops over the registry table visit the servers in the same order
    at every call, successive resolutions walk through the candidate
    list cyclically from the counter of the prefix: the [k]-th one
    returns the candidate at position [(counter + k) mod n] of the [n]
    candidates, so any [n] successive resolutions use each candidate
    once, and none fails or panics. *)
Theorem X15_round_robin_under_stable_order (order1 order2 : list Reg.Server)
    (nows : list Time) (requestPath : string) (app : Application) :
  let res := Reg.ServersForPath order1 order2 requestPath in
  let counter := default 0 (roundRobinIndex app !! res.1.1) in
  Reg.ranges (Registry app) order1 -> Reg.ranges (Registry app) order2 ->
  (exists p, Reg.routes (Registry app) requestPath p) ->
  Forall (fun c => Health.IsHealthy (Reg.Name c) (HealthMonitor app) = true /\
                   CB.GetBreakerState (Reg.Name c) (CircuitBreaker app)
                     = CB.Closed) res.1.2 ->
  0 <= counter -> counter + Z.of_nat (length nows) <= max_int ->
  forall k, (k < length nows)%nat ->
    exists b,
      (resolutions order1 order2 nows requestPath app).1 !! k
        = Some (Resolved b) /\
      res.1.2 !! Z.to_nat ((counter + Z.of_nat k) mod Z.of_nat (length res.1.2))
        = Some (Server b) /\
      Prefix b = res.1.1.
Proof.
  intros res counter Ho1 Ho2 Hex.
  apply (no_route_test _ order1 order2 requestPath Ho1 Ho2) in Hex.
  fold res in Hex. clear Ho1 Ho2. subst counter.
  revert app. induction nows as [|now nows IH]; intros app Hall H0 Hmax k Hk.
  - simpl in Hk. lia.
  - destruct (ResolveBackend_all_closed order1 order2 now requestPath app
                Hex Hall) as (b & app' & Hres & Hb & Hp & Hh & Hcb & Hrr).
    { cbn [length] in Hmax. fold res. lia. }
    fold res in Hb, Hp, Hrr. rewrite resolutions_cons, Hres. cbn [fst snd].
    destruct k as [|k].
    + exists b. rewrite Z.add_0_r. done.
    + simpl in Hk. cbn [length] in Hmax.
      assert (Hall' : Forall (fun c =>
                Health.IsHealthy (Reg.Name c) (HealthMonitor app') = true /\
                CB.GetBreakerState (Reg.Name c) (CircuitBreaker app') = CB.Closed)
                res.1.2).
      { eapply Forall_impl; [exact Hall|]. intros c [H1 H2].
        by rewrite Hh, Hcb. }
      set (c := default 0 (roundRobinIndex app !! res.1.1)) in *. clearbody c.
      assert (Hc' : default 0 (roundRobinIndex app' !! res.1.1) = c + 1)
        by by rewrite Hrr, lookup_insert_eq.
      destruct (IH app' Hall') with (k := k) as (b' & Hb1 & Hb2 & Hb3).
      * rewrite Hc'. lia.
      * rewrite Hc'. lia.
      * lia.
      * exists b'. split; [exact Hb1|]. split; [|exact Hb3].
        rewrite Hc' in Hb2. rewrite <- Hb2. do 3 f_equal. lia.
Qed.

Lemma X15_round_robin_under_stable_order_witness :
  let o := [Scenario.backend_a; Scenario.backend_b] in
  let results := (resolutions o o [20; 21; 22] "/api/x" app_ab).1 in
  exists b0 b1 b2,
    results = [Resolved b0; Resolved b1; Resolved b2] /\
    Server b0 = Scenario.backend_a /\ Server b1 = Scenario.backend_b /\
    Server b2 = Scenario.backend_a.
Proof.
  intros o results.
  assert (H : forall k, (k < 3)%nat -> exists b,
            results !! k = Some (Resolved b) /\
            [Scenario.backend_a; Scenario.backend_b]
              !! Z.to_nat ((0 + Z.of_nat k) mod 2) = Some (Server b) /\
            Prefix b = "/api").
  { apply (X15_round_robin_under_stable_order o o [20; 21; 22] "/api/x" app_ab).
    - apply ranges_registry_ab.
    - apply ranges_registry_ab.
    - exists "/api". split_and!; [|by exists "/x"|discriminate].
      exists "a", Scenario.backend_a. split; [reflexivity|].
      apply list_elem_of_here.
    - repeat constructor.
    - reflexivity.
    - vm_compute. discriminate. }
  destruct (H 0%nat) as (b0 & H0 & S0 & _); [lia|].
  destruct (H 1%nat) as (b1 & H1 & S1 & _); [lia|].
  destruct (H 2%nat) as (b2 & H2 & S2 & _); [lia|].
  exists b0, b1, b2. split.
  - revert H0 H1 H2. subst results.
    destruct (resolutions o o [20; 21; 22] "/api/x" app_ab).1
      as [|r0 [|r1 [|r2 [|r3 rest]]]] eqn:E;
      try (vm_compute in E; discriminate E).
    simpl. by intros [= ->] [= ->] [= ->].
  - split_and!; [by injection S0|by injection S1|by injection S2].
Defined.

(** X16.  The index into the eligible servers is in range.  While the
    round-robin counters are non-negative, a resolution never indexes
    [healthyServers] out of range (a run-time panic in Go), whatever the
    registry, the health records and the breakers are; and the counters
    stay non-negative as long as they are below the largest [int]. *)
Theorem X16_index_in_range (order1 order2 : list Reg.Server) (now : Time)
    (requestPath : string) (app : Application) :
  counters_nonneg app ->
  let result := ResolveBackend order1 order2 now requestPath app in
  result.1 ≠ index_out_of_range /\
  (map_Forall (fun _ n => n < max_int) (roundRobinIndex app) ->
   counters_nonneg result.2).
Proof.
  intros Hnn result. subst result. rewrite ResolveBackend_unfold. cbv zeta.
  set (res := Reg.ServersForPath order1 order2 requestPath).
  set (el := eligible now (HealthMonitor app) res.1.2 (CircuitBreaker app)).
  set (counter := default 0 (roundRobinIndex app !! res.1.1)).
  assert (H0 : 0 <= counter).
  { subst counter. destruct (roundRobinIndex app !! res.1.1) as [n|] eqn:E;
      [|done]. simpl. by apply (Hnn _ _ E). }
  destruct (_ || _ || _); [done|].
  destruct (Z.of_nat (length el.1) =? 0) eqn:En; [done|].
  apply Z.eqb_neq in En.
  assert (Hn : 0 < Z.of_nat (length el.1)) by lia.
  rewrite Z.rem_mod_nonneg by lia.
  pose proof (Z.mod_pos_bound counter _ Hn) as Hm.
  assert ((counter mod Z.of_nat (length el.1) <? 0) = false) as ->
    by (apply Z.ltb_ge; lia).
  destruct (el.1 !! Z.to_nat (counter mod Z.of_nat (length el.1))) eqn:Ec.
  - split; [done|]. intros Hlt. cbn [snd]. unfold counters_nonneg. simpl.
    apply map_Forall_insert_2; [|done].
    rewrite wrap_int_id; [lia|].
    assert (counter < max_int); [|unfold min_int, max_int in *; lia].
    subst counter. destruct (roundRobinIndex app !! res.1.1) as [n|] eqn:E.
    + simpl. by apply (Hlt _ _ E).
    + done.
  - apply lookup_ge_None in Ec. lia.
Qed.

Lemma X16_index_in_range_witness :
  let o := [Scenario.backend_a; Scenario.backend_b] in
  (ResolveBackend o o 20 "/api/x" app_ab).1 ≠ index_out_of_range.
Proof.
  intros o. apply (X16_index_in_range o o 20 "/api/x" app_ab).
  unfold counters_nonneg. simpl. apply map_Forall_empty.
Defined.

(** A resolution when the path has a single candidate. *)
Lemma ResolveBackend_single order1 order2 now requestPath app s :
  let res := Reg.ServersForPath order1 order2 requestPath in
  res.1.1 ≠ EmptyString -> res.1.2 = [s] ->
  ResolveBackend order1 order2 now requestPath app =
    let allowed := CB.AllowRequest (Reg.Name s) now (CircuitBreaker app) in
    if Health.IsHealthy (Reg.Name s) (HealthMonitor app) && allowed.1 then
      (Resolved (mkBackendInfo s
                   (Reg.BaseURL s +:+ TrimPrefix requestPath res.1.1) res.1.1),
       set_roundRobinIndex
         (<[res.1.1 := wrap_int (default 0 (roundRobinIndex app !! res.1.1) + 1)]>
            (roundRobinIndex app))
         (set_CircuitBreaker allowed.2 app))
    else (no_healthy_backends, set_CircuitBreaker allowed.2 app).
Proof.
  intros res Hne Hs. rewrite ResolveBackend_unfold. cbv zeta. fold res.
  assert (Hlen : res.2 = (0 <? Z.of_nat (length res.1.2))) by done.
  rewrite Hs in Hlen |- *. rewrite Hlen.
  apply String.eqb_neq in Hne. rewrite Hne.
  change (false || negb (0 <? Z.of_nat (length [s]))
          || (Z.of_nat (length [s]) =? 0)) with false. cbv iota.
  unfold eligible. cbn [foldl].
  destruct (CB.AllowRequest (Reg.Name s) now (CircuitBreaker app))
    as [allowed cbm]. cbn [fst snd].
  destruct (Health.IsHealthy (Reg.Name s) (HealthMonitor app) && allowed);
    [|done].
  change ([] ++ [s]) with [s].
  change (Z.of_nat (length [s]) =? 0) with false. cbv iota.
  change (Z.of_nat (length [s])) with 1. rewrite Z.rem_1_r. done.
Qed.

(** *** The router before the resilient one *)

Lemma route_scan path server ps lp url :
  let res :=
    foldl (fun '(longestPrefix, matchedURL) prefix =>
             if Reg.HasPrefix path prefix
                && (Reg.len longestPrefix <? Reg.len prefix)
             then (prefix, Reg.BaseURL server)
             else (longestPrefix, matchedURL))
          (lp, url) ps in
  res.1 = Reg.scanPrefixes path lp ps /\
  (res = (lp, url) \/ (res.1 ∈ ps /\ res.2 = Reg.BaseURL server)).
Proof.
  revert lp url. induction ps as [|p ps IH]; intros lp url; simpl.
  - split; [done|by left].
  - unfold Reg.scanPrefixes. simpl.
    destruct (Reg.HasPrefix path p && (Reg.len lp <? Reg.len p)).
    + destruct (IH p (Reg.BaseURL server)) as [H1 H2]. split; [exact H1|].
      right. destruct H2 as [->|[H2 H3]]; simpl.
      * split; [apply list_elem_of_here|done].
      * split; [by apply list_elem_of_further|done].
    + destruct (IH lp url) as [H1 H2]. split; [exact H1|].
      destruct H2 as [H2|[H2 H3]]; [by left|right].
      split; [by apply list_elem_of_further|done].
Qed.

Lemma route_scan_all path order lp url :
  let res :=
    foldl (fun acc server =>
             foldl (fun '(longestPrefix, matchedURL) prefix =>
                      if Reg.HasPrefix path prefix
                         && (Reg.len longestPrefix <? Reg.len prefix)
                      then (prefix, Reg.BaseURL server)
                      else (longestPrefix, matchedURL))
                   acc (Reg.Prefixes server))
          (lp, url) order in
  res.1 = foldl (fun longestPrefix server =>
                   Reg.scanPrefixes path longestPrefix (Reg.Prefixes server))
                lp order /\
  (res = (lp, url) \/
   exists server, server ∈ order /\ res.1 ∈ Reg.Prefixes server /\
                  res.2 = Reg.BaseURL server).
Proof.
  revert lp url. induction order as [|s order IH]; intros lp url; simpl.
  - split; [done|by left].
  - pose proof (route_scan path s (Reg.Prefixes s) lp url) as [H1 H2].
    simpl in H1, H2.
    destruct (foldl _ (lp, url) (Reg.Prefixes s)) as [lp1 url1] eqn:E.
    simpl in H1, H2. subst lp1.
    destruct (IH (Reg.scanPrefixes path lp (Reg.Prefixes s)) url1) as [H3 H4].
    split; [exact H3|].
    destruct H4 as [H4|(server & Hin & Hp & Hu)].
    + rewrite H4. simpl. destruct H2 as [[= H2 ->]|[H2 ->]].
      * left. congruence.
      * right. exists s. split; [apply list_elem_of_here|done].
    + right. exists server. split; [by apply list_elem_of_further|done].
Qed.

(** X26.  The former router agrees with the resilient one on the route.
    [findMatchingRoute] finds a route exactly when [ServersForPath]
    does, and the same prefix, whatever the orders of the loops over
    the registry table; its base URL is the one of a candidate of
    [ServersForPath] (which one, when several servers registered the
    prefix, depends on the order of the loop), and
    [determineBackendURL] is that base URL followed by the path without
    the prefix, or an error when there is no route. *)
Theorem X26_former_router_agrees (r : Reg.Registry)
    (order order1 order2 : list Reg.Server) (requestPath : string) :
  Reg.ranges r order -> Reg.ranges r order1 -> Reg.ranges r order2 ->
  let old := findMatchingRoute order requestPath in
  let new := Reg.ServersForPath order1 order2 requestPath in
  old.1.1 = new.1.1 /\ old.2 = new.2 /\
  (old.2 = false -> determineBackendURL order requestPath = None) /\
  (old.2 = true ->
   exists server rest,
     server ∈ new.1.2 /\ old.1.2 = Reg.BaseURL server /\
     requestPath = new.1.1 +:+ rest /\
     determineBackendURL order requestPath
       = Some (Reg.BaseURL server +:+ rest)).
Proof.
  intros Ho Ho1 Ho2. cbv zeta.
  pose proof (route_scan_all requestPath order EmptyString EmptyString)
    as [Hscan Hurl]. cbv zeta in Hscan, Hurl.
  unfold determineBackendURL, findMatchingRoute.
  rewrite RegFacts.ListRegistered_id.
  destruct (foldl _ (EmptyString, EmptyString) order) as [lp url] eqn:E.
  simpl in Hscan, Hurl.
  set (new := Reg.ServersForPath order1 order2 requestPath).
  assert (Hlp : lp = (Reg.ServersForPath order order2 requestPath).1.1)
    by (by rewrite Hscan).
  clear Hscan E.
  pose proof (no_route_test r order order2 requestPath Ho Ho2) as Ht.
  pose proof (no_route_test r order1 order2 requestPath Ho1 Ho2) as Ht1.
  destruct (RegFacts.ServersForPath_spec r order order2 requestPath Ho Ho2)
    as [Hyes Hno].
  destruct (RegFacts.ServersForPath_spec r order1 order2 requestPath Ho1 Ho2)
    as [Hyes1 Hno1].
  cbv zeta in Ht, Ht1, Hyes, Hno, Hyes1, Hno1. fold new in Ht1, Hyes1, Hno1.
  destruct (String.eqb new.1.1 EmptyString || negb new.2
            || (Z.of_nat (length new.1.2) =? 0)) eqn:Etest.
  - assert (Hnone : ~ exists p, Reg.routes r requestPath p).
    { intros H. apply Ht1 in H. congruence. }
    rewrite (Hno1 Hnone). rewrite (Hno Hnone) in Hlp. simpl in Hlp. subst lp.
    simpl. by split_and!.
  - assert (Hex : exists p, Reg.routes r requestPath p) by by apply Ht1.
    destruct (Hyes Hex) as (Hr & Hmax & _ & _ & _).
    destruct (Hyes1 Hex) as (Hr1 & Hmax1 & _ & Hin1 & Hfound1).
    rewrite <- Hlp in Hr, Hmax.
    assert (Hsame : lp = new.1.1).
    { destruct (decide (lp = new.1.1)) as [|Hd]; [done|].
      pose proof (Hmax _ Hr1 (not_eq_sym Hd)).
      pose proof (Hmax1 _ Hr Hd). lia. }
    assert (Hne : lp ≠ EmptyString) by (by destruct Hr as (_ & _ & ?)).
    apply String.eqb_neq in Hne. rewrite Hne. simpl.
    split_and!; [done|exact (eq_sym Hfound1)|done|].
    intros _. destruct Hurl as [[= Hl _]|(server & Hin & Hp & Hu)].
    { apply String.eqb_neq in Hne. by destruct Hne. }
    exists server, (TrimPrefix requestPath lp). split_and!.
    + apply Hin1. split; [|by rewrite <- Hsame].
      by apply (RegFacts.ranges_elem_of r order).
    + done.
    + transitivity (lp +:+ TrimPrefix requestPath lp).
      * apply TrimPrefix_spec. by destruct Hr as (_ & ? & _).
      * f_equal. exact Hsame.
    + by rewrite Hu.
Qed.

Lemma X26_former_router_agrees_witness :
  let o_ab := [Scenario.backend_a; Scenario.backend_b] in
  let o_ba := [Scenario.backend_b; Scenario.backend_a] in
  (findMatchingRoute o_ba "/api/x").1.1
    = (Reg.ServersForPath o_ab o_ab "/api/x").1.1 /\
  determineBackendURL o_ba "/api/x" = Some "http://localhost:2200/x".
Proof.
  intros o_ab o_ba.
  destruct (X26_former_router_agrees registry_ab o_ba o_ab o_ab "/api/x")
    as (H1 & _).
  - apply ranges_registry_ab.
  - apply ranges_registry_ab.
  - apply ranges_registry_ab.
  - split; [exact H1|reflexivity].
Defined.

End RouterFacts.

(** ** The GET handler *)

Module HandlersFacts.
Import Handlers Scenario.

(** Resolving a backend does not touch the cache. *)
Lemma ResolveBackend_Cache o1 o2 now path app :
  Cache (Router.ResolveBackend o1 o2 now path app).2 = Cache app.
Proof.
  unfold Router.ResolveBackend.
  destruct (Reg.ServersForPath o1 o2 path) as [[prefix candidates] found].
  destruct (_ || _); [done|].
  destruct (Router.eligible _ _ _ _) as [healthyServers cbm].
  destruct (_ =? _); [done|].
  destruct (_ <? _); [done|].
  by destruct (_ !! _).
Qed.

(** C9 (amended).  In the GET handler, on a cache miss that is resolved
    and forwarded and whose response body is read: when the response
    status is 200 the body is stored under the request path (the cache
    of the application is the result of Store(path, body) on the cache
    left by the miss, and when the entry fits the budget a Get of the
    path before the deadline returns the body); for every other status,
    2xx or not, the cache is left as the miss left it and has no entry
    for the path. *)
Theorem C9_caches_status_200_only (env : Env) (path : string)
    (app app1 : Application) (es : list CacheModel.Entry)
    (rc1 : Cache.ResponseCache) (backend : Router.BackendInfo)
    (resp : Response) (bodyBytes : list byte) :
  CacheModel.Rep (Cache app) es ->
  Cache.Get path (now_Get env) (Cache app) = Some (None, rc1) ->
  Router.ResolveBackend (order1 env) (order2 env) (now_Resolve env) path
    (set_Cache rc1 app) = (Router.Resolved backend, app1) ->
  performRequest (transport env) = Some resp ->
  Body resp = Some bodyBytes ->
  (StatusCode resp = 200 ->
   Cache.usedBytes rc1 + CacheModel.cost path bodyBytes <= max_int ->
   exists app',
     HandleGetRequest env path app
       = Some (ReplyBody 200 (Header resp) bodyBytes, app') /\
     Cache.Store path bodyBytes (now_Store env) rc1 = Some (Cache app') /\
     (CacheModel.cost path bodyBytes <= Cache.maxBytes rc1 ->
      forall now', now' <= now_Store env + Cache.ttl rc1 ->
      exists rc', Cache.Get path now' (Cache app') = Some (Some bodyBytes, rc'))) /\
  (StatusCode resp ≠ 200 ->
   exists app',
     HandleGetRequest env path app
       = Some (ReplyBody (StatusCode resp) (Header resp) bodyBytes, app') /\
     Cache app' = rc1 /\
     Cache.items (Cache app') !! path = None).
Proof.
  intros HR HG Hres Hperf Hbody.
  destruct (CacheFacts.Get_refines (Cache app) es path (now_Get env) HR)
    as (rc1' & HG' & HR1 & _ & _ & Hitems & _).
  rewrite HG in HG'. injection HG' as Hnone <-.
  assert (Hc1 : Cache app1 = rc1).
  { pose proof (ResolveBackend_Cache (order1 env) (order2 env)
                  (now_Resolve env) path (set_Cache rc1 app)) as H.
    by rewrite Hres in H. }
  assert (Hmiss : Cache.items rc1 !! path = None).
  { unfold CacheModel.AGet in Hnone. rewrite Hitems.
    destruct (CacheModel.find_key path es) as [e|] eqn:Hfind.
    - destruct (After (now_Get env) (CacheModel.e_expires e)); [|done].
      apply lookup_delete_eq.
    - destruct (Cache.items (Cache app) !! path) as [l|] eqn:Hl; [|done].
      exfalso. destruct HR as (cs & <- & HL & Hi & Hnd & _).
      rewrite Hi in Hl.
      destruct (CacheFacts.index_lookup cs path l Hnd Hl)
        as (cs1 & e & cs2 & -> & He).
      rewrite fmap_app in Hfind, Hnd. simpl in Hfind, Hnd.
      destruct (CacheFacts.NoDup_keys_middle _ _ _ Hnd) as (Hk1 & _ & _).
      rewrite He in Hk1.
      by rewrite (CacheFacts.find_key_middle path _ e _ Hk1 He) in Hfind. }
  unfold HandleGetRequest. rewrite HG. simpl. rewrite Hres, Hperf, Hbody.
  split.
  - intros H200 Hfit. rewrite H200. simpl.
    rewrite <- Hc1 in HR1, Hfit, Hmiss |- *.
    destruct (CacheFacts.Store_refines (Cache app1) _ path bodyBytes
                (now_Store env) HR1) as (rc2 & HS & HR2 & _).
    { pose proof HR1 as (cs & _ & _ & _ & _ & <- & _). done. }
    rewrite HS. simpl. eexists. split; [done|]. split; [done|].
    simpl. intros Hroom now' Hlive.
    by apply (CacheFacts.Store_then_Get (Cache app1) _ path bodyBytes
                (now_Store env) rc2 now' HR1).
  - intros Hne. destruct (Z.eqb_spec (StatusCode resp) StatusOK); [done|].
    eexists. split; [done|]. simpl. by rewrite Hc1.
Qed.

Lemma C9_caches_status_200_only_witness :
  let body := replicate 10 Byte.x41 in
  let env := env_at 5 200 body in
  CacheModel.cost "/s1/x" body <= Cache.maxBytes (Cache app_one) /\
  exists app',
    HandleGetRequest env "/s1/x" app_one = Some (ReplyBody 200 ∅ body, app') /\
    Cache.Store "/s1/x" body 5 (Cache app_one) = Some (Cache app') /\
    exists rc', Cache.Get "/s1/x" 6 (Cache app') = Some (Some body, rc').
Proof.
  assert (Hroom : CacheModel.cost "/s1/x" (replicate 10 Byte.x41)
                  <= Cache.maxBytes (Cache app_one))
    by (vm_compute; intros H; discriminate H).
  split; [exact Hroom|].
  destruct (C9_caches_status_200_only
              (env_at 5 200 (replicate 10 Byte.x41)) "/s1/x" app_one
              (Router.ResolveBackend [backend_one] [backend_one] 5 "/s1/x"
                 app_one).2
              [] (Cache app_one)
              (Router.mkBackendInfo backend_one "http://localhost:4200/x" "/s1")
              (mkResponse 200 ∅ (Some (replicate 10 Byte.x41)))
              (replicate 10 Byte.x41))
    as [H200 _].
  - apply CacheFacts.Rep_new.
  - reflexivity.
  - vm_compute. reflexivity.
  - reflexivity.
  - reflexivity.
  - destruct H200 as (app' & HH & HS & HGet).
    + reflexivity.
    + vm_compute. intros H; discriminate H.
    + exists app'. split; [exact HH|]. split; [exact HS|].
      apply (HGet Hroom 6). vm_compute. intros H; discriminate H.
Defined.

(** C9 as stated fails on a 2xx status other than 200: a backend that
    answers 201 is forwarded to the client, and nothing is cached; the
    same exchange with status 200 is cached. *)
Lemma C9_counterexample_status_201 :
  let body := replicate 10 Byte.x41 in
  200 <= 201 < 300 /\
  match HandleGetRequest (env_at 5 201 body) "/s1/x" app_one with
  | Some (reply, app') =>
      reply = ReplyBody 201 ∅ body /\
      Cache.items (Cache app') !! "/s1/x" = None /\
      Cache app' = Cache app_one
  | None => False
  end /\
  match HandleGetRequest (env_at 5 200 body) "/s1/x" app_one with
  | Some (reply, app') =>
      reply = ReplyBody 200 ∅ body /\
      is_Some (Cache.items (Cache app') !! "/s1/x")
  | None => False
  end.
Proof.
  split; [lia|]. split.
  - vm_compute. repeat split; reflexivity.
  - vm_compute. split; [reflexivity|]. eexists. reflexivity.
Qed.

(** *** performRequest *)

(** X21.  [performRequest] makes at most three attempts and returns the
    first one that is neither a transport error nor a status from 500
    to 504; when the first two are such, it returns what the third
    gives, whatever that is (an error, or a response of any status).
    When the request cannot be built it returns an error without any
    attempt.  So the result depends on the first three attempts only. *)
Theorem X21_three_attempts (tr : Transport) :
  performRequest tr =
    (if negb (NewRequest_ok tr) then None
     else if negb (retried (Do tr 1)) then outcome (Do tr 1)
     else if negb (retried (Do tr 2)) then outcome (Do tr 2)
     else outcome (Do tr 3)) /\
  (forall resp, performRequest tr = Some resp ->
     exists attempt, 1 <= attempt <= 3 /\ Do tr attempt = DoResponse resp /\
       (attempt < 3 -> ~ 500 <= StatusCode resp <= 504)) /\
  (forall tr', NewRequest_ok tr' = NewRequest_ok tr ->
     Do tr' 1 = Do tr 1 -> Do tr' 2 = Do tr 2 -> Do tr' 3 = Do tr 3 ->
     performRequest tr' = performRequest tr).
Proof.
  assert (Heq : forall t, performRequest t =
    (if negb (NewRequest_ok t) then None
     else if negb (retried (Do t 1)) then outcome (Do t 1)
     else if negb (retried (Do t 2)) then outcome (Do t 2)
     else outcome (Do t 3))).
  { intros t. unfold performRequest.
    change (Z.to_nat maxRetries) with 3%nat. cbn [attempts].
    change (wrap_int (1 + 1)) with 2. change (wrap_int (2 + 1)) with 3.
    change (1 <? maxRetries) with true. change (2 <? maxRetries) with true.
    change (3 <? maxRetries) with false.
    destruct (NewRequest_ok t); simpl; [|done].
    destruct (Do t 1) as [|r1]; simpl.
    - destruct (Do t 2) as [|r2]; simpl.
      + by destruct (Do t 3) as [|r3]; simpl; rewrite ?andb_false_r.
      + rewrite andb_true_r. destruct (_ && _); simpl; [|done].
        by destruct (Do t 3) as [|r3]; simpl; rewrite ?andb_false_r.
    - rewrite andb_true_r. destruct (_ && _); simpl; [|done].
      destruct (Do t 2) as [|r2]; simpl.
      + by destruct (Do t 3) as [|r3]; simpl; rewrite ?andb_false_r.
      + rewrite andb_true_r. destruct (_ && _); simpl; [|done].
        by destruct (Do t 3) as [|r3]; simpl; rewrite ?andb_false_r. }
  assert (Hnot : forall r resp, retried r = false -> outcome r = Some resp ->
            r = DoResponse resp /\ ~ 500 <= StatusCode resp <= 504).
  { intros [|r] resp; simpl; [done|]. intros Hr [= <-]. split; [done|].
    apply andb_false_iff in Hr as [Hr|Hr]; [apply Z.leb_gt in Hr|apply Z.leb_gt in Hr];
      lia. }
  split_and!.
  - apply Heq.
  - intros resp. rewrite Heq.
    destruct (NewRequest_ok tr); simpl; [|done].
    destruct (retried (Do tr 1)) eqn:E1; simpl.
    + destruct (retried (Do tr 2)) eqn:E2; simpl.
      * intros H. exists 3. split; [lia|]. split; [|lia].
        by destruct (Do tr 3) as [|r3]; simpl in H; [|injection H as ->].
      * intros H. destruct (Hnot _ _ E2 H). exists 2. split; [lia|]. by split.
    + intros H. destruct (Hnot _ _ E1 H). exists 1. split; [lia|]. by split.
  - intros tr' H0 H1 H2 H3. by rewrite !Heq, H0, H1, H2, H3.
Qed.

Lemma X21_three_attempts_witness :
  let tr := mkTransport true (fun attempt =>
              if attempt =? 1 then DoError
              else if attempt =? 2 then DoResponse (mkResponse 502 ∅ None)
              else DoResponse (mkResponse 503 ∅ None)) in
  performRequest tr = Some (mkResponse 503 ∅ None) /\
  exists attempt, 1 <= attempt <= 3 /\
    Do tr attempt = DoResponse (mkResponse 503 ∅ None).
Proof.
  intros tr. split; [reflexivity|].
  destruct (proj1 (proj2 (X21_three_attempts tr)) (mkResponse 503 ∅ None))
    as (attempt & H1 & H2 & _); [reflexivity|].
  exists attempt. split; [exact H1|exact H2].
Defined.

(** *** The handlers and the application state *)

(** A resolution changes the breakers and the round-robin counters
    only. *)
Lemma ResolveBackend_frame o1 o2 now path app :
  let app' := (Router.ResolveBackend o1 o2 now path app).2 in
  Cache app' = Cache app /\ Registry app' = Registry app /\
  HealthMonitor app' = HealthMonitor app.
Proof.
  unfold Router.ResolveBackend.
  destruct (Reg.ServersForPath o1 o2 path) as [[prefix candidates] found].
  destruct (_ || _); [done|].
  destruct (Router.eligible _ _ _ _) as [healthyServers cbm].
  destruct (_ =? _); [done|].
  destruct (_ <? _); [done|].
  by destruct (_ !! _).
Qed.

(** A resolution does not read the cache. *)
Lemma ResolveBackend_set_Cache o1 o2 now path rc app :
  Router.ResolveBackend o1 o2 now path (set_Cache rc app) =
    ((Router.ResolveBackend o1 o2 now path app).1,
     set_Cache rc (Router.ResolveBackend o1 o2 now path app).2).
Proof.
  unfold Router.ResolveBackend.
  destruct (Reg.ServersForPath o1 o2 path) as [[prefix candidates] found].
  destruct (_ || _); [done|]. simpl.
  destruct (Router.eligible _ _ _ _) as [healthyServers cbm].
  destruct (_ =? _); [done|]. simpl.
  destruct (_ <? _); [done|].
  by destruct (_ !! _).
Qed.

Lemma HandlePostRequest_set_Cache env path requestBody copied rc app :
  fst <$> HandlePostRequest env path requestBody copied (set_Cache rc app)
  = fst <$> HandlePostRequest env path requestBody copied app.
Proof.
  unfold HandlePostRequest. rewrite ResolveBackend_set_Cache.
  destruct (Router.ResolveBackend _ _ _ _ app) as [res appr]. simpl.
  destruct res as [backend| | |]; try done.
  destruct requestBody; [|done].
  by destruct (performRequest (transport env)).
Qed.

(** X22.  A response cached by one GET answers the next.  When a GET
    misses the cache and is answered by the backend with status 200 and
    a body that fits the byte budget, a second GET of the same path up
    to [ttl] after the Store gets that body with status 200 from the
    cache: no backend is resolved or contacted, so the answer is the
    same whatever the network, the registry and the health of the
    backends are by then, and breakers and round-robin counters are not
    touched.  The headers of the backend response are not replayed. *)
Theorem X22_second_get_is_served_from_cache (env1 env2 : Env) (path : string)
    (app app1 : Application) (es : list CacheModel.Entry)
    (rc1 : Cache.ResponseCache) (header : gmap string (list string))
    (body : list byte) :
  CacheModel.Rep (Cache app) es ->
  Cache.Get path (now_Get env1) (Cache app) = Some (None, rc1) ->
  HandleGetRequest env1 path app = Some (ReplyBody 200 header body, app1) ->
  Cache.usedBytes rc1 + CacheModel.cost path body <= max_int ->
  CacheModel.cost path body <= Cache.maxBytes rc1 ->
  now_Get env2 <= now_Store env1 + Cache.ttl rc1 ->
  exists app2,
    HandleGetRequest env2 path app1 = Some (ReplyBody 200 ∅ body, app2) /\
    CircuitBreaker app2 = CircuitBreaker app1 /\
    roundRobinIndex app2 = roundRobinIndex app1 /\
    Registry app2 = Registry app1 /\
    HealthMonitor app2 = HealthMonitor app1.
Proof.
  intros HR HG HH Hfit Hroom Hlive.
  destruct (CacheFacts.Get_refines (Cache app) es path (now_Get env1) HR)
    as (rc1' & HG' & HR1 & _).
  rewrite HG in HG'. injection HG' as _ <-.
  unfold HandleGetRequest in HH. rewrite HG in HH. simpl in HH.
  pose proof (ResolveBackend_frame (order1 env1) (order2 env1)
                (now_Resolve env1) path (set_Cache rc1 app)) as (Hc & _).
  destruct (Router.ResolveBackend _ _ _ _ _) as [res appr].
  simpl in Hc. destruct res as [backend| | |]; try done.
  destruct (performRequest (transport env1)) as [resp|]; [|done].
  destruct (Body resp) as [bodyBytes|]; [|done].
  destruct (StatusCode resp =? StatusOK) eqn:E200.
  2:{ injection HH as H200 _ _ _. apply Z.eqb_neq in E200. by destruct E200. }
  simpl in HH.
  destruct (Cache.Store path bodyBytes (now_Store env1) rc1) as [rc2|] eqn:HS;
    rewrite Hc, HS in HH; [|done].
  simpl in HH. injection HH as _ _ -> <-.
  destruct (CacheFacts.Store_then_Get rc1 _ path body (now_Store env1) rc2
              (now_Get env2) HR1 Hfit Hroom HS Hlive) as (rc3 & HG3).
  unfold HandleGetRequest. simpl. rewrite HG3. simpl.
  eexists. split; [done|]. by split_and!.
Qed.

Lemma X22_second_get_is_served_from_cache_witness :
  let body := replicate 10 Byte.x41 in
  exists app1 app2,
    HandleGetRequest (env_at 5 200 body) "/s1/x" app_one
      = Some (ReplyBody 200 ∅ body, app1) /\
    HandleGetRequest
      (mkEnv 30 30 30 30 [] [] (mkTransport false (fun _ => DoError)))
      "/s1/x" app1 = Some (ReplyBody 200 ∅ body, app2).
Proof.
  intros body.
  destruct (HandleGetRequest (env_at 5 200 body) "/s1/x" app_one)
    as [[reply app1]|] eqn:E; [|vm_compute in E; discriminate E].
  assert (reply = ReplyBody 200 ∅ body) as ->.
  { vm_compute in E. injection E as <- _. reflexivity. }
  destruct (X22_second_get_is_served_from_cache (env_at 5 200 body)
              (mkEnv 30 30 30 30 [] [] (mkTransport false (fun _ => DoError)))
              "/s1/x" app_one app1 [] (Cache app_one) ∅ body)
    as (app2 & H2 & _).
  - apply CacheFacts.Rep_new.
  - reflexivity.
  - exact E.
  - vm_compute. intros H; discriminate H.
  - vm_compute. intros H; discriminate H.
  - vm_compute. intros H; discriminate H.
  - exists app1, app2. split; [reflexivity|exact H2].
Defined.

(** X23.  Only GET uses the cache, and no request changes the registry
    or the health records.  A POST neither reads nor writes the cache:
    its reply does not depend on what the cache holds, even when a GET
    response is cached for the same path, and the cache is left as it
    was (so a POST does not invalidate the cached GET response).  Any
    other method is answered 405 and changes nothing. *)
Theorem X23_only_get_uses_the_cache (method : Method) (env : Env)
    (path : string) (requestBody : option (list byte)) (copied : list byte)
    (app app' : Application) (reply : Reply) :
  reverseProxyHandler method env path requestBody copied app
    = Some (reply, app') ->
  Registry app' = Registry app /\
  HealthMonitor app' = HealthMonitor app /\
  (method ≠ MethodGet ->
   Cache app' = Cache app /\
   forall rc,
     fst <$> reverseProxyHandler method env path requestBody copied
               (set_Cache rc app) = Some reply) /\
  (forall name, method = MethodOther name ->
     app' = app /\
     reply = ReplyError "unsupported http method" StatusMethodNotAllowed).
Proof.
  intros HH.
  assert (Hpost : forall a r a',
            HandlePostRequest env path requestBody copied a = Some (r, a') ->
            Cache a' = Cache a /\ Registry a' = Registry a /\
            HealthMonitor a' = HealthMonitor a).
  { intros a r a'. unfold HandlePostRequest.
    pose proof (ResolveBackend_frame (order1 env) (order2 env)
                  (now_Resolve env) path a) as (Hc & Hr & Hh).
    destruct (Router.ResolveBackend _ _ _ _ _) as [res appr].
    simpl in Hc, Hr, Hh.
    destruct res as [backend| | |]; try done; try (by intros [= _ <-]).
    destruct requestBody; [|by intros [= _ <-]].
    destruct (performRequest (transport env)) as [resp|]; by intros [= _ <-]. }
  destruct method as [| |name]; simpl in HH.
  - split_and!; [| |done|done].
    + revert HH. unfold HandleGetRequest.
      destruct (Cache.Get path (now_Get env) (Cache app)) as [[cached rc]|];
        [|done].
      simpl. destruct cached; [by intros [= _ <-]|].
      pose proof (ResolveBackend_frame (order1 env) (order2 env)
                    (now_Resolve env) path (set_Cache rc app)) as (_ & Hr & _).
      destruct (Router.ResolveBackend _ _ _ _ _) as [res appr]. simpl in Hr.
      destruct res as [backend| | |]; try done; try (by intros [= _ <-]).
      destruct (performRequest (transport env)) as [resp|]; [|by intros [= _ <-]].
      destruct (Body resp); [|by intros [= _ <-]].
      destruct (_ =? _); [|by intros [= _ <-]].
      simpl. destruct (Cache.Store _ _ _ _); [|done]. by intros [= _ <-].
    + revert HH. unfold HandleGetRequest.
      destruct (Cache.Get path (now_Get env) (Cache app)) as [[cached rc]|];
        [|done].
      simpl. destruct cached; [by intros [= _ <-]|].
      pose proof (ResolveBackend_frame (order1 env) (order2 env)
                    (now_Resolve env) path (set_Cache rc app)) as (_ & _ & Hh).
      destruct (Router.ResolveBackend _ _ _ _ _) as [res appr]. simpl in Hh.
      destruct res as [backend| | |]; try done; try (by intros [= _ <-]).
      destruct (performRequest (transport env)) as [resp|]; [|by intros [= _ <-]].
      destruct (Body resp); [|by intros [= _ <-]].
      destruct (_ =? _); [|by intros [= _ <-]].
      simpl. destruct (Cache.Store _ _ _ _); [|done]. by intros [= _ <-].
  - destruct (Hpost _ _ _ HH) as (Hc & Hr & Hh).
    split_and!; [done|done| |done].
    intros _. split; [done|]. intros rc. simpl.
    by rewrite HandlePostRequest_set_Cache, HH.
  - injection HH as <- <-. by split_and!.
Qed.

Lemma X23_only_get_uses_the_cache_witness :
  let body := replicate 10 Byte.x41 in
  exists app',
    reverseProxyHandler MethodPost (env_at 5 200 body) "/s1/x" (Some []) []
      app_one = Some (ReplyBody 200 ∅ body, app') /\
    Cache app' = Cache app_one /\ Registry app' = Registry app_one.
Proof.
  intros body.
  destruct (reverseProxyHandler MethodPost (env_at 5 200 body) "/s1/x"
              (Some []) [] app_one) as [[reply app']|] eqn:E;
    [|vm_compute in E; discriminate E].
  assert (reply = ReplyBody 200 ∅ body) as ->.
  { vm_compute in E. injection E as <- _. reflexivity. }
  destruct (X23_only_get_uses_the_cache MethodPost (env_at 5 200 body) "/s1/x"
              (Some []) [] app_one app' (ReplyBody 200 ∅ body) E)
    as (Hr & _ & Hc & _).
  exists app'. split; [reflexivity|]. split; [|exact Hr].
  apply Hc. discriminate.
Defined.

(** *** The breaker seen from the handlers *)

Lemma AllowRequest_closed_with s now cbm f :
  CB.closed_with s f cbm ->
  exists cbm1 b,
    CB.AllowRequest s now cbm = (true, cbm1) /\
    CB.breakers cbm1 !! s = Some b /\ CB.State b = CB.Closed /\
    CB.Failures b = f.
Proof.
  unfold CB.closed_with, CB.AllowRequest, CB.lookupOrCreate.
  destruct (CB.breakers cbm !! s) as [b|] eqn:E.
  - intros [Hst Hf]. rewrite Hst. by exists cbm, b.
  - intros ->. simpl. eexists _, _. split; [done|].
    split; [apply CBFacts.lookup_write|done].
Qed.

Lemma OnRequestComplete_not_HalfOpen s cbm b :
  CB.breakers cbm !! s = Some b -> CB.State b ≠ CB.HalfOpen ->
  CB.OnRequestComplete s cbm = cbm.
Proof.
  intros Hb Hst. unfold CB.OnRequestComplete. rewrite Hb.
  by rewrite (bool_decide_eq_false_2 _ Hst).
Qed.

(** One more failure reported for a Closed breaker. *)
Lemma OnFailure_counts s now cbm b :
  CB.breakers cbm !! s = Some b -> CB.State b = CB.Closed ->
  0 <= CB.Failures b < CB.FailuresToOpen ->
  exists b',
    CB.breakers (CB.OnFailure s now cbm) !! s = Some b' /\
    CB.Failures b' = CB.Failures b + 1 /\
    (if CB.FailuresToOpen <=? CB.Failures b + 1
     then CB.State b' = CB.Open /\ CB.LastOpenTime b' = now
     else CB.State b' = CB.Closed).
Proof.
  intros Hb Hst Hf. rewrite (CBFacts.OnFailure_Closed s now cbm b Hb Hst).
  rewrite CBFacts.lookup_write.
  rewrite wrap_int_id by (unfold CB.FailuresToOpen, min_int, max_int in *; lia).
  eexists. split; [done|]. by destruct (_ <=? _).
Qed.

(** One POST to a failing backend that is the single candidate of its
    path, healthy, with a Closed breaker. *)
Lemma post_failure_step env path requestBody copied s app f :
  single_candidate path s env ->
  Health.IsHealthy (Reg.Name s) (HealthMonitor app) = true ->
  CB.closed_with (Reg.Name s) f (CircuitBreaker app) ->
  0 <= f < CB.FailuresToOpen ->
  backend_fails (transport env) ->
  exists reply app' b,
    HandlePostRequest env path (Some requestBody) copied app
      = Some (reply, app') /\
    failure_reply reply /\
    HealthMonitor app' = HealthMonitor app /\
    CB.breakers (CircuitBreaker app') !! Reg.Name s = Some b /\
    CB.Failures b = f + 1 /\
    (if CB.FailuresToOpen <=? f + 1
     then CB.State b = CB.Open /\ CB.LastOpenTime b = now_OnFailure env
     else CB.State b = CB.Closed).
Proof.
  intros [Hne Hs] Hh Hc Hf Hfail.
  destruct (AllowRequest_closed_with _ (now_Resolve env) _ _ Hc)
    as (cbm1 & b1 & Ha & Hb1 & Hst1 & Hf1).
  unfold HandlePostRequest.
  rewrite (RouterFacts.ResolveBackend_single _ _ _ _ _ s Hne Hs).
  cbv zeta. rewrite Ha, Hh. cbn [fst snd andb Router.Server].
  destruct (OnFailure_counts (Reg.Name s) (now_OnFailure env) cbm1 b1 Hb1 Hst1)
    as (b' & Hb' & Hf' & Hst'); [by rewrite Hf1|].
  rewrite Hf1 in Hf', Hst'.
  assert (Hnh : CB.State b' ≠ CB.HalfOpen).
  { destruct (_ <=? _); [destruct Hst' as [-> _]|rewrite Hst']; done. }
  unfold backend_fails in Hfail.
  destruct (performRequest (transport env)) as [resp|].
  - assert ((500 <=? StatusCode resp) && (StatusCode resp <=? 599) = true) as ->.
    { apply andb_true_iff. split; apply Z.leb_le; lia. }
    eexists _, _, b'. split; [done|]. simpl.
    rewrite (OnRequestComplete_not_HalfOpen _ _ b' Hb' Hnh).
    split; [exact Hfail|]. by split_and!.
  - eexists _, _, b'. split; [done|]. by split_and!.
Qed.

Lemma HandlePostRequest_frame env path requestBody copied app reply app' :
  HandlePostRequest env path requestBody copied app = Some (reply, app') ->
  Cache app' = Cache app /\ Registry app' = Registry app /\
  HealthMonitor app' = HealthMonitor app.
Proof.
  unfold HandlePostRequest.
  pose proof (ResolveBackend_frame (order1 env) (order2 env)
                (now_Resolve env) path app) as (Hc & Hr & Hh).
  destruct (Router.ResolveBackend _ _ _ _ _) as [res appr].
  simpl in Hc, Hr, Hh.
  destruct res as [backend| | |]; try done; try (by intros [= _ <-]).
  destruct requestBody; [|by intros [= _ <-]].
  destruct (performRequest (transport env)) as [resp|]; by intros [= _ <-].
Qed.

(** POSTs to a failing backend, from a Closed breaker with [f] failures
    counted up to the threshold. *)
Lemma posts_trip envs path requestBody copied s app f :
  Forall (single_candidate path s) envs ->
  Health.IsHealthy (Reg.Name s) (HealthMonitor app) = true ->
  CB.closed_with (Reg.Name s) f (CircuitBreaker app) ->
  0 <= f -> f + Z.of_nat (length envs) = CB.FailuresToOpen ->
  envs ≠ [] ->
  Forall (fun env => backend_fails (transport env)) envs ->
  exists replies app' b,
    posts envs path (Some requestBody) copied app = Some (replies, app') /\
    Forall failure_reply replies /\
    HealthMonitor app' = HealthMonitor app /\
    CB.breakers (CircuitBreaker app') !! Reg.Name s = Some b /\
    CB.State b = CB.Open /\
    (forall env, last envs = Some env ->
                 CB.LastOpenTime b = now_OnFailure env).
Proof.
  revert app f. induction envs as [|env envs IH]; intros app f Hs Hh Hc H0 Hlen Hne Hfail;
    [done|].
  apply Forall_cons in Hs as [Hs1 Hs]. apply Forall_cons in Hfail as [Hf1 Hfail].
  cbn [length] in Hlen.
  destruct (post_failure_step env path requestBody copied s app f Hs1 Hh Hc)
    as (reply & app1 & b1 & HP & Hrep & Hh1 & Hb1 & Hfb1 & Hst1); [lia|done|].
  cbn [posts]. rewrite HP. cbn [mbind option_bind].
  destruct envs as [|env2 envs].
  - simpl in Hlen.
    assert ((CB.FailuresToOpen <=? f + 1) = true) as Hle by (apply Z.leb_le; lia).
    rewrite Hle in Hst1. destruct Hst1 as [Hst1 Hlo].
    exists [reply], app1, b1. simpl. split_and!; try done.
    + by apply Forall_singleton.
    + by intros ? [= <-].
  - assert ((CB.FailuresToOpen <=? f + 1) = false) as Hle.
    { apply Z.leb_gt. cbn [length] in Hlen. lia. }
    rewrite Hle in Hst1.
    destruct (IH app1 (f + 1)) as (replies & app' & b & HPs & Hreps & Hh' & Hb & Hst & Hlast);
      try done.
    + by rewrite Hh1.
    + unfold CB.closed_with. by rewrite Hb1.
    + lia.
    + cbn [length] in *. lia.
    + rewrite HPs. cbn [mbind option_bind].
      exists (reply :: replies), app', b. split_and!; try done.
      * by apply Forall_cons.
      * congruence.
Qed.

(** X24.  A failing backend is cut off, and let in again on probation.
    Take a path whose single candidate is a healthy backend with a
    Closed breaker and no failure counted.  Five POST requests that the
    backend fails (a transport error after the retries, or a 5xx
    response) are each answered with a failure and open the breaker at
    the fifth.  Until the cooldown has passed since then, a request of
    the path is answered 503 without the backend being contacted,
    whatever the network would answer.  Once it has passed, a request is
    forwarded again, and when the backend answers it with a status that
    is not 5xx the breaker closes. *)
Theorem X24_failing_backend_is_cut_off (envs : list Env) (path : string)
    (requestBody copied : list byte) (s : Reg.Server) (app : Application) :
  Forall (single_candidate path s) envs ->
  Health.IsHealthy (Reg.Name s) (HealthMonitor app) = true ->
  CB.closed_with (Reg.Name s) 0 (CircuitBreaker app) ->
  Forall (fun env => backend_fails (transport env)) envs ->
  length envs = 5%nat ->
  exists replies app5 b,
    posts envs path (Some requestBody) copied app = Some (replies, app5) /\
    Forall failure_reply replies /\
    CB.breakers (CircuitBreaker app5) !! Reg.Name s = Some b /\
    CB.State b = CB.Open /\
    (forall env, last envs = Some env -> CB.LastOpenTime b = now_OnFailure env) /\
    forall env6, single_candidate path s env6 ->
      (Since (now_Resolve env6) (CB.LastOpenTime b) < CB.OpenCooldown ->
       forall requestBody6 copied6, exists app6,
         HandlePostRequest env6 path requestBody6 copied6 app5
           = Some (ReplyError "Service Unavailable" StatusServiceUnavailable,
                   app6) /\
         CB.GetBreakerState (Reg.Name s) (CircuitBreaker app6) = CB.Open) /\
      (CB.OpenCooldown <= Since (now_Resolve env6) (CB.LastOpenTime b) ->
       forall resp requestBody6 copied6,
         performRequest (transport env6) = Some resp ->
         ~ 500 <= StatusCode resp <= 599 ->
         exists app6,
           HandlePostRequest env6 path (Some requestBody6) copied6 app5
             = Some (ReplyBody (StatusCode resp) (Header resp)
                       (default copied6 (Body resp)), app6) /\
           CB.GetBreakerState (Reg.Name s) (CircuitBreaker app6) = CB.Closed).
Proof.
  intros Hs Hh Hc Hfail Hlen.
  destruct (posts_trip envs path requestBody copied s app 0 Hs Hh Hc)
    as (replies & app5 & b & HP & Hrep & Hh5 & Hb & Hst & Hlast); try done.
  { rewrite Hlen. done. }
  { by destruct envs. }
  exists replies, app5, b. split_and!; try done.
  intros env6 [Hne6 Hs6]. split.
  - intros Hcool requestBody6 copied6. unfold HandlePostRequest.
    rewrite (RouterFacts.ResolveBackend_single _ _ _ _ _ s Hne6 Hs6).
    cbv zeta. unfold CB.AllowRequest.
    rewrite (CBFacts.lookupOrCreate_Some _ _ _ Hb), Hst.
    assert ((CB.OpenCooldown <=? Since (now_Resolve env6) (CB.LastOpenTime b))
            = false) as -> by (apply Z.leb_gt; lia).
    cbn [fst snd]. rewrite andb_false_r.
    eexists. split; [done|]. simpl. unfold CB.GetBreakerState. by rewrite Hb.
  - intros Hcool resp requestBody6 copied6 Hresp Hok. unfold HandlePostRequest.
    rewrite (RouterFacts.ResolveBackend_single _ _ _ _ _ s Hne6 Hs6).
    cbv zeta. unfold CB.AllowRequest.
    rewrite (CBFacts.lookupOrCreate_Some _ _ _ Hb), Hst.
    assert ((CB.OpenCooldown <=? Since (now_Resolve env6) (CB.LastOpenTime b))
            = true) as -> by (apply Z.leb_le; lia).
    cbn [fst snd]. rewrite Hh5, Hh. cbn [andb Router.Server].
    rewrite Hresp.
    assert ((500 <=? StatusCode resp) && (StatusCode resp <=? 599) = false) as ->.
    { apply andb_false_iff.
      destruct (Z.leb_spec 500 (StatusCode resp)); [|by left].
      right. apply Z.leb_gt. lia. }
    eexists. split; [done|]. simpl.
    unfold CB.OnSuccess. rewrite CBFacts.lookup_write. simpl.
    rewrite CBFacts.write_write.
    unfold CB.OnRequestComplete. rewrite CBFacts.lookup_write. simpl.
    unfold CB.GetBreakerState. by rewrite CBFacts.lookup_write.
Qed.

Lemma X24_failing_backend_is_cut_off_witness :
  let down := mkTransport true (fun _ => DoError) in
  let env t := mkEnv t t t t [backend_one] [backend_one] down in
  let envs := [env 1; env 2; env 3; env 4; env 5] in
  exists replies app5 app6,
    posts envs "/s1/x" (Some []) [] app_one = Some (replies, app5) /\
    Forall failure_reply replies /\
    HandlePostRequest (env_at 6 200 []) "/s1/x" (Some []) [] app5
      = Some (ReplyError "Service Unavailable" StatusServiceUnavailable, app6).
Proof.
  intros down env envs.
  destruct (X24_failing_backend_is_cut_off envs "/s1/x" [] [] backend_one app_one)
    as (replies & app5 & b & HP & Hrep & _ & _ & Hlast & H6).
  - repeat constructor; discriminate.
  - reflexivity.
  - reflexivity.
  - repeat constructor.
  - reflexivity.
  - destruct (H6 (env_at 6 200 [])) as [Hcut _].
    + split; [discriminate|reflexivity].
    + destruct (Hcut) with (requestBody6 := Some (@nil byte)) (copied6 := @nil byte)
        as (app6 & H & _).
      * rewrite (Hlast (env 5) eq_refl). reflexivity.
      * exists replies, app5, app6. split; [exact HP|]. split; [exact Hrep|exact H].
Defined.

End HandlersFacts.
